(** * Presence, voice rooms and call signaling of the chat server

    A shallow embedding of the Socket.IO part of the server (the two
    process-wide tables [users] and [rooms] and the handlers registered in
    [io.on('connection')]), of the WebRTC signaling handlers and the call
    controls of the browser client, and of three HTTP routes.

    Every handler is a function from the tables to the new tables and the
    list of messages it emits.  The handlers that [await] a database call
    are cut at each [await]: the part before and the part after are separate
    steps of the event loop, so that other events can run in between exactly
    where the JavaScript program lets them.

    The payload of a client message has the fields the client script puts
    in it.  The handlers for chat messages, reactions, voice activity and
    video toggle, and the HTTP routes, write neither [users] nor [rooms] and
    are no steps of the event loop below.  What Socket.IO itself does (the room of a socket's own
    id, leaving all rooms when the transport closes, delivery to the
    sockets of a room) is described by the [joined] field of a socket and
    by [recipients]. *)

From Stdlib Require Import String Ascii List ZArith Bool Lia.
Import ListNotations.
Open Scope string_scope.
Open Scope list_scope.

(** ** JavaScript [Map] with string keys

    A [Map] enumerates its entries in insertion order; [set] on a key that
    is present replaces the value in place, [set] on a new key appends. *)

Module JsMap.

Definition t (V : Type) : Type := list (string * V).

Section Ops.
Context {V : Type}.

Definition empty : t V := [].

Fixpoint get (m : t V) (k : string) : option V :=
  match m with
  | [] => None
  | (k', v) :: m' => if String.eqb k' k then Some v else get m' k
  end.

Definition has (m : t V) (k : string) : bool :=
  match get m k with Some _ => true | None => false end.

Fixpoint set (m : t V) (k : string) (v : V) : t V :=
  match m with
  | [] => [(k, v)]
  | (k', v') :: m' =>
      if String.eqb k' k then (k', v) :: m' else (k', v') :: set m' k v
  end.

Definition delete (m : t V) (k : string) : t V :=
  filter (fun kv => negb (String.eqb (fst kv) k)) m.

Definition keys (m : t V) : list string := map fst m.

Definition values (m : t V) : list V := map snd m.

End Ops.

End JsMap.

(** ** JavaScript [Set] of strings, enumerated in insertion order *)

Module JsSet.

Definition t : Type := list string.

Definition has (s : t) (x : string) : bool := existsb (String.eqb x) s.

Definition add (s : t) (x : string) : t := if has s x then s else s ++ [x].

Definition delete (s : t) (x : string) : t :=
  filter (fun y => negb (String.eqb y x)) s.

End JsSet.

(** ** Data of the server *)

Definition SocketId : Type := string.
Definition UserId : Type := Z.
Definition Payload : Type := string.

(** The row [userDB.findById] resolves to.  The database module is not part
    of the sources at hand; the record has the columns the handlers read. *)
Record UserRow : Type := {
  row_id : UserId;
  row_username : string;
  row_avatar : option string
}.

(** A value of [users]: [{...user, socketId: socket.id}].  When the lookup
    resolves to no row the spread adds nothing and only [socketId] is set. *)
Record Entry : Type := {
  entry_row : option UserRow;
  socketId : SocketId
}.

(** [u.id === to] *)
Definition id_is (to : UserId) (u : Entry) : bool :=
  match entry_row u with
  | Some r => Z.eqb (row_id r) to
  | None => false
  end.

(** Outcome of an awaited promise. *)
Inductive Settled (A : Type) : Type :=
| Resolved (a : A)
| Rejected.
Arguments Resolved {A} a.
Arguments Rejected {A}.

(** Where the [io.on('connection')] callback of a socket, or its
    ['disconnect'] handler, currently stands.  The [socket.on] calls come
    after the [try] block of the callback, so a socket has handlers only
    from [Listening] on. *)
Inductive Phase : Type :=
| AwaitFindById   (* connection: await userDB.findById *)
| AwaitOnline     (* connection: await userDB.updateStatus(.., 'Online') *)
| Listening       (* handlers registered *)
| AwaitOffline    (* disconnect: await userDB.updateStatus(.., 'Offline') *)
| Closed.         (* disconnect handler finished *)

(** The Socket.IO side of a connection: the identity set by the [io.use]
    middleware, whether the transport is open, and the Socket.IO rooms the
    socket has joined (its own id, and [voice-<channel>] rooms). *)
Record Socket : Type := {
  userId : UserId;
  connected : bool;
  joined : JsSet.t;
  phase : Phase
}.

Record State : Type := {
  users : JsMap.t Entry;          (* const users = new Map() *)
  rooms : JsMap.t JsSet.t;        (* const rooms = new Map() *)
  sockets : JsMap.t Socket
}.

Definition init : State :=
  {| users := JsMap.empty; rooms := JsMap.empty; sockets := JsMap.empty |}.

(** ** Messages *)

(** [data.from] of initiate-call and accept-call, as the client sends it. *)
Record Caller : Type := {
  from_id : UserId;
  from_username : option string
}.

(** An avatar as the server sends it: the stored one, or the capital
    initial [username.charAt(0).toUpperCase()] of a user name.  The initial
    is kept as the name it is taken of: what [toUpperCase] makes of a
    character is the case mapping of the JavaScript engine, which is no part
    of the program. *)
Inductive Avatar : Type :=
| Stored (avatar : string)
| InitialOf (username : string).

Record CallerInfo : Type := {
  ci_id : UserId;
  ci_username : option string;
  ci_socketId : SocketId;
  ci_avatar : option Avatar
}.

Record AccepterInfo : Type := {
  ai_id : UserId;
  ai_username : option string;
  ai_socketId : SocketId
}.

(** [messagePayload] of send-dm, without its timestamp. *)
Record DmMessage : Type := {
  dm_id : Z;
  dm_author : string;
  dm_avatar : Avatar;
  dm_text : string
}.

(** The two texts of call-rejected: the callee is not online, and the call
    was declined. *)
Inductive RejectText : Type := UserOffline | CallDeclined.

Inductive ClientMsg : Type :=
| JoinVoiceChannel (channelName : string) (userId : UserId)
| Offer (to : string) (offer : Payload)
| Answer (to : string) (answer : Payload)
| IceCandidate (to : string) (candidate : Payload)
| LeaveVoiceChannel (channelName : string)
| InitiateCall (to : UserId) (type : string) (from : Caller)
| AcceptCall (to : string) (from : Caller)
| RejectCall (to : string)
| EndCall (to : option string).

Inductive ServerMsg : Type :=
| UserListUpdate (l : list Entry)
| UserJoinedVoice (userId : UserId) (socketId : SocketId)
| ExistingVoiceUsers (existingUsers : list (option Entry))
| OfferMsg (offer : Payload) (from : SocketId)
| AnswerMsg (answer : Payload) (from : SocketId)
| IceCandidateMsg (candidate : Payload) (from : SocketId)
| UserLeftVoice (socketId : SocketId)
| IncomingCall (from : CallerInfo) (type : string)
| CallRejected (from : option SocketId) (message : RejectText)
| CallAccepted (from : AccepterInfo)
| CallEnded (from : SocketId)
| NewDm (senderId : UserId) (message : DmMessage)
| DmSent (receiverId : UserId) (message : DmMessage).

(** The four ways the handlers address a message. *)
Inductive Target : Type :=
| Broadcast                                   (* io.emit *)
| InRoom (room : string)                      (* io.to(room).emit *)
| InRoomExcept (room : string) (s : SocketId) (* socket.to(room).emit *)
| Direct (s : SocketId).                      (* socket.emit *)

Definition Emission : Type := (Target * ServerMsg)%type.

(** What the scheduler runs: a new connection, the settling of an awaited
    database call, a message of a client, the closing of a transport. *)
Inductive Event : Type :=
| EvConnection (s : SocketId) (uid : UserId)
| EvFindById (s : SocketId) (r : Settled (option UserRow))
| EvUpdateStatus (s : SocketId) (ok : bool)
| EvClient (s : SocketId) (m : ClientMsg)
| EvSendDm (s : SocketId) (receiverId : UserId) (text : string)
    (db : Settled (UserRow * Z))
| EvDisconnect (s : SocketId).

(** ** Small helpers *)

Definition voice_room (channelName : string) : string :=
  String.append "voice-" channelName.

Definition set_users (st : State) (u : JsMap.t Entry) : State :=
  {| users := u; rooms := rooms st; sockets := sockets st |}.

Definition set_rooms (st : State) (r : JsMap.t JsSet.t) : State :=
  {| users := users st; rooms := r; sockets := sockets st |}.

Definition update_socket (st : State) (s : SocketId) (f : Socket -> Socket)
  : State :=
  match JsMap.get (sockets st) s with
  | Some sk =>
      {| users := users st; rooms := rooms st;
         sockets := JsMap.set (sockets st) s (f sk) |}
  | None => st
  end.

Definition set_phase (p : Phase) (sk : Socket) : Socket :=
  {| userId := userId sk; connected := connected sk; joined := joined sk;
     phase := p |}.

Definition set_joined (j : JsSet.t) (sk : Socket) : Socket :=
  {| userId := userId sk; connected := connected sk; joined := j;
     phase := phase sk |}.

(** [socket.join(room)] and [socket.leave(room)] *)
Definition socket_join (st : State) (s : SocketId) (room : string) : State :=
  update_socket st s (fun sk => set_joined (JsSet.add (joined sk) room) sk).

Definition socket_leave (st : State) (s : SocketId) (room : string) : State :=
  update_socket st s (fun sk => set_joined (JsSet.delete (joined sk) room) sk).

(** [rooms.get(channelName)], read where the key is known to be present. *)
Definition members_of (r : JsMap.t JsSet.t) (channelName : string) : JsSet.t :=
  match JsMap.get r channelName with
  | Some members => members
  | None => []
  end.

(** ** The handlers of [io.on('connection')]

    In each of them [s] is [socket.id] of the socket the handler belongs
    to. *)

(** [socket.on('join-voice-channel')].  The [Set] stored under the channel
    is mutated in place, so the entry keeps its position in [rooms]. *)
Definition join_voice_channel (st : State) (s : SocketId)
  (channelName : string) (userId : UserId) : State * list Emission :=
  let st1 := socket_join st s (voice_room channelName) in
  let rooms1 :=
    if JsMap.has (rooms st1) channelName then rooms st1
    else JsMap.set (rooms st1) channelName [] in
  let members := JsSet.add (members_of rooms1 channelName) s in
  let rooms2 := JsMap.set rooms1 channelName members in
  let existingUsers :=
    map (fun id => JsMap.get (users st1) id)
        (filter (fun id => negb (String.eqb id s)) members) in
  (set_rooms st1 rooms2,
   [ (InRoomExcept (voice_room channelName) s, UserJoinedVoice userId s);
     (Direct s, ExistingVoiceUsers existingUsers) ]).

(** [socket.on('offer')], [socket.on('answer')], [socket.on('ice-candidate')] *)
Definition offer (st : State) (s : SocketId) (to : string) (o : Payload)
  : State * list Emission :=
  (st, [ (InRoomExcept to s, OfferMsg o s) ]).

Definition answer (st : State) (s : SocketId) (to : string) (a : Payload)
  : State * list Emission :=
  (st, [ (InRoomExcept to s, AnswerMsg a s) ]).

Definition ice_candidate (st : State) (s : SocketId) (to : string)
  (c : Payload) : State * list Emission :=
  (st, [ (InRoomExcept to s, IceCandidateMsg c s) ]).

(** [socket.on('leave-voice-channel')] *)
Definition leave_voice_channel (st : State) (s : SocketId)
  (channelName : string) : State * list Emission :=
  let st1 := socket_leave st s (voice_room channelName) in
  if JsMap.has (rooms st1) channelName then
    (set_rooms st1
       (JsMap.set (rooms st1) channelName
          (JsSet.delete (members_of (rooms st1) channelName) s)),
     [ (InRoomExcept (voice_room channelName) s, UserLeftVoice s) ])
  else (st1, []).

(** [socket.on('initiate-call')]; the avatar is
    [from.username?.charAt(0).toUpperCase()]. *)
Definition initiate_call (st : State) (s : SocketId) (to : UserId)
  (type : string) (from : Caller) : State * list Emission :=
  match find (id_is to) (JsMap.values (users st)) with
  | Some receiverSocket =>
      (st, [ (InRoom (socketId receiverSocket),
              IncomingCall
                {| ci_id := from_id from;
                   ci_username := from_username from;
                   ci_socketId := s;
                   ci_avatar := option_map InitialOf (from_username from) |}
                type) ])
  | None => (st, [ (Direct s, CallRejected None UserOffline) ])
  end.

(** [socket.on('accept-call')] *)
Definition accept_call (st : State) (s : SocketId) (to : string)
  (from : Caller) : State * list Emission :=
  (st, [ (InRoom to,
          CallAccepted {| ai_id := from_id from;
                          ai_username := from_username from;
                          ai_socketId := s |}) ]).

(** [socket.on('reject-call')] *)
Definition reject_call (st : State) (s : SocketId) (to : string)
  : State * list Emission :=
  (st, [ (InRoom to, CallRejected (Some s) CallDeclined) ]).

(** [if (to)]: neither [undefined] nor the empty string. *)
Definition truthy (to : option string) : option string :=
  match to with
  | Some EmptyString => None
  | other => other
  end.

(** [socket.on('end-call')] *)
Definition end_call (st : State) (s : SocketId) (to : option string)
  : State * list Emission :=
  match truthy to with
  | Some t => (st, [ (InRoom t, CallEnded s) ])
  | None => (st, [])
  end.

(** [sender.avatar || sender.username.charAt(0).toUpperCase()] *)
Definition avatar_or_initial (sender : UserRow) : Avatar :=
  match row_avatar sender with
  | Some (String c a) => Stored (String c a)
  | _ => InitialOf (row_username sender)
  end.

(** [socket.on('send-dm')], from the point where both of its awaits
    ([userDB.findById] and [dmDB.create]) have settled; before that point
    the handler reads and writes nothing of the tables.  A rejected await
    lands in the [catch], which only logs. *)
Definition send_dm (st : State) (s : SocketId) (receiverId : UserId)
  (text : string) (db : Settled (UserRow * Z)) : State * list Emission :=
  match db, JsMap.get (sockets st) s with
  | Resolved (sender, savedId), Some sk =>
      let messagePayload :=
        {| dm_id := savedId; dm_author := row_username sender;
           dm_avatar := avatar_or_initial sender; dm_text := text |} in
      (st,
       match find (id_is receiverId) (JsMap.values (users st)) with
       | Some receiverSocket =>
           [ (InRoom (socketId receiverSocket),
              NewDm (userId sk) messagePayload) ]
       | None => []
       end
       ++ [ (Direct s, DmSent receiverId messagePayload) ])
  | _, _ => (st, [])
  end.

Definition handle (st : State) (s : SocketId) (m : ClientMsg)
  : State * list Emission :=
  match m with
  | JoinVoiceChannel channelName userId =>
      join_voice_channel st s channelName userId
  | Offer to o => offer st s to o
  | Answer to a => answer st s to a
  | IceCandidate to c => ice_candidate st s to c
  | LeaveVoiceChannel channelName => leave_voice_channel st s channelName
  | InitiateCall to type from => initiate_call st s to type from
  | AcceptCall to from => accept_call st s to from
  | RejectCall to => reject_call st s to
  | EndCall to => end_call st s to
  end.

(** ** Connection and disconnection *)

(** [io.on('connection')] is called: Socket.IO has put the socket in the
    room named by its id; the callback runs up to [await userDB.findById]. *)
Definition connection_begin (st : State) (s : SocketId) (uid : UserId)
  : State :=
  {| users := users st; rooms := rooms st;
     sockets := JsMap.set (sockets st) s
       {| userId := uid; connected := true; joined := [s];
          phase := AwaitFindById |} |}.

(** [userDB.findById] settles: [users.set], then the callback runs up to
    [await userDB.updateStatus]; a rejection goes to the [catch], after
    which the handlers are registered. *)
Definition connection_after_findById (st : State) (s : SocketId)
  (r : Settled (option UserRow)) : State * list Emission :=
  match r with
  | Resolved user =>
      (update_socket
         (set_users st
            (JsMap.set (users st) s {| entry_row := user; socketId := s |}))
         s (set_phase AwaitOnline),
       [])
  | Rejected => (update_socket st s (set_phase Listening), [])
  end.

(** [userDB.updateStatus(.., 'Online')] settles: the list of [users] is
    broadcast unless the update was rejected; then the handlers are
    registered. *)
Definition connection_after_updateStatus (st : State) (s : SocketId)
  (ok : bool) : State * list Emission :=
  (update_socket st s (set_phase Listening),
   if ok then [ (Broadcast, UserListUpdate (JsMap.values (users st))) ]
   else []).

(** The transport closes: Socket.IO marks the socket disconnected and takes
    it out of all its rooms, then fires ['disconnect']. *)
Definition transport_close (st : State) (s : SocketId) : State :=
  update_socket st s (fun sk =>
    {| userId := userId sk; connected := false; joined := [];
       phase := phase sk |}).

(** [socket.on('disconnect')] up to its await: [users.get(socket.id)], and
    nothing more when the socket is not registered. *)
Definition disconnect_begin (st : State) (s : SocketId) : State :=
  match JsMap.get (users st) s with
  | Some user => update_socket st s (set_phase AwaitOffline)
  | None => update_socket st s (set_phase Closed)
  end.

(** The [rooms.forEach] of the disconnect handler. *)
Definition remove_from_rooms (r : JsMap.t JsSet.t) (s : SocketId)
  : JsMap.t JsSet.t :=
  map (fun rm : string * JsSet.t =>
         let (roomName, members) := rm in
         (roomName,
          if JsSet.has members s then JsSet.delete members s else members))
      r.

Definition left_notifications (r : JsMap.t JsSet.t) (s : SocketId)
  : list Emission :=
  flat_map (fun rm : string * JsSet.t =>
              let (roomName, members) := rm in
              if JsSet.has members s
              then [ (InRoom (voice_room roomName), UserLeftVoice s) ]
              else [])
           r.

(** [socket.on('disconnect')] after its await, whether the status update
    succeeded or was caught: the rooms, then [users.delete], then the
    broadcast, with no await in between. *)
Definition disconnect_after_updateStatus (st : State) (s : SocketId)
  : State * list Emission :=
  let users' := JsMap.delete (users st) s in
  (update_socket
     {| users := users'; rooms := remove_from_rooms (rooms st) s;
        sockets := sockets st |}
     s (set_phase Closed),
   left_notifications (rooms st) s
   ++ [ (Broadcast, UserListUpdate (JsMap.values users')) ]).

(** ** The event loop *)

Definition phase_of (st : State) (s : SocketId) : option Phase :=
  option_map phase (JsMap.get (sockets st) s).

Definition is_connected (st : State) (s : SocketId) : bool :=
  match JsMap.get (sockets st) s with
  | Some sk => connected sk
  | None => false
  end.

(** One turn of the event loop.  Socket.IO gives every connection a fresh
    id, delivers client messages only to open sockets that have a handler,
    and fires ['disconnect'] once. *)
Definition step (st : State) (ev : Event) : State * list Emission :=
  match ev with
  | EvConnection s uid =>
      if JsMap.has (sockets st) s then (st, [])
      else (connection_begin st s uid, [])
  | EvFindById s r =>
      match phase_of st s with
      | Some AwaitFindById => connection_after_findById st s r
      | _ => (st, [])
      end
  | EvUpdateStatus s ok =>
      match phase_of st s with
      | Some AwaitOnline => connection_after_updateStatus st s ok
      | Some AwaitOffline => disconnect_after_updateStatus st s
      | _ => (st, [])
      end
  | EvClient s m =>
      match is_connected st s, phase_of st s with
      | true, Some Listening => handle st s m
      | _, _ => (st, [])
      end
  | EvSendDm s receiverId text db =>
      match phase_of st s with
      | Some Listening | Some AwaitOffline | Some Closed =>
          send_dm st s receiverId text db
      | _ => (st, [])
      end
  | EvDisconnect s =>
      if is_connected st s then
        match phase_of st s with
        | Some Listening => (disconnect_begin (transport_close st s) s, [])
        | _ => (transport_close st s, [])
        end
      else (st, [])
  end.

Fixpoint run (st : State) (evs : list Event) : State * list Emission :=
  match evs with
  | [] => (st, [])
  | ev :: evs' =>
      let (st1, out1) := step st ev in
      let (st2, out2) := run st1 evs' in
      (st2, out1 ++ out2)
  end.

Definition after (evs : list Event) : State := fst (run init evs).

(** ** Who receives an emission

    The connected sockets that Socket.IO has in the addressed room. *)

Definition in_room (room : string) (ks : string * Socket) : bool :=
  (connected (snd ks) && JsSet.has (joined (snd ks)) room)%bool.

Definition recipients (st : State) (t : Target) : list SocketId :=
  match t with
  | Broadcast =>
      JsMap.keys (filter (fun ks => connected (snd ks)) (sockets st))
  | InRoom room => JsMap.keys (filter (in_room room) (sockets st))
  | InRoomExcept room s =>
      JsMap.keys
        (filter (fun ks => (in_room room ks && negb (String.eqb (fst ks) s))%bool)
                (sockets st))
  | Direct s => if is_connected st s then [s] else []
  end.

(** ** The browser client: its WebRTC signaling handlers

    [peerConnections] maps the socket id of a remote peer to the
    [RTCPeerConnection] for it.  A peer connection is modelled by the calls
    the handlers have issued on it, oldest first. *)

Module Client.

Inductive PcCall : Type :=
| CreateOffer
| SetRemoteDescription (d : Payload)
| AddIceCandidate (c : Payload).

Record PeerConnection : Type := {
  isInitiator : bool;
  calls : list PcCall
}.

(** [let peerConnections = {}]: a plain object, kept as its entries in the
    order of their creation.  Its keys are socket ids; an id that is the
    name of a member of [Object.prototype] is not considered, so that
    [peerConnections[id]] is a lookup among the entries. *)
Definition PeerConnections : Type := JsMap.t PeerConnection.

(** The value of a string of decimal digits, read after [acc]. *)
Fixpoint numeral (acc : Z) (k : string) : option Z :=
  match k with
  | EmptyString => Some acc
  | String c k' =>
      let n := Z.of_nat (nat_of_ascii c) in
      if (Z.leb 48 n && Z.leb n 57)%bool
      then numeral (10 * acc + (n - 48)) k'
      else None
  end.

(** The array index a property key is, if it is one: the key is the decimal
    numeral, without leading zeros, of a number below 2^32 - 1. *)
Definition array_index (k : string) : option Z :=
  match k with
  | EmptyString => None
  | String "0" EmptyString => Some 0%Z
  | String "0" _ => None
  | _ =>
      match numeral 0 k with
      | Some n => if Z.ltb n 4294967295 then Some n else None
      | None => None
      end
  end.

Fixpoint insert_index (x : Z * string) (l : list (Z * string))
  : list (Z * string) :=
  match l with
  | [] => [x]
  | y :: l' => if Z.leb (fst x) (fst y) then x :: l else y :: insert_index x l'
  end.

(** [Object.keys(o)]: the keys that are array indices, in ascending numeric
    order, then the other keys in the order of their creation. *)
Definition object_keys {V : Type} (o : JsMap.t V) : list string :=
  map snd
    (fold_right insert_index []
       (flat_map (fun k => match array_index k with
                           | Some n => [(n, k)]
                           | None => []
                           end)
                 (JsMap.keys o)))
  ++ filter (fun k => match array_index k with
                      | Some _ => false
                      | None => true
                      end)
            (JsMap.keys o).

(** What the handlers read of a message.  An item of the list of existing
    users is the [socketId] of an entry of the server's registry, or nothing
    where the server has sent [null] for a member it has no entry for. *)
Inductive Msg : Type :=
| UserJoinedVoice (socketId : SocketId)
| ExistingVoiceUsers (users : list (option SocketId))
| UserLeftVoice (socketId : SocketId)
| Offer (from : SocketId) (offer : Payload)
| Answer (from : SocketId) (answer : Payload)
| IceCandidate (from : SocketId) (candidate : option Payload)
| CallAccepted (socketId : SocketId)
| CallEnded (from : SocketId).

Definition call (pcs : PeerConnections) (remote : SocketId) (c : PcCall)
  : PeerConnections :=
  match JsMap.get pcs remote with
  | Some pc =>
      JsMap.set pcs remote
        {| isInitiator := isInitiator pc; calls := calls pc ++ [c] |}
  | None => pcs
  end.

(** [createPeerConnection]: an existing connection for the peer is
    returned as it is; a new one is stored, and the initiator calls
    [createOffer] on it at once (the offer is sent in a later turn). *)
Definition createPeerConnection (pcs : PeerConnections)
  (remoteSocketId : SocketId) (initiator : bool) : PeerConnections :=
  if JsMap.has pcs remoteSocketId then pcs
  else JsMap.set pcs remoteSocketId
         {| isInitiator := initiator;
            calls := if initiator then [CreateOffer] else [] |}.

(** [socket.on('user-left-voice')], and the same for [socket.on('call-ended')]:
    the connection for the peer, if any, is closed and forgotten. *)
Definition user_left_voice (pcs : PeerConnections) (socketId : SocketId)
  : PeerConnections :=
  if JsMap.has pcs socketId then JsMap.delete pcs socketId else pcs.

(** [socket.on('offer')], up to its first await: the connection is created
    when missing and [setRemoteDescription] is called.  The rest of the
    handler creates and sends the answer and issues neither
    [setRemoteDescription] nor [addIceCandidate]. *)
Definition offer (pcs : PeerConnections) (from : SocketId) (o : Payload)
  : PeerConnections :=
  call (createPeerConnection pcs from false) from (SetRemoteDescription o).

(** [socket.on('answer')] *)
Definition answer (pcs : PeerConnections) (from : SocketId) (a : Payload)
  : PeerConnections :=
  call pcs from (SetRemoteDescription a).

(** [socket.on('ice-candidate')]: [if (pc && data.candidate)] *)
Definition ice_candidate (pcs : PeerConnections) (from : SocketId)
  (candidate : option Payload) : PeerConnections :=
  match JsMap.get pcs from, candidate with
  | Some pc, Some c => call pcs from (AddIceCandidate c)
  | _, _ => pcs
  end.

(** [socket.on('existing-voice-users')]:
    [users.forEach(user => createPeerConnection(user.socketId, false))].  At
    a [null] item [user.socketId] throws, which ends the [forEach] and the
    handler; the connections made for the items before it stay. *)
Fixpoint existing_voice_users (pcs : PeerConnections)
  (users : list (option SocketId)) : PeerConnections :=
  match users with
  | [] => pcs
  | Some socketId :: rest =>
      existing_voice_users (createPeerConnection pcs socketId false) rest
  | None :: _ => pcs
  end.

Definition handle (pcs : PeerConnections) (m : Msg) : PeerConnections :=
  match m with
  | UserJoinedVoice socketId => createPeerConnection pcs socketId true
  | ExistingVoiceUsers users => existing_voice_users pcs users
  | UserLeftVoice socketId => user_left_voice pcs socketId
  | Offer from o => offer pcs from o
  | Answer from a => answer pcs from a
  | IceCandidate from c => ice_candidate pcs from c
  | CallAccepted socketId => createPeerConnection pcs socketId true
  | CallEnded from => user_left_voice pcs from
  end.

Definition run (pcs : PeerConnections) (ms : list Msg) : PeerConnections :=
  fold_left handle ms pcs.

(** The candidates handed to [addIceCandidate] of the connection for a
    peer, and whether [setRemoteDescription] has been called on it. *)
Definition added (pc : PeerConnection) : list Payload :=
  flat_map (fun c => match c with AddIceCandidate p => [p] | _ => [] end)
           (calls pc).

Definition described (pc : PeerConnection) : bool :=
  existsb (fun c => match c with SetRemoteDescription _ => true | _ => false end)
          (calls pc).

Definition added_for (pcs : PeerConnections) (remote : SocketId)
  : list Payload :=
  match JsMap.get pcs remote with
  | Some pc => added pc
  | None => []
  end.

End Client.

(** ** Properties the theorems speak about *)

(** Every handle in a member set of [rooms] is a key of [users]. *)
Definition rooms_within_registry (st : State) : Prop :=
  forall channelName members h,
    In (channelName, members) (rooms st) -> In h members ->
    JsMap.has (users st) h = true.

(** Every value of [users] carries the key it is stored under. *)
Definition keyed (st : State) : Prop :=
  forall k u, In (k, u) (users st) -> socketId u = k.

(** The Socket.IO rooms a socket is in are the room of its own id and
    voice rooms. *)
Definition joined_ok (st : State) : Prop :=
  forall k sk,
    In (k, sk) (sockets st) ->
    forall r, In r (joined sk) -> r = k \/ exists c, r = voice_room c.

(** How the Socket.IO rooms of a socket and the table [rooms] fit: a socket
    whose transport is closed is in no Socket.IO room; a socket awaiting the
    offline update is closed; a socket that is in the Socket.IO room of a
    channel is a member of the channel in [rooms], and an open socket that
    is a member is in the Socket.IO room; an open socket is in the room of
    its own id.  (The cases [k = voice_room c] are those of a socket id that
    is also the name of a voice room.) *)
Definition socket_wired (r : JsMap.t JsSet.t) (k : SocketId) (sk : Socket)
  : Prop :=
  (connected sk = false -> joined sk = [])
  /\ (phase sk = AwaitOffline -> connected sk = false)
  /\ (forall c, In (voice_room c) (joined sk) ->
                In k (members_of r c) \/ k = voice_room c)
  /\ (forall c, connected sk = true -> In k (members_of r c) ->
                In (voice_room c) (joined sk))
  /\ (connected sk = true -> In k (joined sk) \/ exists c, k = voice_room c).

Definition wired (st : State) : Prop :=
  NoDup (JsMap.keys (sockets st))
  /\ (forall k sk,
        JsMap.get (sockets st) k = Some sk -> socket_wired (rooms st) k sk)
  /\ (forall c k,
        In k (members_of (rooms st) c) -> JsMap.has (sockets st) k = true).

(** Whether a string is the name of the Socket.IO room of some channel. *)
Definition names_voice_room (h : string) : bool :=
  match h with
  | String "v" (String "o" (String "i" (String "c" (String "e"
      (String "-" _))))) => true
  | _ => false
  end.

(** No user lookup of the connection callback is rejected. *)
Definition lookup_succeeds (ev : Event) : bool :=
  match ev with
  | EvFindById _ Rejected => false
  | _ => true
  end.

(** The user lookup of the connection callback of socket [s] is rejected. *)
Definition rejected_for (s : SocketId) (ev : Event) : bool :=
  match ev with
  | EvFindById s' Rejected => String.eqb s' s
  | _ => false
  end.

(** No lookup of socket [s] is rejected in the run. *)
Definition looked_up (evs : list Event) (s : SocketId) : bool :=
  forallb (fun ev => negb (rejected_for s ev)) evs.

Definition is_call_accepted (e : Emission) : bool :=
  match snd e with CallAccepted _ => true | _ => false end.

Definition is_call_ended (e : Emission) : bool :=
  match snd e with CallEnded _ => true | _ => false end.

(** Whether the socket is among those that receive the emission. *)
Definition reaches (st : State) (s : SocketId) (e : Emission) : bool :=
  existsb (String.eqb s) (recipients st (fst e)).

(** A relay request and the one message it is turned into. *)
Definition is_relay (m : ClientMsg) : bool :=
  match m with
  | Offer _ _ | Answer _ _ | IceCandidate _ _ => true
  | _ => false
  end.

Definition relayed (s : SocketId) (m : ClientMsg) : list Emission :=
  match m with
  | Offer to o => [ (InRoomExcept to s, OfferMsg o s) ]
  | Answer to a => [ (InRoomExcept to s, AnswerMsg a s) ]
  | IceCandidate to c => [ (InRoomExcept to s, IceCandidateMsg c s) ]
  | _ => []
  end.

(** ** Readings of the specification that the code does not follow *)

(** Once a call has been rejected, a later accept is not passed on. *)
Definition rejected_call_stays_rejected : Prop :=
  forall evs s to from,
    let st := fst (run init (evs ++ [EvClient s (RejectCall to)])) in
    existsb is_call_accepted (snd (step st (EvClient s (AcceptCall to from))))
    = false.

(** A relay request to a handle that is not registered makes the sender
    receive something. *)
Definition unknown_target_reported : Prop :=
  forall st s to o,
    is_connected st s = true -> phase_of st s = Some Listening ->
    JsMap.has (users st) to = false ->
    existsb (reaches st s) (snd (step st (EvClient s (Offer to o)))) = true.


(** A live registered connection of a user: its transport is open and
    [users] has an entry with the user's id for it. *)
Definition live (st : State) (to : UserId) (h : SocketId) : bool :=
  (is_connected st h
   && match JsMap.get (users st) h with
      | Some u => id_is to u
      | None => false
      end)%bool.

(** When a user has two live registered connections, a call to the user
    is received by one of the user's live registered connections. *)
Definition a_live_connection_is_rung : Prop :=
  forall evs s to type from h1 h2,
    let st := after evs in
    h1 <> h2 -> live st to h1 = true -> live st to h2 = true ->
    exists h,
      live st to h = true
      /\ existsb (reaches st h) (snd (initiate_call st s to type from)) = true.

(** The list sent to a joining socket names the other members of the room,
    in the order of the member set. *)
Definition list_names_the_other_members : Prop :=
  forall evs s c uid l,
    let st := after evs in
    In (Direct s, ExistingVoiceUsers l) (snd (join_voice_channel st s c uid)) ->
    map (option_map socketId) l
    = map Some (JsSet.delete (members_of (rooms st) c) s).

(** Every user list that is broadcast names every connection that is open
    and whose connection callback has finished. *)
Definition every_served_connection_is_listed : Prop :=
  forall evs ev t l h,
    let st' := fst (step (after evs) ev) in
    In (t, UserListUpdate l) (snd (step (after evs) ev)) ->
    is_connected st' h = true -> phase_of st' h = Some Listening ->
    exists u, In u l /\ socketId u = h.

(** Leaving a room as its last member removes the room from [rooms]. *)
Definition leave_prunes_empty_room : Prop :=
  forall st s channelName,
    let st' := fst (leave_voice_channel st s channelName) in
    members_of (rooms st') channelName = [] ->
    JsMap.has (rooms st') channelName = false.

(** A candidate that arrives before any remote description is not handed
    to the peer connection yet. *)
Definition candidate_waits_for_description : Prop :=
  forall pcs from c pc,
    JsMap.get pcs from = Some pc -> Client.described pc = false ->
    Client.added_for (Client.ice_candidate pcs from (Some c)) from
    = Client.added pc.

(** The phases in which the socket has an entry in [users].  A listening
    socket has one only as long as no lookup was rejected. *)
Definition registered_in (listening : bool) (p : Phase) : bool :=
  match p with
  | AwaitOnline | AwaitOffline => true
  | Listening => listening
  | AwaitFindById | Closed => false
  end.

Definition phase_inv (listening : bool) (st : State) : Prop :=
  forall s p,
    phase_of st s = Some p -> registered_in listening p = true ->
    JsMap.has (users st) s = true.

(** A socket with an entry in [users] is in one of the phases between the
    settling of its lookup and the end of its disconnect handler. *)
Definition listed_inv (st : State) : Prop :=
  forall s,
    JsMap.has (users st) s = true ->
    exists p, phase_of st s = Some p /\ registered_in true p = true.

(** One socket and the registry: the socket has an entry in [users] in the
    phases in which a socket whose lookup was not rejected has one, and
    whenever it is in a member set of [rooms]. *)
Definition own_inv (s : SocketId) (st : State) : Prop :=
  (forall p, phase_of st s = Some p -> registered_in true p = true ->
             JsMap.has (users st) s = true)
  /\ (forall channelName members,
        In (channelName, members) (rooms st) -> In s members ->
        JsMap.has (users st) s = true).

(** ** Concrete data for the examples *)

Definition alice : UserRow :=
  {| row_id := 1%Z; row_username := "alice"; row_avatar := None |}.

Definition bob : UserRow :=
  {| row_id := 2%Z; row_username := "bob"; row_avatar := Some "b.png" |}.

Definition as_caller (u : UserRow) : Caller :=
  {| from_id := row_id u; from_username := Some (row_username u) |}.

(** A connection that gets through both awaits of the callback. *)
Definition online (s : SocketId) (u : UserRow) : list Event :=
  [ EvConnection s (row_id u);
    EvFindById s (Resolved (Some u));
    EvUpdateStatus s true ].

(** Alice and Bob sit in two rooms and are in a call that Bob accepted. *)
Definition call_scenario : list Event :=
  online "a1" alice ++ online "b1" bob ++
  [ EvClient "a1" (JoinVoiceChannel "R1" 1%Z);
    EvClient "b1" (JoinVoiceChannel "R1" 2%Z);
    EvClient "a1" (JoinVoiceChannel "R2" 1%Z);
    EvClient "b1" (JoinVoiceChannel "R2" 2%Z);
    EvClient "a1" (InitiateCall 2%Z "video" (as_caller alice));
    EvClient "b1" (AcceptCall "a1" (as_caller bob)) ].

(** ** Further definitions *)

(** The socket an event belongs to. *)
Definition socket_of (ev : Event) : SocketId :=
  match ev with
  | EvConnection s _ | EvFindById s _ | EvUpdateStatus s _ | EvClient s _
  | EvSendDm s _ _ _ | EvDisconnect s => s
  end.

(** Whether a string has no space in it. *)
Fixpoint no_space (s : string) : bool :=
  match s with
  | EmptyString => true
  | String c s' => (negb (Ascii.eqb c " "%char) && no_space s')%bool
  end.

(** The items of a list of existing users up to its first [null]. *)
Fixpoint before_null (users : list (option SocketId)) : list SocketId :=
  match users with
  | Some socketId :: rest => socketId :: before_null rest
  | _ => []
  end.

(** What the client reads of the list of existing users the server sends. *)
Definition as_read (existingUsers : list (option Entry))
  : list (option SocketId) :=
  map (option_map socketId) existingUsers.

(** Whether a message to the client makes it forget the peer connection
    for a peer: user-left-voice and call-ended do. *)
Definition forgets (remote : SocketId) (m : Client.Msg) : bool :=
  match m with
  | Client.UserLeftVoice x | Client.CallEnded x => String.eqb x remote
  | _ => false
  end.

(** ** Chat messages: the server's send-message and the client's channels *)

Module Chat.

(** ['new-message'], as the server broadcasts it; the message has the
    fields of a direct message. *)
Inductive Broadcasted : Type :=
| NewMessage (channelId : Z) (message : DmMessage).

(** [socket.on('send-message')] of the server, from the point where its two
    awaits ([userDB.findById] and [messageDB.create]) have settled; before
    that point the handler reads and writes nothing of the tables.  A
    rejected await, or a user that was not found, lands in the [catch]. *)
Definition send_message (st : State) (s : SocketId) (channelId : Z)
  (text : string) (db : Settled (UserRow * Z))
  : State * list (Target * Broadcasted) :=
  match db with
  | Resolved (user, savedId) =>
      (st, [ (Broadcast,
              NewMessage channelId
                {| dm_id := savedId; dm_author := row_username user;
                   dm_avatar := avatar_or_initial user; dm_text := text |}) ])
  | Rejected => (st, [])
  end.

(** [getChannelIdByName] and [getChannelNameById] of the client *)
Definition getChannelIdByName (name : string) : Z :=
  if String.eqb name "general" then 1%Z else 2%Z.

Definition getChannelNameById (id : Z) : string :=
  if Z.eqb id 1 then "general" else "random".

(** [currentView] *)
Inductive View : Type := Friends | Server | Dm.

(** What the client keeps of the chat: [channels], [currentChannel],
    [currentView], and the messages put on the screen by [addMessageToUI]
    since the last cleaning of the message container. *)
Record Client : Type := {
  channels : JsMap.t (list DmMessage);
  currentChannel : string;
  currentView : View;
  shown : list DmMessage
}.

Definition is_server (v : View) : bool :=
  match v with Server => true | _ => false end.

(** [socket.on('new-message')] of the client (the desktop notification
    apart).  An array, also an empty one, is truthy, so [!channels[name]]
    holds exactly when the object has no such key. *)
Definition new_message (cl : Client) (channelId : Z) (message : DmMessage)
  : Client :=
  let channelName := getChannelNameById channelId in
  let channels1 :=
    if JsMap.has (channels cl) channelName then channels cl
    else JsMap.set (channels cl) channelName [] in
  let stored :=
    match JsMap.get channels1 channelName with
    | Some l => l
    | None => []
    end in
  {| channels := JsMap.set channels1 channelName (stored ++ [message]);
     currentChannel := currentChannel cl;
     currentView := currentView cl;
     shown :=
       if (String.eqb channelName (currentChannel cl)
           && is_server (currentView cl))%bool
       then shown cl ++ [message] else shown cl |}.

(** What [sendMessage] emits. *)
Inductive Request : Type :=
| SendDm (receiverId : UserId) (text : string)
| SendMessage (channelId : Z) (text : string).

(** [sendMessage] of the client, where [text] is the trimmed value of the
    input, [connected] is [socket && socket.connected], and
    [currentDMUserId] is absent when it is [null]. *)
Definition sendMessage (text : string) (connected : bool) (view : View)
  (currentDMUserId : option UserId) (channel : string) : list Request :=
  match text with
  | EmptyString => []
  | _ =>
      if connected then
        match view, currentDMUserId with
        | Dm, Some receiverId =>
            if Z.eqb receiverId 0 then [] else [ SendDm receiverId text ]
        | Server, _ => [ SendMessage (getChannelIdByName channel) text ]
        | _, _ => []
        end
      else []
  end.

End Chat.

(** ** HTTP side: the token middleware, the profile update, friend requests *)

Module Http.

(** [s.split(' ')]: the fields between single spaces. *)
Fixpoint split_space (s : string) : list string :=
  match s with
  | EmptyString => [EmptyString]
  | String c s' =>
      if Ascii.eqb c " "%char then EmptyString :: split_space s'
      else match split_space s' with
           | [] => [String c EmptyString]
           | field :: fields => String c field :: fields
           end
  end.

Inductive AuthResult (U : Type) : Type :=
| Unauthorized            (* status 401 *)
| Forbidden               (* status 403 *)
| Authenticated (user : U). (* req.user = user; next() *)
Arguments Unauthorized {U}.
Arguments Forbidden {U}.
Arguments Authenticated {U} user.

(** [authenticateToken].  [verify] stands for [jwt.verify] with the
    server's secret: the decoded user, or nothing when it reports an error.
    [authHeader] is absent when the request has no authorization header. *)
Definition authenticateToken {U : Type} (verify : string -> option U)
  (authHeader : option string) : AuthResult U :=
  let token :=
    match authHeader with
    | Some (String c h) => nth_error (split_space (String c h)) 1
    | _ => None
    end in
  match token with
  | Some (String c t) =>
      match verify (String c t) with
      | Some user => Authenticated user
      | None => Forbidden
      end
  | _ => Unauthorized
  end.

(** White space as [trim] sees it, among the code units below 256: tab,
    line feed, vertical tab, form feed, carriage return, space, no-break
    space.  A string is taken as its sequence of code units. *)
Definition is_space (c : ascii) : bool :=
  existsb (Nat.eqb (nat_of_ascii c)) [9; 10; 11; 12; 13; 32; 160].

Fixpoint trim_start (s : string) : string :=
  match s with
  | EmptyString => EmptyString
  | String c s' => if is_space c then trim_start s' else s
  end.

Fixpoint trim_end (s : string) : string :=
  match s with
  | EmptyString => EmptyString
  | String c s' =>
      match trim_end s' with
      | EmptyString => if is_space c then EmptyString else String c EmptyString
      | t => String c t
      end
  end.

(** [s.trim()] *)
Definition trim (s : string) : string := trim_end (trim_start s).

(** [parts.join(', ')] *)
Fixpoint join (parts : list string) : string :=
  match parts with
  | [] => EmptyString
  | [p] => p
  | p :: rest => String.append p (String.append ", " (join rest))
  end.

Inductive SqlParam : Type :=
| PText (s : string)
| PInt (n : Z).

(** A field of the JSON body of a request: absent, or a JSON value.  A
    number is taken to be an integer (a fraction is as any number other than
    zero here); arrays and objects are not looked into. *)
Inductive JsonValue : Type :=
| JAbsent
| JNull
| JBool (b : bool)
| JNumber (n : Z)
| JText (s : string)
| JArray
| JObject.

(** Whether a value counts as true in a condition. *)
Definition truthy_value (v : JsonValue) : bool :=
  match v with
  | JAbsent | JNull => false
  | JBool b => b
  | JNumber n => negb (Z.eqb n 0)
  | JText s => negb (String.eqb s EmptyString)
  | JArray | JObject => true
  end.

Inductive ProfileUpdate : Type :=
| ServerError                                       (* status 500 *)
| NothingToUpdate                                   (* status 400 *)
| RunSql (sql : string) (params : list SqlParam).   (* db.run(sql, params) *)

Definition statuses : list string :=
  [ "Online"; "Idle"; "Do Not Disturb"; "Invisible" ].

(** [app.put('/api/user/profile')], up to [db.run], for a body that is a
    JSON object.  [username.trim()] throws when [username] is not a string,
    which the [catch] of the route answers with status 500;
    [includes(status)] holds of no value that is not a string. *)
Definition update_profile (username status : JsonValue) (userId : UserId)
  : ProfileUpdate :=
  let updates := [] in
  let params := [] in
  let after_username :=
    if truthy_value username then
      match username with
      | JText u =>
          if Nat.leb 2 (String.length (trim u))
          then Some (updates ++ ["username = ?"], params ++ [PText (trim u)])
          else Some (updates, params)
      | _ => None
      end
    else Some (updates, params) in
  match after_username with
  | None => ServerError
  | Some (updates, params) =>
      let '(updates, params) :=
        if truthy_value status then
          match status with
          | JText t =>
              if existsb (String.eqb t) statuses
              then (updates ++ ["status = ?"], params ++ [PText t])
              else (updates, params)
          | _ => (updates, params)
          end
        else (updates, params) in
      match updates with
      | [] => NothingToUpdate
      | _ =>
          RunSql
            (String.append "UPDATE users SET "
               (String.append (join updates) " WHERE id = ?"))
            (params ++ [PInt userId])
      end
  end.

(** The number of [?] in a statement. *)
Fixpoint placeholders (sql : string) : nat :=
  match sql with
  | EmptyString => 0
  | String c sql' =>
      (if Ascii.eqb c "?"%char then 1 else 0) + placeholders sql'
  end.

Inductive Announcement : Type := NewFriendRequest.

(** [app.post('/api/friends/request')], from the point where
    [friendDB.sendRequest] has settled: [changes] is [result.changes].  The
    result is the HTTP status and what is emitted. *)
Definition friend_request (st : State) (friendId : UserId)
  (result : Settled Z) : Z * list (Target * Announcement) :=
  match result with
  | Resolved changes =>
      (200%Z,
       if Z.ltb 0 changes then
         match find (id_is friendId) (JsMap.values (users st)) with
         | Some receiverSocket =>
             [ (InRoom (socketId receiverSocket), NewFriendRequest) ]
         | None => []
         end
       else [])
  | Rejected => (500%Z, [])
  end.

End Http.

(** ** The client's call controls

    The variables of the client script that the voice and call functions
    read and write.  Of the local stream only the audio tracks are kept,
    each by its [enabled] flag; the page itself is kept only as far as the
    call window being hidden or not. *)

Module Ui.

Record t : Type := {
  inCall : bool;
  localAudio : option (list bool);   (* localStream; None when it is null *)
  screenStream : bool;               (* screenStream is not null *)
  links : Client.PeerConnections;    (* peerConnections *)
  currentChannel : string;
  online : bool;                     (* socket && socket.connected *)
  hidden : bool;                     (* the call window is hidden *)
  callDetails : bool;                (* window.currentCallDetails is set *)
  isVideoEnabled : bool;
  isAudioEnabled : bool;
  isMuted : bool;
  isDeafened : bool
}.

(** The state the script starts in. *)
Definition initial (connected : bool) : t :=
  {| inCall := false; localAudio := None; screenStream := false;
     links := []; currentChannel := "general"; online := connected;
     hidden := true; callDetails := false; isVideoEnabled := true;
     isAudioEnabled := true; isMuted := false; isDeafened := false |}.

(** [localStream.getAudioTracks().forEach(track => track.enabled = e)],
    under [if (localStream)] *)
Definition set_audio (e : bool) (audio : option (list bool))
  : option (list bool) :=
  option_map (map (fun _ => e)) audio.

(** The click handler of the mute button *)
Definition muteClick (ui : t) : t :=
  let muted := negb (isMuted ui) in
  {| inCall := inCall ui;
     localAudio := set_audio (negb muted) (localAudio ui);
     screenStream := screenStream ui; links := links ui;
     currentChannel := currentChannel ui; online := online ui;
     hidden := hidden ui; callDetails := callDetails ui;
     isVideoEnabled := isVideoEnabled ui; isAudioEnabled := isAudioEnabled ui;
     isMuted := muted; isDeafened := isDeafened ui |}.

(** The click handler of the deafen button (the volume of the remote
    videos apart) *)
Definition deafenClick (ui : t) : t :=
  let deafened := negb (isDeafened ui) in
  let muted := if deafened then true else isMuted ui in
  {| inCall := inCall ui;
     localAudio := set_audio (negb muted) (localAudio ui);
     screenStream := screenStream ui; links := links ui;
     currentChannel := currentChannel ui; online := online ui;
     hidden := hidden ui; callDetails := callDetails ui;
     isVideoEnabled := isVideoEnabled ui; isAudioEnabled := isAudioEnabled ui;
     isMuted := muted; isDeafened := deafened |}.

(** [toggleAudio] *)
Definition toggleAudio (ui : t) : t :=
  match localAudio ui with
  | None => ui
  | Some _ =>
      let enabled := negb (isAudioEnabled ui) in
      {| inCall := inCall ui;
         localAudio := set_audio enabled (localAudio ui);
         screenStream := screenStream ui; links := links ui;
         currentChannel := currentChannel ui; online := online ui;
         hidden := hidden ui; callDetails := callDetails ui;
         isVideoEnabled := isVideoEnabled ui; isAudioEnabled := enabled;
         isMuted := negb enabled; isDeafened := isDeafened ui |}
  end.

(** [switchChannel] *)
Definition switchChannel (ui : t) (channelName : string) : t :=
  {| inCall := inCall ui; localAudio := localAudio ui;
     screenStream := screenStream ui; links := links ui;
     currentChannel := channelName; online := online ui;
     hidden := hidden ui; callDetails := callDetails ui;
     isVideoEnabled := isVideoEnabled ui; isAudioEnabled := isAudioEnabled ui;
     isMuted := isMuted ui; isDeafened := isDeafened ui |}.

(** [leaveVoiceChannel(force)].  The result is the new state and what is
    sent to the server. *)
Definition leaveVoiceChannel (ui : t) (force : bool) : t * list ClientMsg :=
  if negb (inCall ui) then (ui, [])
  else if force then
    ({| inCall := false; localAudio := None; screenStream := false;
        links := []; currentChannel := currentChannel ui;
        online := online ui; hidden := true; callDetails := callDetails ui;
        isVideoEnabled := true; isAudioEnabled := true;
        isMuted := isMuted ui; isDeafened := isDeafened ui |},
     if online ui then [ LeaveVoiceChannel (currentChannel ui) ] else [])
  else
    ({| inCall := inCall ui; localAudio := localAudio ui;
        screenStream := screenStream ui; links := links ui;
        currentChannel := currentChannel ui; online := online ui;
        hidden := true; callDetails := callDetails ui;
        isVideoEnabled := isVideoEnabled ui;
        isAudioEnabled := isAudioEnabled ui;
        isMuted := isMuted ui; isDeafened := isDeafened ui |},
     []).

(** [joinVoiceChannel], up to [await initializeMedia()].  The flag tells
    whether the function goes on to acquire the media; when the client is
    in a call already it only shows the call window. *)
Definition joinVoiceChannel (ui : t) : t * bool :=
  ({| inCall := true; localAudio := localAudio ui;
      screenStream := screenStream ui; links := links ui;
      currentChannel := currentChannel ui; online := online ui;
      hidden := false; callDetails := callDetails ui;
      isVideoEnabled := isVideoEnabled ui; isAudioEnabled := isAudioEnabled ui;
      isMuted := isMuted ui; isDeafened := isDeafened ui |},
   negb (inCall ui)).

(** [initializeMedia] when [getUserMedia] has given a stream with [n] audio
    tracks: new tracks are enabled, and are switched off when the user is
    muted or deafened. *)
Definition initializeMedia (ui : t) (n : nat) : t :=
  {| inCall := inCall ui;
     localAudio := Some (repeat (negb (isMuted ui || isDeafened ui)) n);
     screenStream := screenStream ui; links := links ui;
     currentChannel := currentChannel ui; online := online ui;
     hidden := hidden ui; callDetails := callDetails ui;
     isVideoEnabled := isVideoEnabled ui; isAudioEnabled := isAudioEnabled ui;
     isMuted := isMuted ui; isDeafened := isDeafened ui |}.

(** The rest of [joinVoiceChannel]: [media] is the number of audio tracks
    of the stream, or nothing when [initializeMedia] has thrown. *)
Definition joinVoiceChannel_resume (ui : t) (channelName : string)
  (userId : UserId) (media : option nat) : t * list ClientMsg :=
  match media with
  | Some n =>
      (initializeMedia ui n,
       if online ui then [ JoinVoiceChannel channelName userId ] else [])
  | None => leaveVoiceChannel ui true
  end.

(** [initiateCall] after its [getUserMedia] has given a stream with [n]
    audio tracks ([user] is [currentUser]; a failure only shows an alert). *)
Definition initiateCall_resume (ui : t) (friendId : UserId) (type : string)
  (user : Caller) (n : nat) : t * list ClientMsg :=
  ({| inCall := true; localAudio := Some (repeat true n);
      screenStream := screenStream ui; links := links ui;
      currentChannel := currentChannel ui; online := online ui;
      hidden := false; callDetails := true;
      isVideoEnabled := String.eqb type "video"; isAudioEnabled := true;
      isMuted := isMuted ui; isDeafened := isDeafened ui |},
   if online ui then [ InitiateCall friendId type user ] else []).

(** [acceptCall] after its [getUserMedia] has given a stream with [n] audio
    tracks; [caller] is the socket id the incoming call came from. *)
Definition acceptCall_resume (ui : t) (caller : SocketId) (type : string)
  (user : Caller) (n : nat) : t * list ClientMsg :=
  ({| inCall := true; localAudio := Some (repeat true n);
      screenStream := screenStream ui;
      links := Client.createPeerConnection (links ui) caller false;
      currentChannel := currentChannel ui; online := online ui;
      hidden := false; callDetails := true;
      isVideoEnabled := String.eqb type "video"; isAudioEnabled := true;
      isMuted := isMuted ui; isDeafened := isDeafened ui |},
   if online ui then [ AcceptCall caller user ] else []).

(** The click handler of the close button of the call window:
    [Object.keys(peerConnections).forEach(socketId => ...)], then
    [leaveVoiceChannel(true)] *)
Definition closeCall (ui : t) : t * list ClientMsg :=
  let ended :=
    if (callDetails ui && online ui)%bool
    then map (fun socketId => EndCall (Some socketId))
             (Client.object_keys (links ui))
    else [] in
  let (ui', left) := leaveVoiceChannel ui true in
  (ui', ended ++ left).

(** [socket.on('call-ended')] *)
Definition call_ended (ui : t) (from : SocketId) : t * list ClientMsg :=
  let ui1 :=
    {| inCall := inCall ui; localAudio := localAudio ui;
       screenStream := screenStream ui;
       links := Client.user_left_voice (links ui) from;
       currentChannel := currentChannel ui; online := online ui;
       hidden := hidden ui; callDetails := callDetails ui;
       isVideoEnabled := isVideoEnabled ui;
       isAudioEnabled := isAudioEnabled ui;
       isMuted := isMuted ui; isDeafened := isDeafened ui |} in
  match links ui1 with
  | [] => leaveVoiceChannel ui1 true
  | _ => (ui1, [])
  end.

(** [socket.on('call-rejected')] *)
Definition call_rejected (ui : t) : t :=
  {| inCall := false; localAudio := None;
     screenStream := screenStream ui; links := links ui;
     currentChannel := currentChannel ui; online := online ui;
     hidden := true; callDetails := callDetails ui;
     isVideoEnabled := isVideoEnabled ui; isAudioEnabled := isAudioEnabled ui;
     isMuted := isMuted ui; isDeafened := isDeafened ui |}.

(** A click on a voice channel, through to the end of [joinVoiceChannel]
    with nothing happening in between. *)
Definition joinVoice (ui : t) (channelName : string) (userId : UserId)
  (media : option nat) : t * list ClientMsg :=
  let (ui1, goes_on) := joinVoiceChannel ui in
  if goes_on then joinVoiceChannel_resume ui1 channelName userId media
  else (ui1, []).

(** What the user, the browser and the server can make the client do.  The
    two halves of [joinVoiceChannel] are separate actions, so that other
    actions can come between them as they can while the browser asks for
    the microphone. *)
Inductive Action : Type :=
| MuteClick
| DeafenClick
| ToggleAudio
| SwitchChannel (channelName : string)
| VoiceClick
| VoiceMedia (channelName : string) (userId : UserId) (media : option nat)
| LeaveVoice (force : bool)
| CloseCall
| CallEnded (from : SocketId)
| CallRejected
| InitiateCall (friendId : UserId) (type : string) (user : Caller) (n : nat)
| AcceptCall (caller : SocketId) (type : string) (user : Caller) (n : nat).

Definition act (ui : t) (a : Action) : t * list ClientMsg :=
  match a with
  | MuteClick => (muteClick ui, [])
  | DeafenClick => (deafenClick ui, [])
  | ToggleAudio => (toggleAudio ui, [])
  | SwitchChannel channelName => (switchChannel ui channelName, [])
  | VoiceClick => (fst (joinVoiceChannel ui), [])
  | VoiceMedia channelName userId media =>
      joinVoiceChannel_resume ui channelName userId media
  | LeaveVoice force => leaveVoiceChannel ui force
  | CloseCall => closeCall ui
  | CallEnded from => call_ended ui from
  | CallRejected => (call_rejected ui, [])
  | InitiateCall friendId type user n =>
      initiateCall_resume ui friendId type user n
  | AcceptCall caller type user n => acceptCall_resume ui caller type user n
  end.

Fixpoint run (ui : t) (acts : list Action) : t * list ClientMsg :=
  match acts with
  | [] => (ui, [])
  | a :: acts' =>
      let (ui1, out1) := act ui a in
      let (ui2, out2) := run ui1 acts' in
      (ui2, out1 ++ out2)
  end.

(** Whether an action takes the media for a direct call. *)
Definition takes_call_media (a : Action) : bool :=
  match a with
  | InitiateCall _ _ _ _ | AcceptCall _ _ _ _ => true
  | _ => false
  end.

(** The microphone is off: every audio track of the local stream, if there
    is one, is disabled. *)
Definition mic_off (ui : t) : Prop :=
  forall tracks, localAudio ui = Some tracks -> Forall (eq false) tracks.

End Ui.

(** * Facts about [JsMap] and [JsSet] *)

Section JsMapFacts.
Context {V : Type}.
Implicit Types (m : JsMap.t V) (k : string) (v : V).

Lemma jsmap_get_set m k v k' :
  JsMap.get (JsMap.set m k v) k'
  = if String.eqb k k' then Some v else JsMap.get m k'.
Proof.
  induction m as [|[k0 v0] m IH]; simpl.
  - reflexivity.
  - destruct (String.eqb_spec k0 k) as [->|Hk0]; simpl.
    + destruct (String.eqb k k'); reflexivity.
    + rewrite IH.
      destruct (String.eqb_spec k0 k') as [->|Hk0'].
      * destruct (String.eqb_spec k k'); [congruence | reflexivity].
      * reflexivity.
Qed.

Lemma jsmap_get_set_same m k v : JsMap.get (JsMap.set m k v) k = Some v.
Proof. rewrite jsmap_get_set, String.eqb_refl. reflexivity. Qed.

Lemma jsmap_get_set_other m k v k' :
  k <> k' -> JsMap.get (JsMap.set m k v) k' = JsMap.get m k'.
Proof.
  intros Hk. rewrite jsmap_get_set.
  destruct (String.eqb_spec k k'); [contradiction | reflexivity].
Qed.

Lemma jsmap_has_set m k v k' :
  JsMap.has (JsMap.set m k v) k' = (String.eqb k k' || JsMap.has m k')%bool.
Proof.
  unfold JsMap.has. rewrite jsmap_get_set.
  destruct (String.eqb k k'); reflexivity.
Qed.

Lemma jsmap_set_get_id m k v : JsMap.get m k = Some v -> JsMap.set m k v = m.
Proof.
  induction m as [|[k0 v0] m IH]; simpl; intros H.
  - discriminate.
  - destruct (String.eqb k0 k).
    + congruence.
    + rewrite IH by assumption. reflexivity.
Qed.

Lemma jsmap_set_set m k v v' :
  JsMap.set (JsMap.set m k v) k v' = JsMap.set m k v'.
Proof.
  induction m as [|[k0 v0] m IH]; simpl.
  - rewrite String.eqb_refl. reflexivity.
  - destruct (String.eqb k0 k) eqn:E; simpl; rewrite E.
    + reflexivity.
    + rewrite IH. reflexivity.
Qed.

Lemma jsmap_get_In m k v : JsMap.get m k = Some v -> In (k, v) m.
Proof.
  induction m as [|[k0 v0] m IH]; simpl; intros H.
  - discriminate.
  - destruct (String.eqb_spec k0 k) as [->|].
    + left. congruence.
    + right. auto.
Qed.

Lemma jsmap_In_has m k v : In (k, v) m -> JsMap.has m k = true.
Proof.
  unfold JsMap.has.
  induction m as [|[k0 v0] m IH]; simpl; intros H.
  - contradiction.
  - destruct (String.eqb_spec k0 k) as [->|Hne]; [reflexivity|].
    destruct H as [H|H]; [congruence | auto].
Qed.

Lemma jsmap_In_set m k v k' v' :
  In (k', v') (JsMap.set m k v) -> (k' = k /\ v' = v) \/ In (k', v') m.
Proof.
  induction m as [|[k0 v0] m IH]; simpl.
  - intros [H|[]]. left. split; congruence.
  - destruct (String.eqb_spec k0 k) as [->|Hne]; simpl.
    + intros [H|H]; [left; split; congruence | right; right; exact H].
    + intros [H|H]; [right; left; exact H|].
      destruct (IH H) as [?|?]; [left; assumption | right; right; assumption].
Qed.

Lemma jsmap_In_delete m k k' v' :
  In (k', v') (JsMap.delete m k) <-> In (k', v') m /\ k' <> k.
Proof.
  unfold JsMap.delete. rewrite filter_In. simpl.
  rewrite negb_true_iff, String.eqb_neq. reflexivity.
Qed.

Lemma jsmap_get_delete m k k' :
  JsMap.get (JsMap.delete m k) k'
  = if String.eqb k k' then None else JsMap.get m k'.
Proof.
  unfold JsMap.delete.
  induction m as [|[k0 v0] m IH]; simpl.
  - destruct (String.eqb k k'); reflexivity.
  - destruct (String.eqb_spec k0 k) as [->|Hne]; simpl.
    + rewrite IH. destruct (String.eqb k k'); reflexivity.
    + rewrite IH.
      destruct (String.eqb_spec k0 k') as [->|Hne'].
      * destruct (String.eqb_spec k k'); [congruence | reflexivity].
      * reflexivity.
Qed.

Lemma jsmap_has_delete m k k' :
  JsMap.has (JsMap.delete m k) k'
  = (negb (String.eqb k k') && JsMap.has m k')%bool.
Proof.
  unfold JsMap.has. rewrite jsmap_get_delete.
  destruct (String.eqb k k'); reflexivity.
Qed.

Lemma jsmap_keys_set_present m k v :
  JsMap.has m k = true -> JsMap.keys (JsMap.set m k v) = JsMap.keys m.
Proof.
  unfold JsMap.has, JsMap.keys.
  induction m as [|[k0 v0] m IH]; simpl; intros H.
  - discriminate.
  - destruct (String.eqb k0 k); simpl; [reflexivity|].
    rewrite IH by assumption. reflexivity.
Qed.

Lemma jsmap_keys_set_absent m k v :
  JsMap.has m k = false ->
  JsMap.keys (JsMap.set m k v) = JsMap.keys m ++ [k].
Proof.
  unfold JsMap.has, JsMap.keys.
  induction m as [|[k0 v0] m IH]; simpl; intros H.
  - reflexivity.
  - destruct (String.eqb k0 k); simpl; [discriminate|].
    rewrite IH by assumption. reflexivity.
Qed.

Lemma jsmap_values_set_absent m k v :
  JsMap.has m k = false ->
  JsMap.values (JsMap.set m k v) = JsMap.values m ++ [v].
Proof.
  unfold JsMap.has, JsMap.values.
  induction m as [|[k0 v0] m IH]; simpl; intros H.
  - reflexivity.
  - destruct (String.eqb k0 k); simpl; [discriminate|].
    rewrite IH by assumption. reflexivity.
Qed.

Lemma jsmap_has_In_keys m k : JsMap.has m k = true <-> In k (JsMap.keys m).
Proof.
  unfold JsMap.has, JsMap.keys.
  induction m as [|[k0 v0] m IH]; simpl.
  - split; [discriminate | contradiction].
  - destruct (String.eqb_spec k0 k) as [->|Hne].
    + split; auto.
    + rewrite IH. split; [auto | intros [?|?]; [contradiction | assumption]].
Qed.

End JsMapFacts.

Lemma jsset_has_In (s : JsSet.t) x : JsSet.has s x = true <-> In x s.
Proof.
  unfold JsSet.has. rewrite existsb_exists. split.
  - intros [y [Hy E]]. apply String.eqb_eq in E. subst. assumption.
  - intros H. exists x. split; [assumption | apply String.eqb_refl].
Qed.

Lemma jsset_has_false (s : JsSet.t) x : JsSet.has s x = false <-> ~ In x s.
Proof.
  rewrite <- jsset_has_In. destruct (JsSet.has s x); split; congruence.
Qed.

Lemma jsset_In_add (s : JsSet.t) x y :
  In y (JsSet.add s x) <-> In y s \/ y = x.
Proof.
  unfold JsSet.add. destruct (JsSet.has s x) eqn:E.
  - apply jsset_has_In in E. split; [auto | intros [?| ->]; assumption].
  - rewrite in_app_iff. simpl. intuition.
Qed.

Lemma jsset_has_add (s : JsSet.t) x : JsSet.has (JsSet.add s x) x = true.
Proof. apply jsset_has_In, jsset_In_add. right. reflexivity. Qed.

Lemma jsset_add_idem (s : JsSet.t) x :
  JsSet.add (JsSet.add s x) x = JsSet.add s x.
Proof.
  unfold JsSet.add at 1. rewrite jsset_has_add. reflexivity.
Qed.

Lemma jsset_In_delete (s : JsSet.t) x y :
  In y (JsSet.delete s x) <-> In y s /\ y <> x.
Proof.
  unfold JsSet.delete. rewrite filter_In, negb_true_iff, String.eqb_neq.
  reflexivity.
Qed.

Lemma jsset_has_delete (s : JsSet.t) x : JsSet.has (JsSet.delete s x) x = false.
Proof.
  apply jsset_has_false. rewrite jsset_In_delete. intros [_ H]. congruence.
Qed.

Lemma jsset_delete_absent (s : JsSet.t) x :
  ~ In x s -> JsSet.delete s x = s.
Proof.
  unfold JsSet.delete. induction s as [|y s IH]; simpl; intros H.
  - reflexivity.
  - destruct (String.eqb_spec y x) as [->|Hne]; simpl.
    + exfalso. apply H. left. reflexivity.
    + rewrite IH; [reflexivity | intros ?; apply H; right; assumption].
Qed.

Lemma jsset_others_add (s : JsSet.t) x :
  JsSet.delete (JsSet.add s x) x = JsSet.delete s x.
Proof.
  unfold JsSet.add. destruct (JsSet.has s x); [reflexivity|].
  unfold JsSet.delete. rewrite filter_app. simpl.
  rewrite String.eqb_refl. simpl. apply app_nil_r.
Qed.

(** * Facts about the event loop *)

Lemma users_update_socket st s f : users (update_socket st s f) = users st.
Proof. unfold update_socket. destruct (JsMap.get (sockets st) s); reflexivity. Qed.

Lemma rooms_update_socket st s f : rooms (update_socket st s f) = rooms st.
Proof. unfold update_socket. destruct (JsMap.get (sockets st) s); reflexivity. Qed.

Lemma get_update_socket st s f s' :
  JsMap.get (sockets (update_socket st s f)) s'
  = if String.eqb s s' then option_map f (JsMap.get (sockets st) s)
    else JsMap.get (sockets st) s'.
Proof.
  unfold update_socket.
  destruct (JsMap.get (sockets st) s) as [sk|] eqn:E; simpl.
  - apply jsmap_get_set.
  - destruct (String.eqb_spec s s') as [<-|]; [assumption | reflexivity].
Qed.

Lemma run_app st evs1 evs2 :
  run st (evs1 ++ evs2)
  = (fst (run (fst (run st evs1)) evs2),
     snd (run st evs1) ++ snd (run (fst (run st evs1)) evs2)).
Proof.
  revert st. induction evs1 as [|ev evs1 IH]; intros st; simpl.
  - destruct (run st evs2); reflexivity.
  - destruct (step st ev) as [st1 out1]. rewrite IH.
    destruct (run st1 evs1) as [st2 out2]. simpl.
    rewrite app_assoc. reflexivity.
Qed.

Lemma run_cons st ev evs :
  run st (ev :: evs)
  = (fst (run (fst (step st ev)) evs),
     snd (step st ev) ++ snd (run (fst (step st ev)) evs)).
Proof.
  simpl. destruct (step st ev) as [st1 out1]. simpl.
  destruct (run st1 evs) as [st2 out2]. reflexivity.
Qed.

Lemma run_one st ev : run st [ev] = step st ev.
Proof.
  simpl. destruct (step st ev) as [st1 out1]. rewrite app_nil_r. reflexivity.
Qed.

Lemma after_snoc evs ev : after (evs ++ [ev]) = fst (step (after evs) ev).
Proof. unfold after. rewrite run_app, run_one. reflexivity. Qed.

(** A property that every allowed step keeps holds after every run of
    allowed events. *)
Lemma run_keeps (P : State -> Prop) (allowed : Event -> bool) :
  (forall st ev, allowed ev = true -> P st -> P (fst (step st ev))) ->
  forall evs st, forallb allowed evs = true -> P st -> P (fst (run st evs)).
Proof.
  intros Hstep evs. induction evs as [|ev evs IH]; intros st Hall HP; simpl.
  - assumption.
  - simpl in Hall. apply andb_true_iff in Hall. destruct Hall as [Hev Hall].
    specialize (Hstep st ev Hev HP).
    destruct (step st ev) as [st1 out1]. simpl in Hstep.
    specialize (IH st1 Hall Hstep).
    destruct (run st1 evs) as [st2 out2]. exact IH.
Qed.

Lemma users_handle st s m : users (fst (handle st s m)) = users st.
Proof.
  destruct m; simpl; try reflexivity.
  - unfold socket_join. apply users_update_socket.
  - unfold leave_voice_channel, socket_leave.
    rewrite rooms_update_socket.
    destruct (JsMap.has (rooms st) channelName); simpl;
      apply users_update_socket.
  - unfold initiate_call.
    destruct (find (id_is to) (JsMap.values (users st))); reflexivity.
  - unfold end_call. destruct (truthy to); reflexivity.
Qed.

Lemma send_dm_state st s receiverId text db :
  fst (send_dm st s receiverId text db) = st.
Proof.
  unfold send_dm. destruct db as [[sender savedId]|]; [|reflexivity].
  destruct (JsMap.get (sockets st) s); reflexivity.
Qed.

(** What one step can do to [users]: nothing, the [users.set] of the
    connection callback, or the [users.delete] of the disconnect handler. *)
Lemma step_users st ev :
  users (fst (step st ev)) = users st
  \/ (exists s row,
        users (fst (step st ev))
        = JsMap.set (users st) s {| entry_row := row; socketId := s |})
  \/ (exists s, users (fst (step st ev)) = JsMap.delete (users st) s).
Proof.
  destruct ev as [s uid|s r|s ok|s m|s receiverId text db|s]; simpl.
  - destruct (JsMap.has (sockets st) s); left; reflexivity.
  - destruct (phase_of st s) as [[]|]; try (left; reflexivity).
    destruct r as [row|]; simpl.
    + right. left. exists s, row. apply users_update_socket.
    + left. apply users_update_socket.
  - destruct (phase_of st s) as [[]|]; try (left; reflexivity); simpl.
    + left. apply users_update_socket.
    + right. right. exists s. apply users_update_socket.
  - destruct (is_connected st s); [|left; reflexivity].
    destruct (phase_of st s) as [[]|]; try (left; reflexivity).
    left. apply users_handle.
  - destruct (phase_of st s) as [[]|]; try (left; reflexivity);
      left; rewrite send_dm_state; reflexivity.
  - destruct (is_connected st s); [|left; reflexivity].
    destruct (phase_of st s) as [[]|]; simpl; left;
      unfold disconnect_begin, transport_close;
      rewrite ?users_update_socket;
      try (destruct (JsMap.get (users st) s));
      rewrite ?users_update_socket; reflexivity.
Qed.

Lemma step_keeps_keyed st ev : keyed st -> keyed (fst (step st ev)).
Proof.
  unfold keyed. intros Hk k u Hin.
  destruct (step_users st ev) as [E|[[s [row E]]|[s E]]]; rewrite E in Hin.
  - eauto.
  - apply jsmap_In_set in Hin. destruct Hin as [[-> ->]|Hin]; [reflexivity | eauto].
  - apply jsmap_In_delete in Hin. destruct Hin as [Hin _]. eauto.
Qed.

Lemma reachable_keyed evs : keyed (after evs).
Proof.
  unfold after. apply (run_keeps keyed (fun _ => true)).
  - intros st ev _. apply step_keeps_keyed.
  - apply forallb_forall. reflexivity.
  - intros k u [].
Qed.

(** ** Phases and the registry *)

Lemma phase_of_update_socket st s f s' :
  phase_of (update_socket st s f) s'
  = if String.eqb s s'
    then option_map (fun sk => phase (f sk)) (JsMap.get (sockets st) s)
    else phase_of st s'.
Proof.
  unfold phase_of. rewrite get_update_socket.
  destruct (String.eqb s s'); [|reflexivity].
  destruct (JsMap.get (sockets st) s); reflexivity.
Qed.

Lemma phase_of_set_phase st s p s' :
  phase_of (update_socket st s (set_phase p)) s'
  = if String.eqb s s'
    then match phase_of st s with Some _ => Some p | None => None end
    else phase_of st s'.
Proof.
  rewrite phase_of_update_socket. unfold phase_of.
  destruct (String.eqb s s'); [|reflexivity].
  destruct (JsMap.get (sockets st) s); reflexivity.
Qed.

Lemma phase_of_keep st s f s' :
  (forall sk, phase (f sk) = phase sk) ->
  phase_of (update_socket st s f) s' = phase_of st s'.
Proof.
  intros Hf. rewrite phase_of_update_socket.
  destruct (String.eqb_spec s s') as [<-|]; [|reflexivity].
  unfold phase_of. destruct (JsMap.get (sockets st) s); simpl; [|reflexivity].
  rewrite Hf. reflexivity.
Qed.

Lemma is_connected_keep st s f s' :
  (forall sk, connected (f sk) = connected sk) ->
  is_connected (update_socket st s f) s' = is_connected st s'.
Proof.
  intros Hf. unfold is_connected. rewrite get_update_socket.
  destruct (String.eqb_spec s s') as [<-|]; [|reflexivity].
  destruct (JsMap.get (sockets st) s); simpl; [apply Hf | reflexivity].
Qed.

Lemma sockets_handle st s m :
  sockets (fst (handle st s m)) = sockets st
  \/ exists j,
       sockets (fst (handle st s m))
       = sockets (update_socket st s (set_joined j)).
Proof.
  destruct m; simpl; try (left; reflexivity).
  - right. unfold socket_join, update_socket.
    destruct (JsMap.get (sockets st) s) as [sk|] eqn:E.
    + exists (JsSet.add (joined sk) (voice_room channelName)). reflexivity.
    + exists []. reflexivity.
  - right. unfold leave_voice_channel, socket_leave.
    rewrite rooms_update_socket.
    assert (H : exists j,
      sockets (update_socket st s
        (fun sk => set_joined (JsSet.delete (joined sk) (voice_room channelName)) sk))
      = sockets (update_socket st s (set_joined j))).
    { unfold update_socket.
      destruct (JsMap.get (sockets st) s) as [sk|] eqn:E.
      - exists (JsSet.delete (joined sk) (voice_room channelName)). reflexivity.
      - exists []. reflexivity. }
    destruct H as [j Hj]. exists j.
    destruct (JsMap.has (rooms st) channelName); simpl; exact Hj.
  - unfold initiate_call.
    destruct (find (id_is to) (JsMap.values (users st))); left; reflexivity.
  - unfold end_call. destruct (truthy to); left; reflexivity.
Qed.

Lemma phase_of_handle st s m s' :
  phase_of (fst (handle st s m)) s' = phase_of st s'.
Proof.
  destruct (sockets_handle st s m) as [E|[j E]].
  - unfold phase_of. rewrite E. reflexivity.
  - unfold phase_of at 1. rewrite E.
    apply (phase_of_keep st s (set_joined j)). reflexivity.
Qed.

Lemma is_connected_handle st s m s' :
  is_connected (fst (handle st s m)) s' = is_connected st s'.
Proof.
  destruct (sockets_handle st s m) as [E|[j E]].
  - unfold is_connected. rewrite E. reflexivity.
  - unfold is_connected at 1. rewrite E.
    apply (is_connected_keep st s (set_joined j)). reflexivity.
Qed.

Lemma phase_of_has st s p : phase_of st s = Some p -> JsMap.has (sockets st) s = true.
Proof.
  unfold phase_of, JsMap.has.
  destruct (JsMap.get (sockets st) s); [reflexivity | discriminate].
Qed.

Lemma step_keeps_phase_inv b st ev :
  (b = true -> lookup_succeeds ev = true) ->
  phase_inv b st -> phase_inv b (fst (step st ev)).
Proof.
  unfold phase_inv. intros Hb Inv s' p.
  destruct ev as [s uid|s r|s ok|s m|s receiverId text db|s]; simpl.
  - destruct (JsMap.has (sockets st) s) eqn:Hs; simpl; [apply Inv|].
    unfold phase_of. simpl. rewrite jsmap_get_set.
    destruct (String.eqb_spec s s') as [<-|Hne]; simpl.
    + intros [= <-]. discriminate.
    + apply Inv.
  - destruct (phase_of st s) as [ps|] eqn:Hps; [|apply Inv].
    destruct ps; try apply Inv.
    destruct r as [row|]; simpl.
    + rewrite users_update_socket, phase_of_set_phase. simpl.
      rewrite jsmap_has_set.
      destruct (String.eqb_spec s s') as [<-|Hne]; simpl; [reflexivity|].
      apply Inv.
    + rewrite users_update_socket, phase_of_set_phase. rewrite Hps.
      destruct (String.eqb_spec s s') as [<-|Hne]; [|apply Inv].
      intros [= <-]. simpl. intros ->.
      specialize (Hb eq_refl). discriminate.
  - destruct (phase_of st s) as [ps|] eqn:Hps; [|apply Inv].
    destruct ps; try apply Inv; simpl.
    + rewrite users_update_socket, phase_of_set_phase, Hps.
      destruct (String.eqb_spec s s') as [<-|Hne]; [|apply Inv].
      intros _ _. apply (Inv s AwaitOnline Hps). reflexivity.
    + rewrite users_update_socket, phase_of_set_phase. simpl.
      rewrite jsmap_has_delete.
      destruct (String.eqb_spec s s') as [<-|Hne]; simpl.
      * unfold phase_of at 1. simpl. fold (phase_of st s). rewrite Hps.
        intros [= <-]. discriminate.
      * unfold phase_of. simpl. apply Inv.
  - destruct (is_connected st s); [|apply Inv].
    destruct (phase_of st s) as [ps|] eqn:Hps; [|apply Inv].
    destruct ps; try apply Inv.
    rewrite phase_of_handle, users_handle. apply Inv.
  - destruct (phase_of st s) as [[]|]; try apply Inv;
      rewrite send_dm_state; apply Inv.
  - destruct (is_connected st s); [|apply Inv].
    assert (Hclose : forall x, phase_of (transport_close st s) x = phase_of st x).
    { intros x. unfold transport_close. apply phase_of_keep. reflexivity. }
    assert (Husers : users (transport_close st s) = users st)
      by apply users_update_socket.
    destruct (phase_of st s) as [ps|] eqn:Hps; simpl;
      [|rewrite Hclose, Husers; apply Inv].
    destruct ps; simpl; try (rewrite Hclose, Husers; apply Inv).
    unfold disconnect_begin. rewrite Husers.
    destruct (JsMap.get (users st) s) as [u|] eqn:Hu;
      rewrite users_update_socket, Husers, phase_of_set_phase, !Hclose, Hps;
      (destruct (String.eqb_spec s s') as [<-|Hne]; [|apply Inv]).
    + intros _ _. unfold JsMap.has. rewrite Hu. reflexivity.
    + intros [= <-]. discriminate.
Qed.

(** ** Rooms and the registry *)

Lemma remove_from_rooms_delete r s :
  remove_from_rooms r s = map (fun rm => (fst rm, JsSet.delete (snd rm) s)) r.
Proof.
  unfold remove_from_rooms. apply map_ext. intros [roomName members]. simpl.
  destruct (JsSet.has members s) eqn:E; [reflexivity|].
  apply jsset_has_false in E. rewrite jsset_delete_absent by assumption.
  reflexivity.
Qed.

Lemma In_remove_from_rooms r s c m' :
  In (c, m') (remove_from_rooms r s) ->
  exists m, In (c, m) r /\ m' = JsSet.delete m s.
Proof.
  rewrite remove_from_rooms_delete, in_map_iff.
  intros [[c0 m0] [E Hin]]. simpl in E. inversion E; subst.
  exists m0. split; [assumption | reflexivity].
Qed.

Lemma members_of_In r c h :
  In h (members_of r c) -> exists m, In (c, m) r /\ In h m.
Proof.
  unfold members_of. destruct (JsMap.get r c) as [m|] eqn:E; [|contradiction].
  intros H. exists m. split; [apply jsmap_get_In; assumption | assumption].
Qed.

Lemma reachable_phase_inv evs : phase_inv false (after evs).
Proof.
  unfold after. apply (run_keeps (phase_inv false) (fun _ => true)).
  - intros st ev _. apply step_keeps_phase_inv. discriminate.
  - apply forallb_forall. reflexivity.
  - intros s p H. discriminate.
Qed.

(** ** One socket and the registry *)

Lemma handle_keeps_own_rooms s st s0 m :
  (s0 = s -> JsMap.has (users st) s = true) ->
  (forall c members, In (c, members) (rooms st) -> In s members ->
                     JsMap.has (users st) s = true) ->
  forall c members,
    In (c, members) (rooms (fst (handle st s0 m))) -> In s members ->
    JsMap.has (users (fst (handle st s0 m))) s = true.
Proof.
  intros Hown Inv. rewrite users_handle.
  destruct m; simpl; try exact Inv.
  - (* join-voice-channel *)
    unfold socket_join. rewrite rooms_update_socket.
    intros c members Hin Hs.
    assert (Hold : forall c0 m0,
              In (c0, m0) (if JsMap.has (rooms st) channelName then rooms st
                           else JsMap.set (rooms st) channelName []) ->
              In s m0 -> JsMap.has (users st) s = true).
    { intros c0 m0 Hin0 Hs0.
      destruct (JsMap.has (rooms st) channelName); [eapply Inv; eassumption|].
      apply jsmap_In_set in Hin0. destruct Hin0 as [[_ ->]|Hin0];
        [contradiction | eapply Inv; eassumption]. }
    apply jsmap_In_set in Hin. destruct Hin as [[-> ->]|Hin];
      [|eapply Hold; eassumption].
    apply jsset_In_add in Hs. destruct Hs as [Hs|Hs];
      [|apply Hown; symmetry; exact Hs].
    apply members_of_In in Hs. destruct Hs as [m0 [Hin0 Hs0]].
    eapply Hold; eassumption.
  - (* leave-voice-channel *)
    unfold leave_voice_channel, socket_leave. rewrite rooms_update_socket.
    destruct (JsMap.has (rooms st) channelName); simpl.
    + intros c members Hin Hs.
      apply jsmap_In_set in Hin. destruct Hin as [[-> ->]|Hin];
        [|eapply Inv; eassumption].
      apply jsset_In_delete in Hs. destruct Hs as [Hs _].
      apply members_of_In in Hs. destruct Hs as [m0 [Hin0 Hs0]].
      eapply Inv; eassumption.
    + rewrite rooms_update_socket. exact Inv.
  - unfold initiate_call.
    destruct (find (id_is to) (JsMap.values (users st))); exact Inv.
  - unfold end_call. destruct (truthy to); exact Inv.
Qed.

Lemma step_keeps_own_inv s st ev :
  rejected_for s ev = false -> own_inv s st -> own_inv s (fst (step st ev)).
Proof.
  intros Hev [Hph Hrooms]. split.
  - (* the phases *)
    intros p.
    destruct ev as [s0 uid|s0 r|s0 ok|s0 m|s0 receiverId text db|s0]; simpl.
    + destruct (JsMap.has (sockets st) s0) eqn:Hs; simpl; [apply Hph|].
      unfold phase_of. simpl. rewrite jsmap_get_set.
      destruct (String.eqb_spec s0 s) as [->|Hne]; simpl.
      * intros [= <-]. discriminate.
      * apply Hph.
    + destruct (phase_of st s0) as [ps|] eqn:Hps; [|apply Hph].
      destruct ps; try apply Hph.
      destruct r as [row|]; simpl.
      * rewrite users_update_socket, phase_of_set_phase. simpl.
        rewrite jsmap_has_set.
        destruct (String.eqb_spec s0 s) as [->|Hne]; simpl; [reflexivity|].
        apply Hph.
      * rewrite users_update_socket, phase_of_set_phase.
        destruct (String.eqb_spec s0 s) as [->|Hne]; [|apply Hph].
        simpl in Hev. rewrite String.eqb_refl in Hev. discriminate.
    + destruct (phase_of st s0) as [ps|] eqn:Hps; [|apply Hph].
      destruct ps; try apply Hph; simpl.
      * rewrite users_update_socket, phase_of_set_phase, Hps.
        destruct (String.eqb_spec s0 s) as [->|Hne]; [|apply Hph].
        intros _ _. apply (Hph AwaitOnline Hps). reflexivity.
      * rewrite users_update_socket, phase_of_set_phase. simpl.
        rewrite jsmap_has_delete.
        destruct (String.eqb_spec s0 s) as [->|Hne]; simpl.
        -- unfold phase_of at 1. simpl. fold (phase_of st s). rewrite Hps.
           intros [= <-]. discriminate.
        -- unfold phase_of. simpl. apply Hph.
    + destruct (is_connected st s0); [|apply Hph].
      destruct (phase_of st s0) as [ps|] eqn:Hps; [|apply Hph].
      destruct ps; try apply Hph.
      rewrite phase_of_handle, users_handle. apply Hph.
    + destruct (phase_of st s0) as [[]|]; try apply Hph;
        rewrite send_dm_state; apply Hph.
    + destruct (is_connected st s0); [|apply Hph].
      assert (Hclose : forall x,
                phase_of (transport_close st s0) x = phase_of st x).
      { intros x. unfold transport_close. apply phase_of_keep. reflexivity. }
      assert (Husers : users (transport_close st s0) = users st)
        by apply users_update_socket.
      destruct (phase_of st s0) as [ps|] eqn:Hps; simpl;
        [|rewrite Hclose, Husers; apply Hph].
      destruct ps; simpl; try (rewrite Hclose, Husers; apply Hph).
      unfold disconnect_begin. rewrite Husers.
      destruct (JsMap.get (users st) s0) as [u|] eqn:Hu;
        rewrite users_update_socket, Husers, phase_of_set_phase, !Hclose, Hps;
        (destruct (String.eqb_spec s0 s) as [->|Hne]; [|apply Hph]).
      * intros _ _. unfold JsMap.has. rewrite Hu. reflexivity.
      * intros [= <-]. discriminate.
  - (* the rooms *)
    destruct ev as [s0 uid|s0 r|s0 ok|s0 m|s0 receiverId text db|s0]; simpl.
    + destruct (JsMap.has (sockets st) s0); exact Hrooms.
    + destruct (phase_of st s0) as [[]|]; try exact Hrooms.
      destruct r as [row|]; simpl;
        rewrite users_update_socket, rooms_update_socket; simpl.
      * intros c m Hin Hs. rewrite jsmap_has_set, (Hrooms c m Hin Hs).
        apply orb_true_r.
      * exact Hrooms.
    + destruct (phase_of st s0) as [[]|]; try exact Hrooms; simpl;
        rewrite users_update_socket, rooms_update_socket; simpl;
        [exact Hrooms|].
      intros c m' Hin Hs.
      apply In_remove_from_rooms in Hin. destruct Hin as [m [Hin ->]].
      apply jsset_In_delete in Hs. destruct Hs as [Hs Hne].
      rewrite jsmap_has_delete, (Hrooms c m Hin Hs).
      destruct (String.eqb_spec s0 s); [congruence | reflexivity].
    + destruct (is_connected st s0); [|exact Hrooms].
      destruct (phase_of st s0) as [ps|] eqn:Hps; [|exact Hrooms].
      destruct ps; try exact Hrooms.
      apply handle_keeps_own_rooms; [|exact Hrooms].
      intros ->. apply (Hph Listening Hps). reflexivity.
    + destruct (phase_of st s0) as [[]|]; try exact Hrooms;
        rewrite send_dm_state; exact Hrooms.
    + destruct (is_connected st s0); [|exact Hrooms].
      destruct (phase_of st s0) as [[]|]; simpl;
        unfold disconnect_begin, transport_close;
        rewrite ?users_update_socket, ?rooms_update_socket;
        try (destruct (JsMap.get (users st) s0));
        rewrite ?users_update_socket, ?rooms_update_socket; exact Hrooms.
Qed.

Lemma reachable_own_inv evs s :
  looked_up evs s = true -> own_inv s (after evs).
Proof.
  intros H. unfold after.
  apply (run_keeps (own_inv s) (fun ev => negb (rejected_for s ev))).
  - intros st ev Hev. apply step_keeps_own_inv.
    apply negb_true_iff. exact Hev.
  - exact H.
  - split.
    + intros p Hp. discriminate.
    + intros c m [].
Qed.

Lemma looked_up_when_lookups_succeed evs s :
  forallb lookup_succeeds evs = true -> looked_up evs s = true.
Proof.
  unfold looked_up. intros H. apply forallb_forall. intros ev Hin.
  rewrite forallb_forall in H. specialize (H ev Hin).
  destruct ev as [| s0 [row|] | | | |]; try reflexivity. discriminate.
Qed.

(** ** The states after a join and a leave *)

Lemma members_of_set r c m : members_of (JsMap.set r c m) c = m.
Proof. unfold members_of. rewrite jsmap_get_set_same. reflexivity. Qed.

Lemma members_of_absent r c : JsMap.has r c = false -> members_of r c = [].
Proof.
  unfold JsMap.has, members_of.
  destruct (JsMap.get r c); [discriminate | reflexivity].
Qed.

Lemma socket_join_idem st s room :
  socket_join (socket_join st s room) s room = socket_join st s room.
Proof.
  unfold socket_join, update_socket.
  destruct (JsMap.get (sockets st) s) as [sk|] eqn:E; simpl.
  - rewrite jsmap_get_set_same, jsmap_set_set. unfold set_joined. simpl.
    rewrite jsset_add_idem. reflexivity.
  - rewrite E. reflexivity.
Qed.

Lemma rooms_socket_join st s room : rooms (socket_join st s room) = rooms st.
Proof. apply rooms_update_socket. Qed.

Lemma users_socket_join st s room : users (socket_join st s room) = users st.
Proof. apply users_update_socket. Qed.

Lemma socket_join_set_rooms st r s room :
  socket_join (set_rooms st r) s room = set_rooms (socket_join st s room) r.
Proof.
  unfold socket_join, update_socket, set_rooms. simpl.
  destruct (JsMap.get (sockets st) s); reflexivity.
Qed.

Lemma join_voice_channel_state st s c uid :
  fst (join_voice_channel st s c uid)
  = set_rooms (socket_join st s (voice_room c))
      (JsMap.set
         (if JsMap.has (rooms st) c then rooms st else JsMap.set (rooms st) c [])
         c (JsSet.add (members_of (rooms st) c) s)).
Proof.
  unfold join_voice_channel. simpl. rewrite !rooms_socket_join.
  destruct (JsMap.has (rooms st) c) eqn:E; [reflexivity|].
  rewrite members_of_set, (members_of_absent _ _ E). reflexivity.
Qed.

Lemma join_voice_channel_emits st s c uid :
  snd (join_voice_channel st s c uid)
  = [ (InRoomExcept (voice_room c) s, UserJoinedVoice uid s);
      (Direct s,
       ExistingVoiceUsers
         (map (JsMap.get (users st))
              (JsSet.delete (members_of (rooms st) c) s))) ].
Proof.
  unfold join_voice_channel. simpl.
  rewrite !rooms_socket_join, users_socket_join.
  replace (members_of
             (if JsMap.has (rooms st) c then rooms st
              else JsMap.set (rooms st) c []) c)
    with (members_of (rooms st) c).
  - fold (JsSet.delete (JsSet.add (members_of (rooms st) c) s) s).
    rewrite jsset_others_add. reflexivity.
  - destruct (JsMap.has (rooms st) c) eqn:E; [reflexivity|].
    rewrite members_of_set, (members_of_absent _ _ E). reflexivity.
Qed.

Lemma leave_voice_channel_rooms st s c :
  rooms (fst (leave_voice_channel st s c))
  = if JsMap.has (rooms st) c
    then JsMap.set (rooms st) c (JsSet.delete (members_of (rooms st) c) s)
    else rooms st.
Proof.
  unfold leave_voice_channel, socket_leave. rewrite rooms_update_socket.
  destruct (JsMap.has (rooms st) c); simpl;
    [reflexivity | apply rooms_update_socket].
Qed.

(** ** Socket.IO rooms *)

Lemma joined_ok_ext st st' :
  sockets st' = sockets st -> joined_ok st -> joined_ok st'.
Proof. unfold joined_ok. intros E H. rewrite E. exact H. Qed.

Lemma update_socket_keeps_joined_ok st s f :
  (forall sk r, In r (joined (f sk)) ->
                In r (joined sk) \/ exists c, r = voice_room c) ->
  joined_ok st -> joined_ok (update_socket st s f).
Proof.
  unfold joined_ok, update_socket. intros Hf Inv.
  destruct (JsMap.get (sockets st) s) as [sk|] eqn:E; [|exact Inv].
  simpl. intros k sk' Hin r Hr.
  apply jsmap_In_set in Hin. destruct Hin as [[-> ->]|Hin].
  - destruct (Hf sk r Hr) as [Hr'|Hr']; [|right; exact Hr'].
    apply (Inv s sk (jsmap_get_In _ _ _ E) r Hr').
  - apply (Inv k sk' Hin r Hr).
Qed.

Lemma set_phase_keeps_joined_ok st s p :
  joined_ok st -> joined_ok (update_socket st s (set_phase p)).
Proof. apply update_socket_keeps_joined_ok. intros sk r H. left. exact H. Qed.

Lemma handle_keeps_joined_ok st s m :
  joined_ok st -> joined_ok (fst (handle st s m)).
Proof.
  intros Inv. destruct m; simpl; try exact Inv.
  - apply (joined_ok_ext (socket_join st s (voice_room channelName)));
      [reflexivity|].
    apply update_socket_keeps_joined_ok; [|exact Inv].
    intros sk r Hr. simpl in Hr. apply jsset_In_add in Hr.
    destruct Hr as [Hr| ->]; [left; exact Hr | right; eauto].
  - apply (joined_ok_ext (socket_leave st s (voice_room channelName))).
    + unfold leave_voice_channel.
      destruct (JsMap.has _ channelName); reflexivity.
    + apply update_socket_keeps_joined_ok; [|exact Inv].
      intros sk r Hr. simpl in Hr. apply jsset_In_delete in Hr.
      left. tauto.
  - unfold initiate_call.
    destruct (find (id_is to) (JsMap.values (users st))); exact Inv.
  - unfold end_call. destruct (truthy to); exact Inv.
Qed.

Lemma step_keeps_joined_ok st ev : joined_ok st -> joined_ok (fst (step st ev)).
Proof.
  intros Inv.
  destruct ev as [s uid|s r|s ok|s m|s receiverId text db|s]; simpl.
  - destruct (JsMap.has (sockets st) s); [exact Inv|].
    unfold joined_ok. simpl. intros k sk Hin r0 Hr.
    apply jsmap_In_set in Hin. destruct Hin as [[-> ->]|Hin].
    + simpl in Hr. destruct Hr as [<-|[]]. left. reflexivity.
    + apply (Inv k sk Hin r0 Hr).
  - destruct (phase_of st s) as [[]|]; try exact Inv.
    destruct r as [row|]; simpl; apply set_phase_keeps_joined_ok;
      [eapply joined_ok_ext; [|exact Inv]; reflexivity | exact Inv].
  - destruct (phase_of st s) as [[]|]; try exact Inv; simpl;
      apply set_phase_keeps_joined_ok;
      [exact Inv | eapply joined_ok_ext; [|exact Inv]; reflexivity].
  - destruct (is_connected st s); [|exact Inv].
    destruct (phase_of st s) as [[]|]; try exact Inv.
    apply handle_keeps_joined_ok. exact Inv.
  - destruct (phase_of st s) as [[]|]; try exact Inv;
      rewrite send_dm_state; exact Inv.
  - destruct (is_connected st s); [|exact Inv].
    assert (Hclose : joined_ok (transport_close st s)).
    { apply update_socket_keeps_joined_ok; [|exact Inv].
      intros sk r []. }
    destruct (phase_of st s) as [[]|]; simpl; try exact Hclose.
    unfold disconnect_begin.
    destruct (JsMap.get (users (transport_close st s)) s);
      apply set_phase_keeps_joined_ok; exact Hclose.
Qed.

Lemma reachable_joined_ok evs : joined_ok (after evs).
Proof.
  unfold after. apply (run_keeps joined_ok (fun _ => true)).
  - intros st ev _. apply step_keeps_joined_ok.
  - apply forallb_forall. reflexivity.
  - intros k sk [].
Qed.

(** ** Socket.IO rooms and the table of rooms *)

Lemma voice_room_inj c c' : voice_room c = voice_room c' -> c = c'.
Proof. unfold voice_room. simpl. intros H. injection H. auto. Qed.

Lemma socket_wired_rooms_ext r r' k sk :
  (forall c, In k (members_of r' c) <-> In k (members_of r c)) ->
  socket_wired r k sk -> socket_wired r' k sk.
Proof.
  intros E [H1 [H2 [H3 [H4 H5]]]].
  split; [exact H1|]. split; [exact H2|]. split; [|split; [|exact H5]].
  - intros c Hc. destruct (H3 c Hc) as [H|H]; [left; apply E; exact H | right; exact H].
  - intros c Hcon Hm. apply H4; [exact Hcon | apply E; exact Hm].
Qed.

Lemma wired_set st u r' s sk sk' :
  wired st ->
  JsMap.get (sockets st) s = Some sk ->
  socket_wired r' s sk' ->
  (forall k sk0, k <> s -> JsMap.get (sockets st) k = Some sk0 ->
                 socket_wired r' k sk0) ->
  (forall c k, In k (members_of r' c) -> JsMap.has (sockets st) k = true) ->
  wired {| users := u; rooms := r'; sockets := JsMap.set (sockets st) s sk' |}.
Proof.
  intros [Hnd [Hw Hm]] Hs Hs' Hothers Hm'.
  assert (Hhas : JsMap.has (sockets st) s = true).
  { unfold JsMap.has. rewrite Hs. reflexivity. }
  split; [|split]; simpl.
  - rewrite jsmap_keys_set_present by exact Hhas. exact Hnd.
  - intros k sk0. rewrite jsmap_get_set.
    destruct (String.eqb_spec s k) as [<-|Hne].
    + intros [= <-]. exact Hs'.
    + intros Hk. apply Hothers; [congruence | exact Hk].
  - intros c k Hk. rewrite jsmap_has_set, (Hm' c k Hk). apply orb_true_r.
Qed.

(** A change of one socket that leaves [rooms] alone. *)
Lemma wired_update_socket st s f :
  wired st ->
  (forall sk, JsMap.get (sockets st) s = Some sk ->
              socket_wired (rooms st) s (f sk)) ->
  wired (update_socket st s f).
Proof.
  intros Hw Hf. unfold update_socket.
  destruct (JsMap.get (sockets st) s) as [sk|] eqn:E; [|exact Hw].
  apply (wired_set st (users st) (rooms st) s sk (f sk) Hw E (Hf sk eq_refl)).
  - intros k sk0 _ Hk. apply (proj1 (proj2 Hw) k sk0 Hk).
  - apply (proj2 (proj2 Hw)).
Qed.

Lemma wired_ext st st' :
  rooms st' = rooms st -> sockets st' = sockets st -> wired st -> wired st'.
Proof. unfold wired. intros -> ->. auto. Qed.

Lemma wired_set_phase st s p :
  p <> AwaitOffline -> wired st -> wired (update_socket st s (set_phase p)).
Proof.
  intros Hp Hw. apply wired_update_socket; [exact Hw|].
  intros sk Hsk. destruct (proj1 (proj2 Hw) s sk Hsk) as [H1 [H2 [H3 [H4 H5]]]].
  unfold socket_wired. simpl. repeat split; try assumption.
  intros ->. contradiction.
Qed.

Lemma members_of_ensure r c :
  members_of (if JsMap.has r c then r else JsMap.set r c []) c = members_of r c.
Proof.
  destruct (JsMap.has r c) eqn:E; [reflexivity|].
  rewrite members_of_set, (members_of_absent _ _ E). reflexivity.
Qed.

Lemma members_of_set_other r c m c' :
  c <> c' -> members_of (JsMap.set r c m) c' = members_of r c'.
Proof. intros H. unfold members_of. rewrite jsmap_get_set_other by exact H. reflexivity. Qed.

(** The member sets after a join, a leave and the removal on disconnect. *)
Lemma members_of_join r ch s c :
  members_of
    (JsMap.set (if JsMap.has r ch then r else JsMap.set r ch []) ch
       (JsSet.add (members_of r ch) s)) c
  = if String.eqb ch c then JsSet.add (members_of r ch) s else members_of r c.
Proof.
  destruct (String.eqb_spec ch c) as [<-|Hne].
  - apply members_of_set.
  - rewrite members_of_set_other by exact Hne.
    destruct (JsMap.has r ch); [reflexivity|].
    apply members_of_set_other. exact Hne.
Qed.

Lemma members_of_leave r ch s c :
  members_of
    (if JsMap.has r ch
     then JsMap.set r ch (JsSet.delete (members_of r ch) s) else r) c
  = if String.eqb ch c then JsSet.delete (members_of r ch) s else members_of r c.
Proof.
  destruct (JsMap.has r ch) eqn:E.
  - destruct (String.eqb_spec ch c) as [<-|Hne].
    + apply members_of_set.
    + apply members_of_set_other. exact Hne.
  - destruct (String.eqb_spec ch c) as [<-|Hne]; [|reflexivity].
    rewrite (members_of_absent _ _ E). reflexivity.
Qed.

Lemma members_of_remove r s c :
  members_of (remove_from_rooms r s) c = JsSet.delete (members_of r c) s.
Proof.
  rewrite remove_from_rooms_delete. unfold members_of.
  induction r as [|[c0 m0] r IH]; simpl.
  - reflexivity.
  - destruct (String.eqb c0 c); [reflexivity | exact IH].
Qed.

Lemma is_connected_get st s :
  is_connected st s = true ->
  exists sk, JsMap.get (sockets st) s = Some sk /\ connected sk = true.
Proof.
  unfold is_connected. destruct (JsMap.get (sockets st) s) as [sk|];
    [|discriminate].
  intros H. exists sk. auto.
Qed.

Lemma leave_voice_channel_state st s c :
  fst (leave_voice_channel st s c)
  = set_rooms (socket_leave st s (voice_room c))
      (if JsMap.has (rooms st) c
       then JsMap.set (rooms st) c (JsSet.delete (members_of (rooms st) c) s)
       else rooms st).
Proof.
  unfold leave_voice_channel, socket_leave. rewrite rooms_update_socket.
  destruct (JsMap.has (rooms st) c); simpl; [reflexivity|].
  unfold set_rooms. rewrite <- (rooms_update_socket st s
    (fun sk => set_joined (JsSet.delete (joined sk) (voice_room c)) sk)).
  destruct (update_socket st s _). reflexivity.
Qed.

Lemma join_keeps_wired st s ch uid :
  is_connected st s = true -> wired st ->
  wired (fst (join_voice_channel st s ch uid)).
Proof.
  intros Hc Hw. destruct (is_connected_get st s Hc) as [sk [Hsk Hcon]].
  rewrite (join_voice_channel_state st s ch uid).
  unfold socket_join, update_socket, set_rooms. rewrite Hsk. simpl.
  destruct (proj1 (proj2 Hw) s sk Hsk) as [H1 [H2 [H3 [H4 H5]]]].
  apply (wired_set st _ _ s sk _ Hw Hsk).
  - unfold socket_wired. simpl. split; [congruence|]. split; [exact H2|].
    split; [|split].
    + intros c Hin. rewrite members_of_join.
      destruct (String.eqb_spec ch c) as [<-|Hne].
      * left. apply jsset_In_add. right. reflexivity.
      * apply jsset_In_add in Hin. destruct Hin as [Hin|E].
        -- apply H3. exact Hin.
        -- apply voice_room_inj in E. congruence.
    + intros c _. rewrite members_of_join.
      destruct (String.eqb_spec ch c) as [<-|Hne]; intros Hin.
      * apply jsset_In_add. right. reflexivity.
      * apply jsset_In_add. left. apply H4; assumption.
    + intros _. destruct (H5 Hcon) as [H|H]; [|right; exact H].
      left. apply jsset_In_add. left. exact H.
  - intros k sk0 Hne Hk.
    apply (socket_wired_rooms_ext (rooms st)); [|apply (proj1 (proj2 Hw) k sk0 Hk)].
    intros c. rewrite members_of_join.
    destruct (String.eqb_spec ch c) as [<-|_]; [|reflexivity].
    rewrite jsset_In_add. tauto.
  - intros c k. rewrite members_of_join.
    destruct (String.eqb_spec ch c) as [<-|_]; [|apply (proj2 (proj2 Hw))].
    rewrite jsset_In_add. intros [Hin| ->].
    + apply (proj2 (proj2 Hw) ch k Hin).
    + unfold JsMap.has. rewrite Hsk. reflexivity.
Qed.

Lemma leave_keeps_wired st s ch :
  is_connected st s = true -> wired st ->
  wired (fst (leave_voice_channel st s ch)).
Proof.
  intros Hc Hw. destruct (is_connected_get st s Hc) as [sk [Hsk Hcon]].
  rewrite leave_voice_channel_state.
  unfold socket_leave, update_socket, set_rooms. rewrite Hsk. simpl.
  destruct (proj1 (proj2 Hw) s sk Hsk) as [H1 [H2 [H3 [H4 H5]]]].
  apply (wired_set st _ _ s sk _ Hw Hsk).
  - unfold socket_wired. simpl. split; [congruence|]. split; [exact H2|].
    split; [|split].
    + intros c Hin. apply jsset_In_delete in Hin. destruct Hin as [Hin Hne].
      rewrite members_of_leave.
      destruct (String.eqb_spec ch c) as [<-|_]; [congruence|].
      apply H3. exact Hin.
    + intros c _. rewrite members_of_leave.
      destruct (String.eqb_spec ch c) as [<-|Hne]; intros Hin.
      * apply jsset_In_delete in Hin. tauto.
      * apply jsset_In_delete. split; [apply H4; assumption|].
        intros E. apply voice_room_inj in E. congruence.
    + intros _. destruct (H5 Hcon) as [H|H]; [|right; exact H].
      destruct (String.eqb_spec s (voice_room ch)) as [E|Hne].
      * right. exists ch. exact E.
      * left. apply jsset_In_delete. auto.
  - intros k sk0 Hne Hk.
    apply (socket_wired_rooms_ext (rooms st)); [|apply (proj1 (proj2 Hw) k sk0 Hk)].
    intros c. rewrite members_of_leave.
    destruct (String.eqb_spec ch c) as [<-|_]; [|reflexivity].
    rewrite jsset_In_delete. tauto.
  - intros c k. rewrite members_of_leave.
    destruct (String.eqb_spec ch c) as [<-|_]; [|apply (proj2 (proj2 Hw))].
    rewrite jsset_In_delete. intros [Hin _].
    apply (proj2 (proj2 Hw) ch k Hin).
Qed.

Lemma handle_keeps_wired st s m :
  is_connected st s = true -> wired st -> wired (fst (handle st s m)).
Proof.
  intros Hc Hw. destruct m; cbn [handle]; try exact Hw.
  - apply join_keeps_wired; assumption.
  - apply leave_keeps_wired; assumption.
  - unfold initiate_call.
    destruct (find (id_is to) (JsMap.values (users st))); exact Hw.
  - unfold end_call. destruct (truthy to); exact Hw.
Qed.

Lemma connection_begin_keeps_wired st s uid :
  JsMap.has (sockets st) s = false -> wired st ->
  wired (connection_begin st s uid).
Proof.
  intros Hfresh [Hnd [Hw Hm]]. unfold connection_begin.
  split; [|split]; simpl.
  - rewrite jsmap_keys_set_absent by exact Hfresh.
    apply NoDup_app; [exact Hnd | repeat constructor; intros [] |].
    intros k Hk [<-|[]]. apply jsmap_has_In_keys in Hk. congruence.
  - intros k sk. rewrite jsmap_get_set.
    destruct (String.eqb_spec s k) as [<-|Hne]; [|apply Hw].
    intros [= <-]. unfold socket_wired. simpl.
    split; [discriminate|]. split; [discriminate|]. split; [|split].
    + intros c [E|[]]. right. congruence.
    + intros c _ Hin. apply Hm in Hin. congruence.
    + intros _. left. left. reflexivity.
  - intros c k Hin. rewrite jsmap_has_set, (Hm c k Hin). apply orb_true_r.
Qed.

Lemma transport_close_keeps_wired st s :
  wired st -> wired (transport_close st s).
Proof.
  intros Hw. apply wired_update_socket; [exact Hw|].
  intros sk _. unfold socket_wired. simpl.
  split; [reflexivity|]. split; [reflexivity|].
  split; [intros c []|]. split; [discriminate | discriminate].
Qed.

Lemma disconnect_begin_keeps_wired st s :
  is_connected st s = false -> wired st -> wired (disconnect_begin st s).
Proof.
  intros Hc Hw. unfold disconnect_begin.
  destruct (JsMap.get (users st) s);
    [|apply wired_set_phase; [discriminate | exact Hw]].
  apply wired_update_socket; [exact Hw|].
  intros sk Hsk. unfold is_connected in Hc. rewrite Hsk in Hc.
  destruct (proj1 (proj2 Hw) s sk Hsk) as [H1 [H2 [H3 [H4 H5]]]].
  unfold socket_wired. simpl.
  split; [exact H1|]. split; [intros _; exact Hc|].
  split; [exact H3|]. split; [exact H4 | exact H5].
Qed.

Lemma is_connected_transport_close st s :
  is_connected (transport_close st s) s = false.
Proof.
  unfold is_connected, transport_close. rewrite get_update_socket, String.eqb_refl.
  destruct (JsMap.get (sockets st) s); reflexivity.
Qed.

Lemma disconnect_finish_keeps_wired st s :
  phase_of st s = Some AwaitOffline -> wired st ->
  wired (fst (disconnect_after_updateStatus st s)).
Proof.
  intros Hp Hw. unfold disconnect_after_updateStatus, update_socket. simpl.
  unfold phase_of in Hp.
  destruct (JsMap.get (sockets st) s) as [sk|] eqn:Hsk; [|discriminate].
  simpl in Hp. injection Hp as Hp.
  destruct (proj1 (proj2 Hw) s sk Hsk) as [H1 [H2 [H3 [H4 H5]]]].
  specialize (H2 Hp). specialize (H1 H2).
  apply (wired_set st _ _ s sk _ Hw Hsk).
  - unfold socket_wired. simpl. rewrite H1, H2.
    split; [reflexivity|]. split; [discriminate|].
    split; [intros c []|]. split; [discriminate | discriminate].
  - intros k sk0 Hne Hk.
    apply (socket_wired_rooms_ext (rooms st)); [|apply (proj1 (proj2 Hw) k sk0 Hk)].
    intros c. rewrite members_of_remove, jsset_In_delete. tauto.
  - intros c k. rewrite members_of_remove, jsset_In_delete. intros [Hin _].
    apply (proj2 (proj2 Hw) c k Hin).
Qed.

Lemma step_keeps_wired st ev : wired st -> wired (fst (step st ev)).
Proof.
  intros Hw.
  destruct ev as [s uid|s r|s ok|s m|s receiverId text db|s]; simpl.
  - destruct (JsMap.has (sockets st) s) eqn:E; [exact Hw|].
    apply connection_begin_keeps_wired; assumption.
  - destruct (phase_of st s) as [[]|]; try exact Hw.
    destruct r as [row|]; simpl; apply wired_set_phase; try discriminate;
      [eapply wired_ext; [| |exact Hw]; reflexivity | exact Hw].
  - destruct (phase_of st s) as [[]|] eqn:Hp; try exact Hw.
    + simpl. apply wired_set_phase; [discriminate | exact Hw].
    + apply disconnect_finish_keeps_wired; assumption.
  - destruct (is_connected st s) eqn:Hc; [|exact Hw].
    destruct (phase_of st s) as [[]|]; try exact Hw.
    apply handle_keeps_wired; assumption.
  - destruct (phase_of st s) as [[]|]; try exact Hw;
      rewrite send_dm_state; exact Hw.
  - destruct (is_connected st s); [|exact Hw].
    destruct (phase_of st s) as [[]|]; simpl;
      try (apply transport_close_keeps_wired; exact Hw).
    apply disconnect_begin_keeps_wired;
      [apply is_connected_transport_close
      | apply transport_close_keeps_wired; exact Hw].
Qed.

Lemma reachable_wired evs : wired (after evs).
Proof.
  unfold after. apply (run_keeps wired (fun _ => true)).
  - intros st ev _. apply step_keeps_wired.
  - apply forallb_forall. reflexivity.
  - split; [constructor|]. split.
    + intros k sk H. discriminate.
    + intros c k [].
Qed.

(** ** Who receives *)

Lemma jsmap_In_get_nodup {V : Type} (m : JsMap.t V) k v :
  NoDup (JsMap.keys m) -> In (k, v) m -> JsMap.get m k = Some v.
Proof.
  unfold JsMap.keys. induction m as [|[k0 v0] m IH]; simpl; intros Hnd Hin.
  - contradiction.
  - inversion Hnd as [|? ? Hnotin Hnd']; subst.
    destruct Hin as [E|Hin].
    + inversion E; subst. rewrite String.eqb_refl. reflexivity.
    + destruct (String.eqb_spec k0 k) as [->|_]; [|auto].
      exfalso. apply Hnotin. apply in_map_iff. exists (k, v). auto.
Qed.

Lemma In_recipients_room st room k :
  NoDup (JsMap.keys (sockets st)) ->
  (In k (recipients st (InRoom room))
   <-> exists sk, JsMap.get (sockets st) k = Some sk
                  /\ connected sk = true /\ In room (joined sk)).
Proof.
  intros Hnd. simpl. unfold JsMap.keys. rewrite in_map_iff. split.
  - intros [[k' sk] [E Hin]]. simpl in E. subst k'.
    apply filter_In in Hin. destruct Hin as [Hin Hroom].
    unfold in_room in Hroom. simpl in Hroom.
    apply andb_true_iff in Hroom. destruct Hroom as [Hcon Hroom].
    exists sk. split; [apply jsmap_In_get_nodup; assumption|].
    split; [exact Hcon | apply jsset_has_In; exact Hroom].
  - intros [sk [Hget [Hcon Hroom]]]. exists (k, sk). split; [reflexivity|].
    apply filter_In. split; [apply jsmap_get_In; exact Hget|].
    unfold in_room. simpl. rewrite Hcon. apply jsset_has_In. exact Hroom.
Qed.

Lemma In_recipients_except st room s k :
  In k (recipients st (InRoomExcept room s))
  <-> In k (recipients st (InRoom room)) /\ k <> s.
Proof.
  simpl. unfold JsMap.keys. rewrite !in_map_iff. split.
  - intros [[k' sk] [E Hin]]. simpl in E. subst k'.
    apply filter_In in Hin. destruct Hin as [Hin Hb]. simpl in Hb.
    apply andb_true_iff in Hb. destruct Hb as [Hroom Hne].
    apply negb_true_iff, String.eqb_neq in Hne. split; [|exact Hne].
    exists (k, sk). split; [reflexivity|]. apply filter_In. auto.
  - intros [[[k' sk] [E Hin]] Hne]. simpl in E. subst k'.
    apply filter_In in Hin. destruct Hin as [Hin Hroom].
    exists (k, sk). split; [reflexivity|]. apply filter_In.
    split; [exact Hin|]. apply andb_true_iff. split; [exact Hroom|].
    apply negb_true_iff, String.eqb_neq. exact Hne.
Qed.

Lemma names_voice_room_false h :
  names_voice_room h = false -> forall c, h <> voice_room c.
Proof.
  intros H c ->. unfold names_voice_room, voice_room in H. simpl in H.
  discriminate.
Qed.

(** The sockets that receive a message addressed to the Socket.IO room of a
    channel are open sockets that are members of the channel, and every
    open member is among them. *)
Lemma recipients_of_voice_room st c k :
  wired st ->
  (In k (recipients st (InRoom (voice_room c))) ->
   is_connected st k = true
   /\ (In k (members_of (rooms st) c) \/ k = voice_room c))
  /\ (In k (members_of (rooms st) c) -> is_connected st k = true ->
      In k (recipients st (InRoom (voice_room c)))).
Proof.
  intros [Hnd [Hw Hm]]. rewrite (In_recipients_room st _ k Hnd). split.
  - intros [sk [Hget [Hcon Hin]]].
    destruct (Hw k sk Hget) as [_ [_ [H3 _]]].
    unfold is_connected. rewrite Hget. auto.
  - intros Hin Hcon. unfold is_connected in Hcon.
    destruct (JsMap.get (sockets st) k) as [sk|] eqn:Hget; [|discriminate].
    destruct (Hw k sk Hget) as [_ [_ [_ [H4 _]]]].
    exists sk. auto.
Qed.

(** A message addressed to the room named by a socket id is received by
    that socket, if it is open, and by no other. *)
Lemma recipients_of_socket_room st h k :
  wired st -> joined_ok st -> names_voice_room h = false ->
  (In k (recipients st (InRoom h)) <-> k = h /\ is_connected st h = true).
Proof.
  intros [Hnd [Hw Hm]] Hj Hplain.
  pose proof (names_voice_room_false h Hplain) as Hne.
  rewrite (In_recipients_room st _ k Hnd). split.
  - intros [sk [Hget [Hcon Hin]]].
    destruct (Hj k sk (jsmap_get_In _ _ _ Hget) h Hin) as [->|[c E]].
    + split; [reflexivity|]. unfold is_connected. rewrite Hget. exact Hcon.
    + exfalso. apply (Hne c E).
  - intros [-> Hcon]. unfold is_connected in Hcon.
    destruct (JsMap.get (sockets st) h) as [sk|] eqn:Hget; [|discriminate].
    destruct (Hw h sk Hget) as [_ [_ [_ [_ H5]]]].
    exists sk. split; [reflexivity|]. split; [exact Hcon|].
    destruct (H5 Hcon) as [H|[c E]]; [exact H|].
    exfalso. apply (Hne c E).
Qed.

Lemma recipients_except_voice_room st c s k :
  wired st -> names_voice_room k = false ->
  (In k (recipients st (InRoomExcept (voice_room c) s))
   <-> k <> s /\ is_connected st k = true
       /\ In k (members_of (rooms st) c)).
Proof.
  intros Hw Hplain. rewrite In_recipients_except.
  pose proof (names_voice_room_false k Hplain c) as Hne.
  destruct (recipients_of_voice_room st c k Hw) as [Hto Hfrom]. split.
  - intros [Hin Hks]. destruct (Hto Hin) as [Hcon [Hm|E]];
      [auto | contradiction].
  - intros [Hks [Hcon Hm]]. auto.
Qed.

Lemma names_voice_room_true h :
  names_voice_room h = true -> exists c, h = voice_room c.
Proof.
  unfold names_voice_room, voice_room.
  destruct h as [|a1 [|a2 [|a3 [|a4 [|a5 [|a6 rest]]]]]]; try discriminate;
    try (destruct a1 as [[] [] [] [] [] [] [] []]; discriminate).
  - destruct a1 as [[] [] [] [] [] [] [] []]; try discriminate.
    destruct a2 as [[] [] [] [] [] [] [] []]; discriminate.
  - destruct a1 as [[] [] [] [] [] [] [] []]; try discriminate.
    destruct a2 as [[] [] [] [] [] [] [] []]; try discriminate.
    destruct a3 as [[] [] [] [] [] [] [] []]; discriminate.
  - destruct a1 as [[] [] [] [] [] [] [] []]; try discriminate.
    destruct a2 as [[] [] [] [] [] [] [] []]; try discriminate.
    destruct a3 as [[] [] [] [] [] [] [] []]; try discriminate.
    destruct a4 as [[] [] [] [] [] [] [] []]; discriminate.
  - destruct a1 as [[] [] [] [] [] [] [] []]; try discriminate.
    destruct a2 as [[] [] [] [] [] [] [] []]; try discriminate.
    destruct a3 as [[] [] [] [] [] [] [] []]; try discriminate.
    destruct a4 as [[] [] [] [] [] [] [] []]; try discriminate.
    destruct a5 as [[] [] [] [] [] [] [] []]; discriminate.
  - destruct a1 as [[] [] [] [] [] [] [] []]; try discriminate.
    destruct a2 as [[] [] [] [] [] [] [] []]; try discriminate.
    destruct a3 as [[] [] [] [] [] [] [] []]; try discriminate.
    destruct a4 as [[] [] [] [] [] [] [] []]; try discriminate.
    destruct a5 as [[] [] [] [] [] [] [] []]; try discriminate.
    destruct a6 as [[] [] [] [] [] [] [] []]; try discriminate.
    intros _. exists rest. reflexivity.
Qed.

Lemma nil_when_nothing_in {A : Type} (l : list A) :
  (forall x, ~ In x l) -> l = [].
Proof.
  destruct l as [|a l]; [reflexivity|].
  intros H. exfalso. apply (H a). left. reflexivity.
Qed.

(** * The online list *)

Lemma left_notifications_only_left r s t x :
  In (t, x) (left_notifications r s) ->
  exists c m, In (c, m) r /\ In s m /\ t = InRoom (voice_room c)
              /\ x = UserLeftVoice s.
Proof.
  unfold left_notifications. rewrite in_flat_map.
  intros [[c m] [Hin He]].
  destruct (JsSet.has m s) eqn:Hs; [|contradiction].
  destruct He as [He|[]]. inversion He; subst.
  exists c, m. apply jsset_has_In in Hs. auto.
Qed.

Lemma handle_emits_no_list st s m t l :
  ~ In (t, UserListUpdate l) (snd (handle st s m)).
Proof.
  destruct m; simpl;
    try (intros [H|[H|[]]]; discriminate);
    try (intros [H|[]]; discriminate).
  - unfold leave_voice_channel.
    destruct (JsMap.has _ _); simpl; [intros [H|[]]; discriminate | tauto].
  - unfold initiate_call.
    destruct (find _ _); simpl; intros [H|[]]; discriminate.
  - unfold end_call.
    destruct (truthy to); simpl; [intros [H|[]]; discriminate | tauto].
Qed.

Lemma send_dm_emits_no_list st s receiverId text db t l :
  ~ In (t, UserListUpdate l) (snd (send_dm st s receiverId text db)).
Proof.
  unfold send_dm. destruct db as [[sender savedId]|]; [|simpl; tauto].
  destruct (JsMap.get (sockets st) s); [|simpl; tauto].
  simpl. destruct (find _ _); simpl.
  - intros [H|[H|[]]]; discriminate.
  - intros [H|[]]; discriminate.
Qed.

(** Every user list a step emits is a broadcast of the values of [users]
    as the step leaves them. *)
Lemma step_list_is_users st ev t l :
  In (t, UserListUpdate l) (snd (step st ev)) ->
  t = Broadcast /\ l = JsMap.values (users (fst (step st ev))).
Proof.
  destruct ev as [s uid|s r|s ok|s m|s receiverId text db|s]; simpl.
  - destruct (JsMap.has (sockets st) s); simpl; tauto.
  - destruct (phase_of st s) as [[]|]; simpl; try tauto.
    destruct r; simpl; tauto.
  - destruct (phase_of st s) as [[]|]; simpl; try tauto.
    + rewrite users_update_socket.
      destruct ok; simpl; [|tauto].
      intros [H|[]]. inversion H. auto.
    + rewrite users_update_socket. simpl. rewrite in_app_iff.
      intros [H|[H|[]]].
      * apply left_notifications_only_left in H.
        destruct H as [c [m [_ [_ [_ H]]]]]. discriminate.
      * inversion H. auto.
  - destruct (is_connected st s); simpl; [|tauto].
    destruct (phase_of st s) as [[]|]; simpl; try tauto.
    intros H. exfalso. revert H. apply handle_emits_no_list.
  - destruct (phase_of st s) as [[]|]; simpl; try tauto;
      intros H; exfalso; revert H; apply send_dm_emits_no_list.
  - destruct (is_connected st s); simpl; [|tauto].
    destruct (phase_of st s) as [[]|]; simpl; tauto.
Qed.

Lemma keyed_values_iff st :
  keyed st ->
  forall h,
    (exists u, In u (JsMap.values (users st)) /\ socketId u = h)
    <-> JsMap.has (users st) h = true.
Proof.
  intros Hk h. unfold JsMap.values. split.
  - intros [u [Hin Hu]]. apply in_map_iff in Hin.
    destruct Hin as [[k u'] [E Hin]]. simpl in E. subst u'.
    rewrite (Hk k u Hin) in Hu. subst. eapply jsmap_In_has. eassumption.
  - unfold JsMap.has. destruct (JsMap.get (users st) h) as [u|] eqn:E;
      [|discriminate].
    intros _. apply jsmap_get_In in E. exists u. split.
    + apply in_map_iff. exists (h, u). auto.
    + apply (Hk h u E).
Qed.

Lemma step_keeps_listed_inv st ev :
  listed_inv st -> listed_inv (fst (step st ev)).
Proof.
  unfold listed_inv. intros Inv s'.
  destruct ev as [s uid|s r|s ok|s m|s receiverId text db|s]; simpl.
  - destruct (JsMap.has (sockets st) s) eqn:Hs; simpl; [apply Inv|].
    intros H. destruct (Inv s' H) as [p [Hp Hr]].
    unfold phase_of. simpl. rewrite jsmap_get_set.
    destruct (String.eqb_spec s s') as [->|Hne].
    + apply phase_of_has in Hp. congruence.
    + exists p. auto.
  - destruct (phase_of st s) as [ps|] eqn:Hps; [|apply Inv].
    destruct ps; try apply Inv.
    destruct r as [row|]; simpl;
      rewrite users_update_socket, phase_of_set_phase.
    + change (phase_of
                (set_users st
                   (JsMap.set (users st) s
                      {| entry_row := row; socketId := s |})) s)
        with (phase_of st s).
      rewrite Hps. simpl. rewrite jsmap_has_set.
      destruct (String.eqb_spec s s') as [->|Hne]; simpl; [|apply Inv].
      intros _. exists AwaitOnline. auto.
    + rewrite Hps.
      destruct (String.eqb_spec s s') as [->|Hne]; [|apply Inv].
      intros _. exists Listening. auto.
  - destruct (phase_of st s) as [ps|] eqn:Hps; [|apply Inv].
    destruct ps; try apply Inv; simpl.
    + rewrite users_update_socket, phase_of_set_phase, Hps.
      destruct (String.eqb_spec s s') as [->|Hne]; [|apply Inv].
      intros _. exists Listening. auto.
    + rewrite users_update_socket, phase_of_set_phase. simpl.
      rewrite jsmap_has_delete.
      destruct (String.eqb_spec s s') as [->|Hne]; simpl; [discriminate|].
      unfold phase_of. simpl. apply Inv.
  - destruct (is_connected st s); [|apply Inv].
    destruct (phase_of st s) as [ps|] eqn:Hps; [|apply Inv].
    destruct ps; try apply Inv.
    rewrite phase_of_handle, users_handle. apply Inv.
  - destruct (phase_of st s) as [[]|]; try apply Inv;
      rewrite send_dm_state; apply Inv.
  - destruct (is_connected st s); [|apply Inv].
    assert (Hclose : forall x, phase_of (transport_close st s) x = phase_of st x).
    { intros x. unfold transport_close. apply phase_of_keep. reflexivity. }
    assert (Husers : users (transport_close st s) = users st)
      by apply users_update_socket.
    destruct (phase_of st s) as [ps|] eqn:Hps; simpl;
      [|rewrite Hclose, Husers; apply Inv].
    destruct ps; simpl; try (rewrite Hclose, Husers; apply Inv).
    unfold disconnect_begin. rewrite Husers.
    destruct (JsMap.get (users st) s) as [u|] eqn:Hu;
      rewrite users_update_socket, Husers, phase_of_set_phase, !Hclose, Hps;
      (destruct (String.eqb_spec s s') as [->|Hne]; [|apply Inv]).
    + intros _. exists AwaitOffline. auto.
    + unfold JsMap.has. rewrite Hu. discriminate.
Qed.

Lemma reachable_listed_inv evs : listed_inv (after evs).
Proof.
  unfold after. apply (run_keeps listed_inv (fun _ => true)).
  - intros st ev _. apply step_keeps_listed_inv.
  - apply forallb_forall. reflexivity.
  - intros s H. discriminate.
Qed.

(** The steps that broadcast a user list: the settling, with success, of
    the status update of a connection callback, and the settling of the
    status update of a disconnect handler. *)
Lemma step_emits_list st ev :
  (exists t l, In (t, UserListUpdate l) (snd (step st ev)))
  <-> exists s,
        (ev = EvUpdateStatus s true /\ phase_of st s = Some AwaitOnline)
        \/ (exists ok, ev = EvUpdateStatus s ok
                       /\ phase_of st s = Some AwaitOffline).
Proof.
  split.
  - intros [t [l Hin]]. revert Hin.
    destruct ev as [s uid|s r|s ok|s m|s receiverId text db|s]; simpl.
    + destruct (JsMap.has (sockets st) s); simpl; tauto.
    + destruct (phase_of st s) as [[]|]; simpl; try tauto.
      destruct r; simpl; tauto.
    + destruct (phase_of st s) as [[]|] eqn:Hps; simpl; try tauto.
      * destruct ok; simpl; [|tauto].
        intros _. exists s. left. auto.
      * intros _. exists s. right. exists ok. auto.
    + destruct (is_connected st s); simpl; [|tauto].
      destruct (phase_of st s) as [[]|]; simpl; try tauto.
      intros H. exfalso. revert H. apply handle_emits_no_list.
    + destruct (phase_of st s) as [[]|]; simpl; try tauto;
        intros H; exfalso; revert H; apply send_dm_emits_no_list.
    + destruct (is_connected st s); simpl; [|tauto].
      destruct (phase_of st s) as [[]|]; simpl; tauto.
  - intros [s [[-> Hps]|[ok [-> Hps]]]]; simpl; rewrite Hps; simpl.
    + eexists. eexists. left. reflexivity.
    + eexists. eexists. apply in_or_app. right. left. reflexivity.
Qed.

(** C8, as stated, fails: a connection whose user lookup was rejected is
    open and served, and no user list names it. *)
Lemma served_connection_is_not_listed : ~ every_served_connection_is_listed.
Proof.
  intros H.
  destruct (H ([ EvConnection "s1" 3%Z; EvFindById "s1" Rejected;
                 EvConnection "a1" 1%Z;
                 EvFindById "a1" (Resolved (Some alice)) ])
              (EvUpdateStatus "a1" true) Broadcast
              [ {| entry_row := Some alice; socketId := "a1" |} ] "s1"
              (or_introl eq_refl) eq_refl eq_refl)
    as [u [[<-|[]] Hu]].
  discriminate Hu.
Qed.

(** C8, amended.  A user list is broadcast by exactly two kinds of step:
    the one in which the status update of a new connection settles with
    success, and the one in which the status update of a disconnect handler
    settles; a connection whose status update is rejected, and the
    disconnection of a connection that has no entry, are followed by no
    list.  Every list is a broadcast of exactly the entries [users] holds
    when it is sent.  A connection has an entry from the settling of its
    user lookup to the end of its disconnect handler: a handle with an
    entry is in one of the phases in between; a connection that awaits a
    status update has an entry; a connection whose callback has finished
    has one unless its lookup was rejected; the step that ends the
    disconnect handler removes the entry before the list is sent. *)
Theorem user_list_update_is_registry (evs : list Event) (ev : Event) :
  let st := after evs in
  let st' := fst (step st ev) in
  let out := snd (step st ev) in
  ((exists t l, In (t, UserListUpdate l) out)
   <-> exists s,
         (ev = EvUpdateStatus s true /\ phase_of st s = Some AwaitOnline)
         \/ (exists ok, ev = EvUpdateStatus s ok
                        /\ phase_of st s = Some AwaitOffline))
  /\ (forall t l,
        In (t, UserListUpdate l) out ->
        t = Broadcast /\ l = JsMap.values (users st')
        /\ forall h, (exists u, In u l /\ socketId u = h)
                     <-> JsMap.has (users st') h = true)
  /\ (forall h,
        JsMap.has (users st') h = true ->
        phase_of st' h = Some AwaitOnline \/ phase_of st' h = Some Listening
        \/ phase_of st' h = Some AwaitOffline)
  /\ (forall h,
        phase_of st' h = Some AwaitOnline \/ phase_of st' h = Some AwaitOffline ->
        JsMap.has (users st') h = true)
  /\ (forall h,
        looked_up (evs ++ [ev]) h = true ->
        phase_of st' h = Some Listening ->
        JsMap.has (users st') h = true)
  /\ (forall s,
        ev = EvUpdateStatus s true -> phase_of st s = Some AwaitOnline ->
        out = [ (Broadcast, UserListUpdate (JsMap.values (users st'))) ]
        /\ JsMap.has (users st') s = true)
  /\ (forall s,
        ev = EvUpdateStatus s false -> phase_of st s = Some AwaitOnline ->
        out = [] /\ JsMap.has (users st') s = true)
  /\ (forall s ok,
        ev = EvUpdateStatus s ok -> phase_of st s = Some AwaitOffline ->
        out = left_notifications (rooms st) s
              ++ [ (Broadcast, UserListUpdate (JsMap.values (users st'))) ]
        /\ JsMap.has (users st') s = false).
Proof.
  intros st st' out.
  assert (Est : st' = after (evs ++ [ev])).
  { subst st' st. symmetry. apply after_snoc. }
  split; [apply step_emits_list|].
  split; [|split; [|split; [|split; [|split; [|split]]]]].
  - intros t l Hin. apply step_list_is_users in Hin.
    destruct Hin as [-> ->]. split; [reflexivity|]. split; [reflexivity|].
    apply keyed_values_iff. fold st'. rewrite Est. apply reachable_keyed.
  - intros h Hh. rewrite Est in *.
    destruct (reachable_listed_inv _ h Hh) as [p [Hp Hr]].
    rewrite Hp. destruct p; try discriminate; auto.
  - intros h Hp. rewrite Est in *.
    destruct Hp as [Hp|Hp];
      apply (reachable_phase_inv _ h _ Hp); reflexivity.
  - intros h Hlook Hp. rewrite Est in *.
    apply (proj1 (reachable_own_inv _ h Hlook) Listening Hp). reflexivity.
  - intros s -> Hph. subst out st'. simpl. rewrite Hph. simpl.
    rewrite users_update_socket. split; [reflexivity|].
    apply (reachable_phase_inv evs s AwaitOnline Hph). reflexivity.
  - intros s -> Hph. subst out st'. simpl. rewrite Hph. simpl.
    rewrite users_update_socket. split; [reflexivity|].
    apply (reachable_phase_inv evs s AwaitOnline Hph). reflexivity.
  - intros s ok -> Hph. subst out st'. simpl. rewrite Hph. simpl.
    rewrite users_update_socket. simpl. split; [reflexivity|].
    rewrite jsmap_has_delete, String.eqb_refl. reflexivity.
Qed.

Lemma user_list_update_is_registry_witness :
  JsMap.has (users (after (online "a1" alice ++ online "b1" bob))) "b1"
  = true
  /\ snd (step (after (online "a1" alice
                       ++ [ EvConnection "b1" 2%Z;
                            EvFindById "b1" (Resolved (Some bob)) ]))
               (EvUpdateStatus "b1" false))
     = []
  /\ JsMap.has
       (users (after (online "a1" alice ++ online "b1" bob
                      ++ [EvDisconnect "b1"; EvUpdateStatus "b1" false])))
       "b1"
     = false.
Proof.
  pose proof (user_list_update_is_registry
                (online "a1" alice ++ [EvConnection "b1" 2%Z;
                                       EvFindById "b1" (Resolved (Some bob))])
                (EvUpdateStatus "b1" true)) as H.
  destruct H as [_ [_ [_ [_ [_ [Hreg _]]]]]].
  pose proof (user_list_update_is_registry
                (online "a1" alice ++ [EvConnection "b1" 2%Z;
                                       EvFindById "b1" (Resolved (Some bob))])
                (EvUpdateStatus "b1" false)) as Hsilent.
  destruct Hsilent as [_ [_ [_ [_ [_ [_ [Hsilent _]]]]]]].
  pose proof (user_list_update_is_registry
                (online "a1" alice ++ online "b1" bob ++ [EvDisconnect "b1"])
                (EvUpdateStatus "b1" false)) as H'.
  destruct H' as [_ [_ [_ [_ [_ [_ [_ Hunreg]]]]]]].
  split; [|split].
  - exact (proj2 (Hreg "b1" eq_refl eq_refl)).
  - exact (proj1 (Hsilent "b1" eq_refl eq_refl)).
  - exact (proj2 (Hunreg "b1" false eq_refl eq_refl)).
Defined.

(** A connection that closes while its callback still awaits the lookup is
    registered afterwards all the same: its disconnect handler is not
    installed yet when the transport closes, so nothing unregisters it. *)
Example closed_while_connecting_is_registered :
  let st := after [ EvConnection "s1" 1%Z; EvDisconnect "s1";
                    EvFindById "s1" (Resolved (Some alice));
                    EvUpdateStatus "s1" true ] in
  JsMap.has (users st) "s1" = true /\ is_connected st "s1" = false
  /\ phase_of st "s1" = Some Listening.
Proof. repeat split. Qed.

(** The lobby scenario: a1 joins and is told of nobody, b1 joins and is
    told of a1 while a1 is told of b1, b1 disconnects and a1 is told. *)
Example lobby_scenario :
  run (after (online "a1" alice ++ online "b1" bob))
      [ EvClient "a1" (JoinVoiceChannel "lobby" 1%Z);
        EvClient "b1" (JoinVoiceChannel "lobby" 2%Z);
        EvDisconnect "b1";
        EvUpdateStatus "b1" true ]
  = ({| users := [ ("a1", {| entry_row := Some alice; socketId := "a1" |}) ];
        rooms := [ ("lobby", ["a1"]) ];
        sockets :=
          [ ("a1", {| userId := 1%Z; connected := true;
                      joined := ["a1"; "voice-lobby"]; phase := Listening |});
            ("b1", {| userId := 2%Z; connected := false; joined := [];
                      phase := Closed |}) ] |},
     [ (InRoomExcept "voice-lobby" "a1", UserJoinedVoice 1%Z "a1");
       (Direct "a1", ExistingVoiceUsers []);
       (InRoomExcept "voice-lobby" "b1", UserJoinedVoice 2%Z "b1");
       (Direct "b1",
        ExistingVoiceUsers
          [ Some {| entry_row := Some alice; socketId := "a1" |} ]);
       (InRoom "voice-lobby", UserLeftVoice "b1");
       (Broadcast,
        UserListUpdate [ {| entry_row := Some alice; socketId := "a1" |} ]) ]).
Proof. reflexivity. Qed.

(** * Rooms stay within the registry *)

(** C3, as stated, fails: a socket whose user lookup was rejected is not
    registered, yet its handlers are installed and it can join a room. *)
Lemma unregistered_socket_joins_room :
  ~ rooms_within_registry
      (after [ EvConnection "s1" 1%Z;
               EvFindById "s1" Rejected;
               EvClient "s1" (JoinVoiceChannel "lobby" 1%Z) ]).
Proof.
  intros H. specialize (H "lobby" ["s1"] "s1").
  assert (Hf : JsMap.has
                 (users (after [ EvConnection "s1" 1%Z;
                                 EvFindById "s1" Rejected;
                                 EvClient "s1" (JoinVoiceChannel "lobby" 1%Z) ]))
                 "s1" = false) by reflexivity.
  rewrite H in Hf; [discriminate | left; reflexivity | left; reflexivity].
Qed.

(** C3, amended.  In every state reached by any sequence of events, a
    handle that is in a member set of [rooms] is registered in [users],
    unless the user lookup of its own connection was rejected.  So when no
    lookup is rejected at all, every handle in every member set is
    registered.  The state between any two steps of the event loop is such
    a state, so no handler ever sees a member with a lookup that was not
    rejected missing from the registry. *)
Theorem member_is_registered_unless_lookup_rejected (evs : list Event) :
  (forall s channelName members,
     looked_up evs s = true ->
     In (channelName, members) (rooms (after evs)) -> In s members ->
     JsMap.has (users (after evs)) s = true)
  /\ (forallb lookup_succeeds evs = true -> rooms_within_registry (after evs)).
Proof.
  split.
  - intros s c members Hs. apply (reachable_own_inv evs s Hs).
  - intros H c members h. apply (reachable_own_inv evs h).
    apply looked_up_when_lookups_succeed. exact H.
Qed.

(** A socket whose lookup was rejected sits in the lobby, unregistered;
    alice, who joins after it, is registered. *)
Lemma member_is_registered_unless_lookup_rejected_witness :
  let evs := [ EvConnection "s1" 3%Z; EvFindById "s1" Rejected;
               EvClient "s1" (JoinVoiceChannel "lobby" 3%Z) ]
             ++ online "a1" alice
             ++ [ EvClient "a1" (JoinVoiceChannel "lobby" 1%Z) ] in
  rooms (after evs) = [ ("lobby", ["s1"; "a1"]) ]
  /\ JsMap.has (users (after evs)) "a1" = true
  /\ JsMap.has (users (after evs)) "s1" = false
  /\ rooms_within_registry (after call_scenario).
Proof.
  intros evs. split; [reflexivity|]. split; [|split].
  - apply (proj1 (member_is_registered_unless_lookup_rejected evs)
             "a1" "lobby" ["s1"; "a1"]).
    + reflexivity.
    + left. reflexivity.
    + right. left. reflexivity.
  - reflexivity.
  - apply (proj2 (member_is_registered_unless_lookup_rejected call_scenario)).
    reflexivity.
Defined.

(** * Calls *)

(** C1, as stated, fails: the server has no record of a call, so an accept
    that follows a reject is passed on like any other. *)
Lemma accept_after_reject_is_relayed : ~ rejected_call_stays_rejected.
Proof.
  intros H.
  specialize (H (online "a1" alice ++ online "b1" bob ++
                 [EvClient "a1" (InitiateCall 2%Z "video" (as_caller alice))])
                "b1" "a1" (as_caller bob)).
  vm_compute in H. discriminate.
Qed.

(** C1, amended.  The server keeps no call session and no call status.  In
    any state, whatever events came before, an accept-call, reject-call or
    end-call request of a connected socket leaves all tables as they are
    and is passed on to the handle it names: as call-accepted with the
    identity the request carries and the sender's handle, as call-rejected
    with the sender's handle, and as call-ended with the sender's handle
    (end-call with no target emits nothing).  No request is refused. *)
Theorem call_requests_are_relayed (st : State) (s : SocketId) :
  is_connected st s = true -> phase_of st s = Some Listening ->
  (forall to from,
     step st (EvClient s (AcceptCall to from))
     = (st, [ (InRoom to,
               CallAccepted {| ai_id := from_id from;
                               ai_username := from_username from;
                               ai_socketId := s |}) ]))
  /\ (forall to,
        step st (EvClient s (RejectCall to))
        = (st, [ (InRoom to, CallRejected (Some s) CallDeclined) ]))
  /\ (forall to,
        to <> EmptyString ->
        step st (EvClient s (EndCall (Some to)))
        = (st, [ (InRoom to, CallEnded s) ]))
  /\ step st (EvClient s (EndCall (Some EmptyString))) = (st, [])
  /\ step st (EvClient s (EndCall None)) = (st, []).
Proof.
  intros Hc Hp. simpl. rewrite Hc, Hp. simpl.
  repeat split.
  intros to Hto. unfold end_call.
  destruct to; [contradiction | reflexivity].
Qed.

Lemma call_requests_are_relayed_witness :
  run (after call_scenario)
      [ EvClient "b1" (RejectCall "a1");
        EvClient "b1" (AcceptCall "a1" (as_caller bob));
        EvClient "a1" (EndCall (Some "b1"));
        EvClient "b1" (AcceptCall "a1" (as_caller bob)) ]
  = (after call_scenario,
     [ (InRoom "a1", CallRejected (Some "b1") CallDeclined);
       (InRoom "a1",
        CallAccepted {| ai_id := 2%Z; ai_username := Some "bob";
                        ai_socketId := "b1" |});
       (InRoom "b1", CallEnded "a1");
       (InRoom "a1",
        CallAccepted {| ai_id := 2%Z; ai_username := Some "bob";
                        ai_socketId := "b1" |}) ]).
Proof.
  pose proof (call_requests_are_relayed (after call_scenario) "b1"
                eq_refl eq_refl) as [Hacc [Hrej _]].
  pose proof (call_requests_are_relayed (after call_scenario) "a1"
                eq_refl eq_refl) as [_ [_ [Hend _]]].
  rewrite run_cons, Hrej. cbn [fst snd].
  rewrite run_cons, Hacc. cbn [fst snd].
  rewrite run_cons, Hend by discriminate. cbn [fst snd].
  rewrite run_one, Hacc. reflexivity.
Defined.

(** * Disconnection *)

Lemma left_notifications_iff r s e :
  In e (left_notifications r s)
  <-> exists c m, In (c, m) r /\ In s m
                  /\ e = (InRoom (voice_room c), UserLeftVoice s).
Proof.
  split.
  - destruct e as [t x]. intros H.
    apply left_notifications_only_left in H.
    destruct H as [c [m [Hin [Hs [-> ->]]]]]. exists c, m. auto.
  - intros [c [m [Hin [Hs ->]]]].
    unfold left_notifications. apply in_flat_map. exists (c, m).
    split; [assumption|].
    apply jsset_has_In in Hs. rewrite Hs. left. reflexivity.
Qed.

Lemma left_notifications_no_call_ended r s :
  existsb is_call_ended (left_notifications r s) = false.
Proof.
  destruct (existsb is_call_ended (left_notifications r s)) eqn:E;
    [|reflexivity].
  apply existsb_exists in E. destruct E as [[t x] [Hin Hx]].
  apply left_notifications_only_left in Hin.
  destruct Hin as [c [m [_ [_ [_ ->]]]]]. discriminate.
Qed.

(** C2, as stated, fails: when a party of an accepted call disconnects, the
    server tells the rooms and broadcasts the user list, and sends nothing
    about the call to the other party. *)
Lemma disconnect_sends_no_call_ended :
  let begun := step (after call_scenario) (EvDisconnect "a1") in
  let done := step (fst begun) (EvUpdateStatus "a1" true) in
  snd begun ++ snd done
  = [ (InRoom "voice-R1", UserLeftVoice "a1");
      (InRoom "voice-R2", UserLeftVoice "a1");
      (Broadcast,
       UserListUpdate [ {| entry_row := Some bob; socketId := "b1" |} ]) ]
  /\ existsb is_call_ended (snd begun ++ snd done) = false.
Proof. split; reflexivity. Qed.

(** C2, amended.  The disconnect handler of a registered connection first
    awaits the status update; until that settles it has changed neither
    [users] nor [rooms] and emitted nothing.  The step that follows does all
    of the cleanup at once, with no state in between visible to any other
    event: the handle is taken out of every member set (every room keeps its
    entry), a user-left-voice carrying the handle is emitted to the
    Socket.IO room of each room that had it as a member, in the order of
    [rooms], the entry is deleted from [users], and the remaining entries
    are broadcast.  The notification for a room is received by the remaining
    members of the room whose transport is open, and by no other socket (a
    socket whose id is the name of that Socket.IO room apart).  The server
    keeps no call session: nothing about a call is sent to anyone. *)
Theorem disconnect_cleanup_is_one_step (evs0 evs : list Event)
  (s : SocketId) (ok : bool) :
  let st0 := after evs0 in
  let st := after evs in
  is_connected st0 s = true -> phase_of st0 s = Some Listening ->
  JsMap.has (users st0) s = true ->
  phase_of st s = Some AwaitOffline ->
  let begun := step st0 (EvDisconnect s) in
  let done := step st (EvUpdateStatus s ok) in
  (users (fst begun) = users st0 /\ rooms (fst begun) = rooms st0
   /\ snd begun = [] /\ phase_of (fst begun) s = Some AwaitOffline)
  /\ users (fst done) = JsMap.delete (users st) s
  /\ JsMap.has (users (fst done)) s = false
  /\ rooms (fst done)
     = map (fun rm => (fst rm, JsSet.delete (snd rm) s)) (rooms st)
  /\ (forall c m, In (c, m) (rooms (fst done)) -> ~ In s m)
  /\ snd done
     = left_notifications (rooms st) s
       ++ [ (Broadcast, UserListUpdate (JsMap.values (users (fst done)))) ]
  /\ (forall e,
        In e (left_notifications (rooms st) s)
        <-> exists c m, In (c, m) (rooms st) /\ In s m
                        /\ e = (InRoom (voice_room c), UserLeftVoice s))
  /\ (forall c k,
        In k (recipients (fst done) (InRoom (voice_room c))) ->
        is_connected (fst done) k = true
        /\ (In k (JsSet.delete (members_of (rooms st) c) s)
            \/ k = voice_room c))
  /\ (forall c k,
        In k (JsSet.delete (members_of (rooms st) c) s) ->
        is_connected (fst done) k = true ->
        In k (recipients (fst done) (InRoom (voice_room c))))
  /\ existsb is_call_ended (snd done) = false.
Proof.
  intros st0 st Hc Hp Hu Hoff begun done. split.
  - subst begun. simpl. rewrite Hc, Hp. simpl.
    unfold disconnect_begin, transport_close. rewrite users_update_socket.
    unfold JsMap.has in Hu.
    destruct (JsMap.get (users st0) s) as [u|]; [|discriminate].
    rewrite !users_update_socket, !rooms_update_socket.
    repeat split.
    rewrite phase_of_set_phase, String.eqb_refl, phase_of_keep by reflexivity.
    rewrite Hp. reflexivity.
  - assert (Hw : wired (fst done)).
    { subst done. apply step_keeps_wired. apply reachable_wired. }
    assert (Hm : forall c, members_of (rooms (fst done)) c
                           = JsSet.delete (members_of (rooms st) c) s).
    { intros c. subst done. simpl. rewrite Hoff. simpl.
      rewrite rooms_update_socket. simpl. apply members_of_remove. }
    assert (Hrec := fun c k => recipients_of_voice_room (fst done) c k Hw).
    revert Hm Hrec. subst done. simpl. rewrite Hoff. simpl.
    rewrite users_update_socket, rooms_update_socket. simpl.
    intros Hm Hrec.
    split; [reflexivity|]. split.
    { rewrite jsmap_has_delete, String.eqb_refl. reflexivity. }
    split; [apply remove_from_rooms_delete|]. split.
    { intros c m Hin Hs. apply In_remove_from_rooms in Hin.
      destruct Hin as [m0 [_ ->]]. apply jsset_In_delete in Hs. tauto. }
    split; [reflexivity|]. split; [apply left_notifications_iff|].
    split; [|split].
    { intros c k Hin. rewrite <- Hm. apply (proj1 (Hrec c k)). exact Hin. }
    { intros c k Hin Hcon. apply (proj2 (Hrec c k)); [|exact Hcon].
      rewrite Hm. exact Hin. }
    rewrite existsb_app, left_notifications_no_call_ended. reflexivity.
Qed.

Lemma disconnect_cleanup_is_one_step_witness :
  users (fst (step (after (call_scenario ++ [EvDisconnect "a1"]))
                   (EvUpdateStatus "a1" true)))
  = [ ("b1", {| entry_row := Some bob; socketId := "b1" |}) ]
  /\ rooms (fst (step (after (call_scenario ++ [EvDisconnect "a1"]))
                      (EvUpdateStatus "a1" true)))
     = [ ("R1", ["b1"]); ("R2", ["b1"]) ]
  /\ In "b1" (recipients
                (fst (step (after (call_scenario ++ [EvDisconnect "a1"]))
                           (EvUpdateStatus "a1" true)))
                (InRoom (voice_room "R1"))).
Proof.
  pose proof (disconnect_cleanup_is_one_step
                call_scenario (call_scenario ++ [EvDisconnect "a1"])
                "a1" true eq_refl eq_refl eq_refl eq_refl)
    as [_ [Husers [_ [Hrooms [_ [_ [_ [_ [Hrecv _]]]]]]]]].
  split; [|split].
  - rewrite Husers. reflexivity.
  - rewrite Hrooms. reflexivity.
  - apply (Hrecv "R1" "b1"); [left; reflexivity | reflexivity].
Defined.

(** * Call initiation *)

Lemma find_first {A : Type} (f : A -> bool) (before : list A) x rest :
  forallb (fun u => negb (f u)) before = true -> f x = true ->
  find f (before ++ x :: rest) = Some x.
Proof.
  intros Hb Hx. induction before as [|y before IH]; simpl.
  - rewrite Hx. reflexivity.
  - simpl in Hb. apply andb_true_iff in Hb. destruct Hb as [Hy Hb].
    apply negb_true_iff in Hy. rewrite Hy. auto.
Qed.

Lemma find_none_iff {A : Type} (f : A -> bool) (l : list A) :
  find f l = None <-> forall x, In x l -> f x = false.
Proof.
  split; [apply find_none|].
  induction l as [|y l IH]; simpl; intros H; [reflexivity|].
  rewrite (H y) by (left; reflexivity). apply IH. intros x Hx. apply H. auto.
Qed.




(** C10, as stated, fails: bob has the connections b1, b2 and b3; while
    the disconnect handler of b1 awaits the status update, b1 still is the
    first entry with bob's id, so a call to bob is addressed to b1 and
    neither b2 nor b3, which are live, receives it. *)
Lemma live_connections_are_not_rung : ~ a_live_connection_is_rung.
Proof.
  intros H.
  destruct (H (online "a1" alice ++ online "b1" bob ++ online "b2" bob
               ++ online "b3" bob ++ [EvDisconnect "b1"])
              "a1" 2%Z "video" (as_caller alice) "b2" "b3")
    as [h [_ Hh]].
  - discriminate.
  - reflexivity.
  - reflexivity.
  - vm_compute in Hh. discriminate.
Qed.

(** C10, amended.  In every reachable state, the entry that a call
    initiation or a direct message goes to is the first one, in the
    insertion order of [users], whose id is the one named: the
    incoming-call, or the new-dm, is addressed to the handle of that entry
    and to no other handle, whatever other entries with the same id follow
    it; it is received by the socket of that entry while its transport is
    open and by no other socket (a socket id that is also the name of a
    voice room apart), so that none of the user's connections receives it
    when the transport of the first one is closed.
    A connection that registers later is put behind all present entries.
    (A direct message is also echoed to its sender as dm-sent.) *)
Theorem first_matching_connection_is_addressed (evs : list Event)
  (s : SocketId) (to : UserId) (before : list Entry) (callee : Entry)
  (rest : list Entry) :
  let st := after evs in
  JsMap.values (users st) = before ++ callee :: rest ->
  forallb (fun u => negb (id_is to u)) before = true ->
  id_is to callee = true ->
  (forall type from,
     initiate_call st s to type from
     = (st, [ (InRoom (socketId callee),
               IncomingCall
                 {| ci_id := from_id from;
                    ci_username := from_username from;
                    ci_socketId := s;
                    ci_avatar :=
                      option_map InitialOf (from_username from) |}
                 type) ]))
  /\ (forall text sender savedId sk,
        JsMap.get (sockets st) s = Some sk ->
        send_dm st s to text (Resolved (sender, savedId))
        = (st, [ (InRoom (socketId callee),
                  NewDm (userId sk)
                    {| dm_id := savedId; dm_author := row_username sender;
                       dm_avatar := avatar_or_initial sender;
                       dm_text := text |});
                 (Direct s,
                  DmSent to
                    {| dm_id := savedId; dm_author := row_username sender;
                       dm_avatar := avatar_or_initial sender;
                       dm_text := text |}) ]))
  /\ (forall type from h m,
        In (InRoom h, m) (snd (initiate_call st s to type from)) ->
        h = socketId callee)
  /\ (forall text db h m,
        In (InRoom h, m) (snd (send_dm st s to text db)) ->
        h = socketId callee)
  /\ (names_voice_room (socketId callee) = false ->
      forall k,
        In k (recipients st (InRoom (socketId callee)))
        <-> k = socketId callee /\ is_connected st (socketId callee) = true)
  /\ (names_voice_room (socketId callee) = false ->
      is_connected st (socketId callee) = false ->
      recipients st (InRoom (socketId callee)) = [])
  /\ (forall s' row,
        JsMap.has (users st) s' = false ->
        JsMap.values
          (users (fst (connection_after_findById st s' (Resolved row))))
        = JsMap.values (users st)
          ++ [ {| entry_row := row; socketId := s' |} ]).
Proof.
  intros st Hvals Hbefore Hcallee.
  assert (Hfind : find (id_is to) (JsMap.values (users st)) = Some callee).
  { rewrite Hvals. apply find_first; assumption. }
  assert (Hcall : forall type from,
     initiate_call st s to type from
     = (st, [ (InRoom (socketId callee),
               IncomingCall
                 {| ci_id := from_id from;
                    ci_username := from_username from;
                    ci_socketId := s;
                    ci_avatar :=
                      option_map InitialOf (from_username from) |}
                 type) ])).
  { intros type from. unfold initiate_call. rewrite Hfind. reflexivity. }
  assert (Hrecv : names_voice_room (socketId callee) = false ->
            forall k,
              In k (recipients st (InRoom (socketId callee)))
              <-> k = socketId callee
                  /\ is_connected st (socketId callee) = true).
  { intros Hplain k. apply recipients_of_socket_room.
    - apply reachable_wired.
    - apply reachable_joined_ok.
    - exact Hplain. }
  split; [exact Hcall|]. split; [|split; [|split; [|split; [|split]]]].
  - intros text sender savedId sk Hsk. unfold send_dm.
    rewrite Hsk, Hfind. reflexivity.
  - intros type from h m. rewrite Hcall. simpl.
    intros [H|[]]. congruence.
  - intros text db h m. unfold send_dm.
    destruct db as [[sender savedId]|]; [|intros []].
    destruct (JsMap.get (sockets st) s); [|intros []].
    rewrite Hfind. simpl. intros [H|[H|[]]]; congruence.
  - exact Hrecv.
  - intros Hplain Hclosed. apply nil_when_nothing_in. intros k Hk.
    apply (Hrecv Hplain) in Hk. destruct Hk as [_ Hk]. congruence.
  - intros s' row Habsent. simpl. rewrite users_update_socket. simpl.
    apply jsmap_values_set_absent. exact Habsent.
Qed.

(** Bob has two live connections, registered in the order b1, b2. *)
Lemma first_matching_connection_is_addressed_witness :
  initiate_call (after (online "a1" alice ++ online "b1" bob ++ online "b2" bob))
                "a1" 2%Z "video" (as_caller alice)
  = (after (online "a1" alice ++ online "b1" bob ++ online "b2" bob),
     [ (InRoom "b1",
        IncomingCall
          {| ci_id := 1%Z; ci_username := Some "alice";
             ci_socketId := "a1";
             ci_avatar := Some (InitialOf "alice") |}
          "video") ])
  /\ snd (send_dm
            (after (online "a1" alice ++ online "b1" bob ++ online "b2" bob))
            "a1" 2%Z "hi" (Resolved (alice, 7%Z)))
     = [ (InRoom "b1",
          NewDm 1%Z {| dm_id := 7%Z; dm_author := "alice";
                       dm_avatar := InitialOf "alice"; dm_text := "hi" |});
         (Direct "a1",
          DmSent 2%Z {| dm_id := 7%Z; dm_author := "alice";
                        dm_avatar := InitialOf "alice"; dm_text := "hi" |}) ]
  /\ recipients
       (after (online "a1" alice ++ online "b1" bob ++ online "b2" bob))
       (InRoom "b1")
     = [ "b1" ].
Proof.
  pose proof (first_matching_connection_is_addressed
                (online "a1" alice ++ online "b1" bob ++ online "b2" bob)
                "a1" 2%Z
                [ {| entry_row := Some alice; socketId := "a1" |} ]
                {| entry_row := Some bob; socketId := "b1" |}
                [ {| entry_row := Some bob; socketId := "b2" |} ]
                eq_refl eq_refl eq_refl) as [Hcall [Hdm _]].
  split; [|split].
  - apply Hcall.
  - rewrite (Hdm "hi" alice 7%Z
               {| userId := 1%Z; connected := true; joined := ["a1"];
                  phase := Listening |} eq_refl).
    reflexivity.
  - reflexivity.
Defined.

(** * The signaling relay *)

(** C5, as stated, fails: an offer for a handle that is not registered is
    emitted like any other, and nothing is reported to its sender. *)
Lemma relay_to_unknown_target_is_not_reported : ~ unknown_target_reported.
Proof.
  intros H.
  specialize (H (after (online "a1" alice)) "a1" "nobody" "sdp"
                eq_refl eq_refl eq_refl).
  vm_compute in H. discriminate.
Qed.

Lemma step_relay st s m :
  is_connected st s = true -> phase_of st s = Some Listening ->
  is_relay m = true ->
  step st (EvClient s m) = (st, relayed s m).
Proof.
  intros Hc Hp Hm. simpl. rewrite Hc, Hp.
  destruct m; try discriminate; reflexivity.
Qed.

(** C5, amended.  The relay does not look the target up in the registry and
    reports nothing to the sender.  Every offer, answer or ice-candidate
    request of a connected socket leaves the tables as they are and emits
    exactly one message of the same kind, carrying the payload unchanged and
    the sender's handle as [from], addressed to the Socket.IO room named by
    the target, the sender excepted; so does every request that follows,
    whether or not an earlier target was registered.  When the target is
    not the name [voice-<channel>] of a voice room, the message is received
    by the socket with the target handle, when there is one with an open
    transport other than the sender, and by no other socket.  When the
    target is the name [voice-<channel>] of a voice room, the message is
    received by every member of the channel whose transport is open, the
    sender excepted, and by no other socket (a socket id that is also the
    name of a voice room apart). *)
Theorem relay_forwards_verbatim (evs : list Event) (s : SocketId)
  (ms : list ClientMsg) :
  let st := after evs in
  is_connected st s = true -> phase_of st s = Some Listening ->
  (forall to o,
     step st (EvClient s (Offer to o))
     = (st, [ (InRoomExcept to s, OfferMsg o s) ]))
  /\ (forall to a,
        step st (EvClient s (Answer to a))
        = (st, [ (InRoomExcept to s, AnswerMsg a s) ]))
  /\ (forall to c,
        step st (EvClient s (IceCandidate to c))
        = (st, [ (InRoomExcept to s, IceCandidateMsg c s) ]))
  /\ (forallb is_relay ms = true ->
      run st (map (EvClient s) ms) = (st, flat_map (relayed s) ms))
  /\ (forall to,
        names_voice_room to = false ->
        forall k,
          In k (recipients st (InRoomExcept to s))
          <-> k = to /\ to <> s /\ is_connected st to = true)
  /\ (forall to,
        names_voice_room to = true ->
        exists c,
          to = voice_room c
          /\ forall k,
               names_voice_room k = false ->
               (In k (recipients st (InRoomExcept to s))
                <-> k <> s /\ is_connected st k = true
                    /\ In k (members_of (rooms st) c))).
Proof.
  intros st Hc Hp.
  split; [intros; apply (step_relay st s (Offer to o)); auto|].
  split; [intros; apply (step_relay st s (Answer to a)); auto|].
  split; [intros; apply (step_relay st s (IceCandidate to c)); auto|].
  split; [|split].
  - induction ms as [|m ms IH]; intros Hall.
    + reflexivity.
    + simpl in Hall. apply andb_true_iff in Hall. destruct Hall as [Hm Hall].
      cbn [map flat_map]. rewrite run_cons, step_relay by assumption.
      cbn [fst snd]. rewrite (IH Hall). reflexivity.
  - intros to Hplain k. rewrite In_recipients_except.
    rewrite (recipients_of_socket_room st to k
               (reachable_wired evs) (reachable_joined_ok evs) Hplain).
    split.
    + intros [[-> Hcon] Hne]. auto.
    + intros [-> [Hne Hcon]]. auto.
  - intros to Hroom. destruct (names_voice_room_true to Hroom) as [c ->].
    exists c. split; [reflexivity|].
    intros k Hplain. apply recipients_except_voice_room.
    + apply reachable_wired.
    + exact Hplain.
Qed.

Lemma relay_forwards_verbatim_witness :
  run (after (online "a1" alice ++ online "b1" bob))
      (map (EvClient "a1")
           [ IceCandidate "nobody" "cand1"; Offer "b1" "sdp";
             IceCandidate "b1" "cand2" ])
  = (after (online "a1" alice ++ online "b1" bob),
     [ (InRoomExcept "nobody" "a1", IceCandidateMsg "cand1" "a1");
       (InRoomExcept "b1" "a1", OfferMsg "sdp" "a1");
       (InRoomExcept "b1" "a1", IceCandidateMsg "cand2" "a1") ])
  /\ In "b1" (recipients (after (online "a1" alice ++ online "b1" bob))
                         (InRoomExcept "b1" "a1"))
  /\ ~ In "a1" (recipients (after (online "a1" alice ++ online "b1" bob))
                           (InRoomExcept "nobody" "a1"))
  /\ In "b1" (recipients (after call_scenario)
                         (InRoomExcept "voice-R1" "a1")).
Proof.
  pose proof (relay_forwards_verbatim
                (online "a1" alice ++ online "b1" bob) "a1"
                [ IceCandidate "nobody" "cand1"; Offer "b1" "sdp";
                  IceCandidate "b1" "cand2" ] eq_refl eq_refl)
    as [_ [_ [_ [Hrun [Hrecv _]]]]].
  split; [apply Hrun; reflexivity|]. split; [|split].
  - apply (Hrecv "b1" eq_refl "b1"). repeat split. discriminate.
  - intros Hin. apply (Hrecv "nobody" eq_refl "a1") in Hin.
    destruct Hin as [Hin _]. discriminate.
  - pose proof (relay_forwards_verbatim call_scenario "a1" []
                  eq_refl eq_refl) as [_ [_ [_ [_ [_ Hroom]]]]].
    destruct (Hroom "voice-R1" eq_refl) as [c [Ec Hk]].
    apply voice_room_inj in Ec. subst c.
    apply (Hk "b1" eq_refl). split; [discriminate|].
    split; [reflexivity|]. right. left. reflexivity.
Defined.

(** * Joining and leaving a voice room *)

(** C6, as stated, fails: a socket whose user lookup was rejected sits in
    the lobby without an entry in [users]; the list sent to alice, who joins
    after it, has [undefined] (sent as [null]) where that member should be
    named. *)
Lemma unregistered_member_is_not_named : ~ list_names_the_other_members.
Proof.
  intros H.
  specialize (H ([ EvConnection "s1" 3%Z; EvFindById "s1" Rejected;
                   EvClient "s1" (JoinVoiceChannel "lobby" 3%Z) ]
                 ++ online "a1" alice)
                "a1" "lobby" 1%Z [None]
                (or_intror (or_introl eq_refl))).
  discriminate H.
Qed.

(** C6, amended.  Joining a room again with the same handle changes
    nothing: the state after the second join is the state after the first,
    so the member set is the same.  A join puts the handle at the end of the
    member set when it is new and leaves the set alone when it is present.
    The existing-members sequence sent to the joining connection has one
    item for each of the other members of the room and none for the joining
    handle, in the order of the member set, which is the order in which
    the members joined; the item for a member is its entry in the registry,
    which carries the member's handle, so that no item carries the joining
    handle, or [undefined] (sent as [null]) for a member that has no
    entry.  In a reachable
    state a member has an entry unless the user lookup of its connection
    was rejected. *)
Theorem join_is_idempotent_and_lists_others (st : State) (s : SocketId)
  (c : string) (uid uid' : UserId) :
  let others := JsSet.delete (members_of (rooms st) c) s in
  let first := join_voice_channel st s c uid in
  let second := join_voice_channel (fst first) s c uid' in
  fst second = fst first
  /\ members_of (rooms (fst first)) c = JsSet.add (members_of (rooms st) c) s
  /\ JsSet.add (members_of (rooms st) c) s
     = (if JsSet.has (members_of (rooms st) c) s
        then members_of (rooms st) c
        else members_of (rooms st) c ++ [s])
  /\ snd first
     = [ (InRoomExcept (voice_room c) s, UserJoinedVoice uid s);
         (Direct s, ExistingVoiceUsers (map (JsMap.get (users st)) others)) ]
  /\ snd second
     = [ (InRoomExcept (voice_room c) s, UserJoinedVoice uid' s);
         (Direct s, ExistingVoiceUsers (map (JsMap.get (users st)) others)) ]
  /\ (forall h, In h others <-> In h (members_of (rooms st) c) /\ h <> s)
  /\ (keyed st ->
      forall u, In (Some u) (map (JsMap.get (users st)) others) ->
                In (socketId u) others /\ socketId u <> s)
  /\ (keyed st ->
      map (option_map socketId) (map (JsMap.get (users st)) others)
      = map (fun h => if JsMap.has (users st) h then Some h else None)
            others)
  /\ (forall evs h,
        st = after evs -> In h others -> looked_up evs h = true ->
        exists u, JsMap.get (users st) h = Some u /\ socketId u = h).
Proof.
  intros others first second.
  assert (Hmem : members_of (rooms (fst first)) c
                 = JsSet.add (members_of (rooms st) c) s).
  { subst first. rewrite join_voice_channel_state. simpl.
    apply members_of_set. }
  assert (Husers : users (fst first) = users st).
  { subst first. rewrite join_voice_channel_state. simpl.
    apply users_update_socket. }
  split; [|split; [exact Hmem|split; [reflexivity|
    split; [|split; [|split; [|split; [|split]]]]]]].
  - subst second. rewrite join_voice_channel_state, Hmem, jsset_add_idem.
    subst first. rewrite join_voice_channel_state.
    set (R := JsMap.set
                (if JsMap.has (rooms st) c then rooms st
                 else JsMap.set (rooms st) c [])
                c (JsSet.add (members_of (rooms st) c) s)).
    rewrite socket_join_set_rooms, socket_join_idem.
    change (rooms (set_rooms (socket_join st s (voice_room c)) R)) with R.
    assert (HR : JsMap.has R c = true).
    { subst R. rewrite jsmap_has_set, String.eqb_refl. reflexivity. }
    rewrite HR. subst R. rewrite jsmap_set_set. reflexivity.
  - subst first. apply join_voice_channel_emits.
  - subst second. rewrite join_voice_channel_emits, Husers, Hmem.
    rewrite jsset_others_add. reflexivity.
  - intros h. subst others. apply jsset_In_delete.
  - intros Hk u Hin. apply in_map_iff in Hin. destruct Hin as [h [Hget Hh]].
    apply jsmap_get_In in Hget. rewrite (Hk h u Hget).
    split; [exact Hh|]. subst others. apply jsset_In_delete in Hh. tauto.
  - intros Hk. rewrite map_map. apply map_ext. intros h.
    unfold JsMap.has.
    destruct (JsMap.get (users st) h) as [u|] eqn:E; [|reflexivity].
    simpl. apply jsmap_get_In in E. rewrite (Hk h u E). reflexivity.
  - intros evs h -> Hh Hlook.
    subst others. apply jsset_In_delete in Hh. destruct Hh as [Hh _].
    apply members_of_In in Hh. destruct Hh as [m [Hin Hm]].
    pose proof (proj2 (reachable_own_inv evs h Hlook) c m Hin Hm) as Hreg.
    unfold JsMap.has in Hreg.
    destruct (JsMap.get (users (after evs)) h) as [u|] eqn:E;
      [|discriminate].
    exists u. split; [reflexivity|].
    apply jsmap_get_In in E. apply (reachable_keyed evs h u E).
Qed.

Lemma join_is_idempotent_and_lists_others_witness :
  let st := after (online "a1" alice ++ online "b1" bob ++
                   [ EvClient "a1" (JoinVoiceChannel "lobby" 1%Z) ]) in
  snd (join_voice_channel st "b1" "lobby" 2%Z)
  = [ (InRoomExcept "voice-lobby" "b1", UserJoinedVoice 2%Z "b1");
      (Direct "b1",
       ExistingVoiceUsers
         [ Some {| entry_row := Some alice; socketId := "a1" |} ]) ]
  /\ map (option_map socketId)
         (map (JsMap.get (users st))
              (JsSet.delete (members_of (rooms st) "lobby") "b1"))
     = [ Some "a1" ]
  /\ rooms (fst (join_voice_channel
                   (fst (join_voice_channel st "b1" "lobby" 2%Z))
                   "b1" "lobby" 2%Z))
     = [ ("lobby", ["a1"; "b1"]) ]
  /\ exists u, JsMap.get (users st) "a1" = Some u /\ socketId u = "a1".
Proof.
  intros st.
  pose proof (join_is_idempotent_and_lists_others st "b1" "lobby" 2%Z 2%Z)
    as [Hsame [_ [_ [Hfirst [_ [_ [_ [Hhandles Hentry]]]]]]]].
  split; [exact Hfirst|]. split; [|split].
  - rewrite Hhandles; [reflexivity | apply reachable_keyed].
  - rewrite Hsame. reflexivity.
  - apply (Hentry (online "a1" alice ++ online "b1" bob ++
                   [ EvClient "a1" (JoinVoiceChannel "lobby" 1%Z) ]) "a1").
    + reflexivity.
    + left. reflexivity.
    + reflexivity.
Defined.

(** C7, as stated, fails: the room a socket leaves as its last member stays
    in [rooms], with an empty member set. *)
Lemma empty_room_is_kept : ~ leave_prunes_empty_room.
Proof.
  intros H.
  specialize (H (after (online "a1" alice ++
                        [ EvClient "a1" (JoinVoiceChannel "lobby" 1%Z) ]))
                "a1" "lobby" eq_refl).
  vm_compute in H. discriminate.
Qed.

(** C7, amended.  Leaving a room takes the handle out of the member set of
    that room and changes no other room.  No room is ever removed from
    [rooms]: the table has the same room names in the same order after the
    leave, also when the member set has become empty. *)
Theorem leave_removes_member_keeps_room (st : State) (s : SocketId)
  (c : string) :
  let st' := fst (leave_voice_channel st s c) in
  members_of (rooms st') c = JsSet.delete (members_of (rooms st) c) s
  /\ ~ In s (members_of (rooms st') c)
  /\ JsMap.keys (rooms st') = JsMap.keys (rooms st)
  /\ (forall c', c' <> c ->
        JsMap.get (rooms st') c' = JsMap.get (rooms st) c')
  /\ users st' = users st.
Proof.
  intros st'.
  assert (Hm : members_of (rooms st') c
               = JsSet.delete (members_of (rooms st) c) s).
  { subst st'. rewrite leave_voice_channel_rooms.
    destruct (JsMap.has (rooms st) c) eqn:E.
    - apply members_of_set.
    - rewrite (members_of_absent _ _ E). reflexivity. }
  split; [exact Hm|]. split; [|split; [|split]].
  - rewrite Hm, jsset_In_delete. tauto.
  - subst st'. rewrite leave_voice_channel_rooms.
    destruct (JsMap.has (rooms st) c) eqn:E; [|reflexivity].
    apply jsmap_keys_set_present. assumption.
  - intros c' Hne. subst st'. rewrite leave_voice_channel_rooms.
    destruct (JsMap.has (rooms st) c); [|reflexivity].
    apply jsmap_get_set_other. congruence.
  - subst st'. apply (users_handle st s (LeaveVoiceChannel c)).
Qed.

(** * The client: ICE candidates *)

(** C9, as stated, fails: a candidate that arrives for a peer connection on
    which no remote description has been set yet is handed to the
    connection at once. *)
Lemma candidate_is_added_at_once : ~ candidate_waits_for_description.
Proof.
  intros H.
  specialize (H (Client.run [] [Client.UserJoinedVoice "b1"]) "b1" "cand"
                {| Client.isInitiator := true;
                   Client.calls := [Client.CreateOffer] |}
                eq_refl eq_refl).
  vm_compute in H. discriminate.
Qed.

Lemma client_get_call pcs remote c other :
  JsMap.get (Client.call pcs remote c) other
  = if String.eqb remote other
    then option_map
           (fun pc => {| Client.isInitiator := Client.isInitiator pc;
                         Client.calls := Client.calls pc ++ [c] |})
           (JsMap.get pcs remote)
    else JsMap.get pcs other.
Proof.
  unfold Client.call.
  destruct (JsMap.get pcs remote) as [pc|] eqn:E; simpl.
  - apply jsmap_get_set.
  - destruct (String.eqb_spec remote other) as [<-|]; [assumption | reflexivity].
Qed.

(** C9, amended.  The client has no buffer for candidates.  A candidate
    that arrives from a peer for which a peer connection exists is handed to
    [addIceCandidate] of that connection at once, whether or not a remote
    description has been set on it, and touches no other connection.  A
    candidate from a peer for which there is no peer connection, and an
    empty candidate, are discarded: the state stays as it is, so an offer
    that arrives afterwards finds nothing to flush. *)
Theorem ice_candidate_is_added_or_discarded (pcs : Client.PeerConnections)
  (from : SocketId) :
  (forall pc c,
     JsMap.get pcs from = Some pc ->
     JsMap.get (Client.ice_candidate pcs from (Some c)) from
     = Some {| Client.isInitiator := Client.isInitiator pc;
               Client.calls := Client.calls pc ++ [Client.AddIceCandidate c] |}
     /\ Client.added_for (Client.ice_candidate pcs from (Some c)) from
        = Client.added pc ++ [c])
  /\ (forall candidate other,
        other <> from ->
        JsMap.get (Client.ice_candidate pcs from candidate) other
        = JsMap.get pcs other)
  /\ Client.ice_candidate pcs from None = pcs
  /\ (JsMap.get pcs from = None ->
      forall candidate o,
        Client.ice_candidate pcs from candidate = pcs
        /\ Client.run pcs [Client.IceCandidate from candidate;
                           Client.Offer from o]
           = Client.run pcs [Client.Offer from o]).
Proof.
  split; [|split; [|split]].
  - intros pc c Hpc. unfold Client.added_for, Client.ice_candidate.
    rewrite Hpc, client_get_call, String.eqb_refl, Hpc. simpl.
    split; [reflexivity|].
    unfold Client.added. simpl. rewrite flat_map_app. reflexivity.
  - intros candidate other Hne. unfold Client.ice_candidate.
    destruct (JsMap.get pcs from) as [pc|]; [|reflexivity].
    destruct candidate as [c|]; [|reflexivity].
    rewrite client_get_call.
    destruct (String.eqb_spec from other); [congruence | reflexivity].
  - unfold Client.ice_candidate.
    destruct (JsMap.get pcs from); reflexivity.
  - intros Hnone candidate o.
    assert (E : Client.ice_candidate pcs from candidate = pcs).
    { unfold Client.ice_candidate. rewrite Hnone. reflexivity. }
    split; [exact E|].
    unfold Client.run. simpl. rewrite E. reflexivity.
Qed.

Lemma ice_candidate_is_added_or_discarded_witness :
  Client.added_for
    (Client.run [] [ Client.UserJoinedVoice "b1";
                     Client.IceCandidate "b1" (Some "cand") ]) "b1"
  = [ "cand" ]
  /\ Client.run [] [ Client.IceCandidate "b1" (Some "cand");
                     Client.Offer "b1" "sdp" ]
     = [ ("b1", {| Client.isInitiator := false;
                   Client.calls := [ Client.SetRemoteDescription "sdp" ] |}) ].
Proof.
  split.
  - apply (proj1 (ice_candidate_is_added_or_discarded
                    (Client.run [] [Client.UserJoinedVoice "b1"]) "b1")
                 {| Client.isInitiator := true;
                    Client.calls := [Client.CreateOffer] |} "cand" eq_refl).
  - rewrite (proj2 (proj2 (proj2 (proj2
               (ice_candidate_is_added_or_discarded [] "b1"))) eq_refl
               (Some "cand") "sdp")).
    reflexivity.
Defined.

Lemma leave_removes_member_keeps_room_witness :
  let st := after (online "a1" alice ++
                   [ EvClient "a1" (JoinVoiceChannel "lobby" 1%Z);
                     EvClient "a1" (JoinVoiceChannel "hall" 1%Z) ]) in
  JsMap.get (rooms (fst (leave_voice_channel st "a1" "lobby"))) "hall"
  = Some ["a1"]
  /\ JsMap.keys (rooms (fst (leave_voice_channel st "a1" "lobby")))
     = [ "lobby"; "hall" ]
  /\ members_of (rooms (fst (leave_voice_channel st "a1" "lobby"))) "lobby"
     = [].
Proof.
  intros st.
  pose proof (leave_removes_member_keeps_room st "a1" "lobby")
    as [Hm [_ [Hkeys [Hother _]]]].
  split; [|split].
  - rewrite (Hother "hall"); [reflexivity | discriminate].
  - rewrite Hkeys. reflexivity.
  - rewrite Hm. reflexivity.
Defined.

(** * Further properties of the server *)

(** ** Rooms are never removed *)

Lemma keys_remove_from_rooms r s :
  JsMap.keys (remove_from_rooms r s) = JsMap.keys r.
Proof.
  rewrite remove_from_rooms_delete. unfold JsMap.keys. rewrite map_map.
  reflexivity.
Qed.

Lemma keys_rooms_handle st s m :
  exists more,
    JsMap.keys (rooms (fst (handle st s m))) = JsMap.keys (rooms st) ++ more.
Proof.
  destruct m; cbn [handle];
    try (exists []; rewrite app_nil_r; reflexivity).
  - rewrite join_voice_channel_state. simpl.
    destruct (JsMap.has (rooms st) channelName) eqn:E.
    + exists []. rewrite app_nil_r. apply jsmap_keys_set_present. exact E.
    + exists [channelName]. rewrite jsmap_keys_set_present.
      * apply jsmap_keys_set_absent. exact E.
      * rewrite jsmap_has_set, String.eqb_refl. reflexivity.
  - exists []. rewrite app_nil_r, leave_voice_channel_rooms.
    destruct (JsMap.has (rooms st) channelName) eqn:E; [|reflexivity].
    apply jsmap_keys_set_present. exact E.
  - exists []. rewrite app_nil_r. unfold initiate_call.
    destruct (find (id_is to) (JsMap.values (users st))); reflexivity.
  - exists []. rewrite app_nil_r. unfold end_call.
    destruct (truthy to); reflexivity.
Qed.

Lemma keys_rooms_step st ev :
  exists more,
    JsMap.keys (rooms (fst (step st ev))) = JsMap.keys (rooms st) ++ more.
Proof.
  assert (Hsame : forall st', rooms st' = rooms st ->
            exists more, JsMap.keys (rooms st') = JsMap.keys (rooms st) ++ more).
  { intros st' ->. exists []. rewrite app_nil_r. reflexivity. }
  destruct ev as [s uid|s r|s ok|s m|s receiverId text db|s]; simpl.
  - destruct (JsMap.has (sockets st) s); apply Hsame; reflexivity.
  - destruct (phase_of st s) as [[]|]; try (apply Hsame; reflexivity).
    destruct r; simpl; apply Hsame; rewrite rooms_update_socket; reflexivity.
  - destruct (phase_of st s) as [[]|]; try (apply Hsame; reflexivity); simpl.
    + apply Hsame. apply rooms_update_socket.
    + exists []. rewrite app_nil_r, rooms_update_socket. simpl.
      apply keys_remove_from_rooms.
  - destruct (is_connected st s); [|apply Hsame; reflexivity].
    destruct (phase_of st s) as [[]|]; try (apply Hsame; reflexivity).
    apply keys_rooms_handle.
  - destruct (phase_of st s) as [[]|]; try (apply Hsame; reflexivity);
      rewrite send_dm_state; apply Hsame; reflexivity.
  - destruct (is_connected st s); [|apply Hsame; reflexivity].
    destruct (phase_of st s) as [[]|]; simpl; apply Hsame;
      unfold disconnect_begin, transport_close;
      try (destruct (JsMap.get (users (update_socket st s _)) s));
      rewrite ?rooms_update_socket; reflexivity.
Qed.

(** X1.  No event removes a room from [rooms]: after any run the table has
    the room names it had before, in the same order, followed by those of
    the rooms created since; a room that exists keeps existing, with or
    without members. *)
Theorem rooms_are_never_removed (st : State) (evs : list Event) :
  (exists more,
     JsMap.keys (rooms (fst (run st evs))) = JsMap.keys (rooms st) ++ more)
  /\ (forall c, JsMap.has (rooms st) c = true ->
                JsMap.has (rooms (fst (run st evs))) c = true).
Proof.
  assert (H : exists more,
     JsMap.keys (rooms (fst (run st evs))) = JsMap.keys (rooms st) ++ more).
  { revert st. induction evs as [|ev evs IH]; intros st.
    - exists []. rewrite app_nil_r. reflexivity.
    - rewrite run_cons. cbn [fst].
      destruct (keys_rooms_step st ev) as [m1 E1].
      destruct (IH (fst (step st ev))) as [m2 E2].
      exists (m1 ++ m2). rewrite E2, E1, app_assoc. reflexivity. }
  split; [exact H|].
  intros c Hc. destruct H as [more E].
  apply jsmap_has_In_keys. rewrite E. apply in_or_app. left.
  apply jsmap_has_In_keys. exact Hc.
Qed.

Lemma rooms_are_never_removed_witness :
  JsMap.has
    (rooms (fst (run (after (online "a1" alice ++
                             [EvClient "a1" (JoinVoiceChannel "lobby" 1%Z)]))
                     [ EvClient "a1" (LeaveVoiceChannel "lobby");
                       EvDisconnect "a1"; EvUpdateStatus "a1" true ])))
    "lobby" = true.
Proof.
  apply (proj2 (rooms_are_never_removed
                  (after (online "a1" alice ++
                          [EvClient "a1" (JoinVoiceChannel "lobby" 1%Z)]))
                  [ EvClient "a1" (LeaveVoiceChannel "lobby");
                    EvDisconnect "a1"; EvUpdateStatus "a1" true ])).
  reflexivity.
Defined.

(** ** Socket.IO rooms and the table of rooms agree *)

(** X2.  In every reachable state the two records of voice membership
    agree.  A socket whose transport is closed is in no Socket.IO room.  A
    socket whose transport is open (and whose id is not itself the name of a
    voice room) is in exactly these Socket.IO rooms: the room of its own id,
    and the room [voice-c] of every channel [c] of which it is a member in
    [rooms]. *)
Theorem socket_rooms_match_table (evs : list Event) (k : SocketId)
  (sk : Socket) :
  JsMap.get (sockets (after evs)) k = Some sk ->
  (connected sk = false -> joined sk = [])
  /\ (connected sk = true -> names_voice_room k = false ->
      forall r,
        In r (joined sk)
        <-> r = k
            \/ exists c, r = voice_room c
                         /\ In k (members_of (rooms (after evs)) c)).
Proof.
  intros Hget.
  destruct (reachable_wired evs) as [_ [Hw _]].
  destruct (Hw k sk Hget) as [H1 [_ [H3 [H4 H5]]]].
  split; [exact H1|].
  intros Hcon Hplain r.
  pose proof (names_voice_room_false k Hplain) as Hne. split.
  - intros Hr.
    destruct (reachable_joined_ok evs k sk (jsmap_get_In _ _ _ Hget) r Hr)
      as [->|[c ->]]; [left; reflexivity|].
    right. exists c. split; [reflexivity|].
    destruct (H3 c Hr) as [H|H]; [exact H | exfalso; apply (Hne c H)].
  - intros [->|[c [-> Hm]]].
    + destruct (H5 Hcon) as [H|[c H]]; [exact H | exfalso; apply (Hne c H)].
    + apply H4; assumption.
Qed.

Lemma socket_rooms_match_table_witness :
  In "voice-R2" ["a1"; "voice-R1"; "voice-R2"]
  <-> "voice-R2" = "a1"
      \/ exists c, "voice-R2" = voice_room c
                   /\ In "a1" (members_of (rooms (after call_scenario)) c).
Proof.
  apply (proj2 (socket_rooms_match_table call_scenario "a1"
                  {| userId := 1%Z; connected := true;
                     joined := ["a1"; "voice-R1"; "voice-R2"];
                     phase := Listening |} eq_refl)
               eq_refl eq_refl "voice-R2").
Defined.

(** ** Who is told of a join and of a leave *)

(** X3.  When an open socket joins a channel, the user-joined-voice is
    received by the sockets that were members of the channel before, other
    than the joiner, and whose transport is open, and by no other socket
    (sockets whose id is the name of a voice room apart); the list of
    existing users goes to the joiner alone.  Each socket that is told of
    the newcomer is thus one of those the newcomer is told of. *)
Theorem join_is_announced_to_open_members (evs : list Event) (s : SocketId)
  (c : string) (uid : UserId) :
  let st := after evs in
  let st' := fst (step st (EvClient s (JoinVoiceChannel c uid))) in
  is_connected st s = true -> phase_of st s = Some Listening ->
  snd (step st (EvClient s (JoinVoiceChannel c uid)))
  = [ (InRoomExcept (voice_room c) s, UserJoinedVoice uid s);
      (Direct s,
       ExistingVoiceUsers
         (map (JsMap.get (users st))
              (JsSet.delete (members_of (rooms st) c) s))) ]
  /\ (forall k,
        names_voice_room k = false ->
        (In k (recipients st' (InRoomExcept (voice_room c) s))
         <-> In k (JsSet.delete (members_of (rooms st) c) s)
             /\ is_connected st k = true))
  /\ recipients st' (Direct s) = [s].
Proof.
  intros st st' Hc Hp.
  assert (Hstep : step st (EvClient s (JoinVoiceChannel c uid))
                  = join_voice_channel st s c uid).
  { simpl. rewrite Hc, Hp. reflexivity. }
  assert (Hw : wired st').
  { subst st'. apply step_keeps_wired. apply reachable_wired. }
  assert (Hcon : forall k, is_connected st' k = is_connected st k).
  { intros k. subst st'. rewrite Hstep.
    apply (is_connected_handle st s (JoinVoiceChannel c uid)). }
  assert (Hm : members_of (rooms st') c
               = JsSet.add (members_of (rooms st) c) s).
  { subst st'. rewrite Hstep, join_voice_channel_state. simpl.
    apply members_of_set. }
  split; [rewrite Hstep; apply join_voice_channel_emits|]. split.
  - intros k Hplain.
    rewrite (recipients_except_voice_room st' c s k Hw Hplain).
    rewrite Hm, Hcon, jsset_In_delete, jsset_In_add. tauto.
  - simpl. rewrite Hcon, Hc. reflexivity.
Qed.

Lemma join_is_announced_to_open_members_witness :
  In "a1"
     (recipients
        (fst (step (after (online "a1" alice ++ online "b1" bob ++
                           [EvClient "a1" (JoinVoiceChannel "lobby" 1%Z)]))
                   (EvClient "b1" (JoinVoiceChannel "lobby" 2%Z))))
        (InRoomExcept (voice_room "lobby") "b1"))
  <-> In "a1" ["a1"]
      /\ is_connected
           (after (online "a1" alice ++ online "b1" bob ++
                   [EvClient "a1" (JoinVoiceChannel "lobby" 1%Z)])) "a1"
         = true.
Proof.
  apply (proj1 (proj2 (join_is_announced_to_open_members
           (online "a1" alice ++ online "b1" bob ++
            [EvClient "a1" (JoinVoiceChannel "lobby" 1%Z)])
           "b1" "lobby" 2%Z eq_refl eq_refl)) "a1" eq_refl).
Defined.

(** X4.  When an open socket leaves a channel that has a room, one
    user-left-voice carrying its handle is emitted, and it is received by
    the remaining members whose transport is open and by no other socket
    (sockets whose id is the name of a voice room apart).  When the channel
    has no room, nothing is emitted and [rooms] stays as it is: a leave
    never creates a room. *)
Theorem leave_is_announced_to_open_members (evs : list Event) (s : SocketId)
  (c : string) :
  let st := after evs in
  let st' := fst (step st (EvClient s (LeaveVoiceChannel c))) in
  is_connected st s = true -> phase_of st s = Some Listening ->
  (JsMap.has (rooms st) c = true ->
   snd (step st (EvClient s (LeaveVoiceChannel c)))
   = [ (InRoomExcept (voice_room c) s, UserLeftVoice s) ]
   /\ forall k,
        names_voice_room k = false ->
        (In k (recipients st' (InRoomExcept (voice_room c) s))
         <-> In k (JsSet.delete (members_of (rooms st) c) s)
             /\ is_connected st k = true))
  /\ (JsMap.has (rooms st) c = false ->
      snd (step st (EvClient s (LeaveVoiceChannel c))) = []
      /\ rooms st' = rooms st).
Proof.
  intros st st' Hc Hp.
  assert (Hstep : step st (EvClient s (LeaveVoiceChannel c))
                  = leave_voice_channel st s c).
  { simpl. rewrite Hc, Hp. reflexivity. }
  assert (Hrooms : rooms (socket_leave st s (voice_room c)) = rooms st)
    by apply rooms_update_socket.
  split.
  - intros Hhas. split.
    + rewrite Hstep. unfold leave_voice_channel. rewrite Hrooms, Hhas.
      reflexivity.
    + assert (Hw : wired st').
      { subst st'. apply step_keeps_wired. apply reachable_wired. }
      assert (Hcon : forall k, is_connected st' k = is_connected st k).
      { intros k. subst st'. rewrite Hstep.
        apply (is_connected_handle st s (LeaveVoiceChannel c)). }
      assert (Hm : members_of (rooms st') c
                   = JsSet.delete (members_of (rooms st) c) s).
      { subst st'. rewrite Hstep, leave_voice_channel_rooms, Hhas.
        apply members_of_set. }
      intros k Hplain.
      rewrite (recipients_except_voice_room st' c s k Hw Hplain).
      rewrite Hm, Hcon, jsset_In_delete. tauto.
  - intros Hhas. subst st'. rewrite Hstep. split.
    + unfold leave_voice_channel. rewrite Hrooms, Hhas. reflexivity.
    + rewrite leave_voice_channel_rooms, Hhas. reflexivity.
Qed.

Lemma leave_is_announced_to_open_members_witness :
  snd (step (after call_scenario) (EvClient "a1" (LeaveVoiceChannel "R1")))
  = [ (InRoomExcept (voice_room "R1") "a1", UserLeftVoice "a1") ]
  /\ snd (step (after call_scenario) (EvClient "a1" (LeaveVoiceChannel "R9")))
     = [].
Proof.
  pose proof (leave_is_announced_to_open_members call_scenario "a1" "R1"
                eq_refl eq_refl) as [H1 _].
  pose proof (leave_is_announced_to_open_members call_scenario "a1" "R9"
                eq_refl eq_refl) as [_ H9].
  split; [exact (proj1 (H1 eq_refl)) | exact (proj1 (H9 eq_refl))].
Defined.

(** ** Join and leave undo each other *)

Lemma jsset_delete_add_absent (m : JsSet.t) x :
  ~ In x m -> JsSet.delete (JsSet.add m x) x = m.
Proof.
  intros H. rewrite jsset_others_add. apply jsset_delete_absent. exact H.
Qed.

Lemma jsset_delete_idem (m : JsSet.t) x :
  JsSet.delete (JsSet.delete m x) x = JsSet.delete m x.
Proof.
  apply jsset_delete_absent. rewrite jsset_In_delete. tauto.
Qed.

Lemma members_of_after_leave st s c c' :
  members_of (rooms (fst (leave_voice_channel st s c))) c'
  = if String.eqb c c'
    then JsSet.delete (members_of (rooms st) c) s
    else members_of (rooms st) c'.
Proof. rewrite leave_voice_channel_rooms. apply members_of_leave. Qed.

Lemma members_of_after_join st s c uid c' :
  members_of (rooms (fst (join_voice_channel st s c uid))) c'
  = if String.eqb c c'
    then JsSet.add (members_of (rooms st) c) s
    else members_of (rooms st) c'.
Proof. rewrite join_voice_channel_state. simpl. apply members_of_join. Qed.

Lemma get_socket_after_join st s c uid :
  JsMap.get (sockets (fst (join_voice_channel st s c uid))) s
  = option_map
      (fun sk => set_joined (JsSet.add (joined sk) (voice_room c)) sk)
      (JsMap.get (sockets st) s).
Proof.
  rewrite join_voice_channel_state. simpl. unfold socket_join.
  rewrite get_update_socket, String.eqb_refl. reflexivity.
Qed.

Lemma get_socket_after_leave st s c :
  JsMap.get (sockets (fst (leave_voice_channel st s c))) s
  = option_map
      (fun sk => set_joined (JsSet.delete (joined sk) (voice_room c)) sk)
      (JsMap.get (sockets st) s).
Proof.
  rewrite leave_voice_channel_state. simpl. unfold socket_leave.
  rewrite get_update_socket, String.eqb_refl. reflexivity.
Qed.

(** X5.  A leave undoes a join: when a socket that is not a member of a
    channel joins it and then leaves it, every channel has the member set
    it had before, the registry is untouched, and the socket is in the
    Socket.IO rooms it was in before.  (The room of the channel is kept, so
    a channel that had no room now has an empty one.)  Leaving twice is the
    same as leaving once. *)
Theorem leave_undoes_join (st : State) (s : SocketId) (c : string)
  (uid : UserId) :
  let joined_st := fst (join_voice_channel st s c uid) in
  let back := fst (leave_voice_channel joined_st s c) in
  (~ In s (members_of (rooms st) c) ->
   (forall c', members_of (rooms back) c' = members_of (rooms st) c')
   /\ users back = users st
   /\ (forall sk, JsMap.get (sockets st) s = Some sk ->
                  ~ In (voice_room c) (joined sk) ->
                  JsMap.get (sockets back) s = Some sk))
  /\ JsMap.has (rooms back) c = true
  /\ fst (leave_voice_channel (fst (leave_voice_channel st s c)) s c)
     = fst (leave_voice_channel st s c).
Proof.
  intros joined_st back. split; [|split].
  - intros Hnot. split; [|split].
    + intros c'. subst back joined_st.
      rewrite members_of_after_leave, !members_of_after_join.
      rewrite String.eqb_refl.
      destruct (String.eqb_spec c c') as [<-|_]; [|reflexivity].
      apply jsset_delete_add_absent. exact Hnot.
    + subst back joined_st.
      exact (eq_trans
               (users_handle (fst (join_voice_channel st s c uid)) s
                  (LeaveVoiceChannel c))
               (users_handle st s (JoinVoiceChannel c uid))).
    + intros sk Hsk Hroom. subst back joined_st.
      rewrite get_socket_after_leave, get_socket_after_join, Hsk. simpl.
      unfold set_joined. simpl.
      rewrite jsset_delete_add_absent by exact Hroom.
      destruct sk. reflexivity.
  - subst back joined_st. rewrite leave_voice_channel_rooms.
    assert (H : JsMap.has (rooms (fst (join_voice_channel st s c uid))) c
                = true).
    { rewrite join_voice_channel_state. simpl.
      rewrite jsmap_has_set, String.eqb_refl. reflexivity. }
    rewrite H, jsmap_has_set, String.eqb_refl. reflexivity.
  - rewrite !leave_voice_channel_state.
    set (R := if JsMap.has (rooms st) c
              then JsMap.set (rooms st) c
                     (JsSet.delete (members_of (rooms st) c) s)
              else rooms st).
    change (rooms (set_rooms (socket_leave st s (voice_room c)) R)) with R.
    assert (HR : (if JsMap.has R c
                  then JsMap.set R c (JsSet.delete (members_of R c) s)
                  else R) = R).
    { subst R. destruct (JsMap.has (rooms st) c) eqn:E.
      - rewrite jsmap_has_set, String.eqb_refl. simpl.
        rewrite members_of_set, jsset_delete_idem, jsmap_set_set.
        reflexivity.
      - rewrite E. reflexivity. }
    rewrite HR.
    assert (HS : socket_leave (set_rooms (socket_leave st s (voice_room c)) R)
                   s (voice_room c)
                 = set_rooms (socket_leave st s (voice_room c)) R).
    { unfold socket_leave, update_socket, set_rooms. simpl.
      destruct (JsMap.get (sockets st) s) as [sk|] eqn:E; simpl.
      - rewrite jsmap_get_set_same, jsmap_set_set. unfold set_joined. simpl.
        rewrite jsset_delete_idem. reflexivity.
      - rewrite E. reflexivity. }
    rewrite HS. reflexivity.
Qed.

Lemma leave_undoes_join_witness :
  let st := after (online "a1" alice ++ online "b1" bob ++
                   [EvClient "a1" (JoinVoiceChannel "lobby" 1%Z)]) in
  members_of
    (rooms (fst (leave_voice_channel
                   (fst (join_voice_channel st "b1" "lobby" 2%Z))
                   "b1" "lobby")))
    "lobby"
  = ["a1"]
  /\ JsMap.get
       (sockets (fst (leave_voice_channel
                        (fst (join_voice_channel st "b1" "lobby" 2%Z))
                        "b1" "lobby")))
       "b1"
     = Some {| userId := 2%Z; connected := true; joined := ["b1"];
               phase := Listening |}.
Proof.
  intros st.
  destruct (proj1 (leave_undoes_join st "b1" "lobby" 2%Z)) as [Hm [_ Hs]].
  - intros [H|[]]. discriminate.
  - split.
    + rewrite Hm. reflexivity.
    + apply Hs; [reflexivity|]. intros [H|[]]. discriminate.
Defined.

(** ** What the events of one socket leave alone *)

Lemma members_of_after_handle_other st s0 m s c :
  s <> s0 -> In s (members_of (rooms st) c) ->
  In s (members_of (rooms (fst (handle st s0 m))) c).
Proof.
  intros Hne Hin. destruct m; cbn [handle]; try exact Hin.
  - rewrite members_of_after_join.
    destruct (String.eqb_spec channelName c) as [->|_]; [|exact Hin].
    apply jsset_In_add. left. exact Hin.
  - rewrite members_of_after_leave.
    destruct (String.eqb_spec channelName c) as [->|_]; [|exact Hin].
    apply jsset_In_delete. auto.
  - unfold initiate_call.
    destruct (find (id_is to) (JsMap.values (users st))); exact Hin.
  - unfold end_call. destruct (truthy to); exact Hin.
Qed.

Lemma get_socket_after_handle_other st s0 m s :
  s0 <> s ->
  JsMap.get (sockets (fst (handle st s0 m))) s = JsMap.get (sockets st) s.
Proof.
  intros Hne. destruct (sockets_handle st s0 m) as [E|[j E]]; rewrite E.
  - reflexivity.
  - rewrite get_update_socket.
    destruct (String.eqb_spec s0 s); [contradiction | reflexivity].
Qed.

Lemma get_update_socket_other st s0 f s :
  s0 <> s ->
  JsMap.get (sockets (update_socket st s0 f)) s = JsMap.get (sockets st) s.
Proof.
  intros Hne. rewrite get_update_socket.
  destruct (String.eqb_spec s0 s); [contradiction | reflexivity].
Qed.

(** A step of another socket leaves a socket as it is, keeps it registered
    if it was, and keeps it in the member sets it was in. *)
Lemma step_of_other_socket st ev s :
  socket_of ev <> s ->
  JsMap.get (sockets (fst (step st ev))) s = JsMap.get (sockets st) s
  /\ (JsMap.has (users st) s = true ->
      JsMap.has (users (fst (step st ev))) s = true)
  /\ (forall c, In s (members_of (rooms st) c) ->
                In s (members_of (rooms (fst (step st ev))) c)).
Proof.
  intros Hne.
  destruct ev as [s0 uid|s0 r|s0 ok|s0 m|s0 receiverId text db|s0];
    simpl in Hne; simpl.
  - destruct (JsMap.has (sockets st) s0); simpl; [auto|].
    rewrite jsmap_get_set_other by exact Hne. auto.
  - destruct (phase_of st s0) as [[]|]; auto.
    destruct r as [row|]; simpl;
      rewrite get_update_socket_other, users_update_socket,
        rooms_update_socket by exact Hne; simpl.
    + split; [reflexivity|]. split; [|auto].
      intros H. rewrite jsmap_has_set, H. apply orb_true_r.
    + auto.
  - destruct (phase_of st s0) as [[]|]; auto; simpl;
      rewrite get_update_socket_other, users_update_socket,
        rooms_update_socket by exact Hne; simpl; [auto|].
    split; [reflexivity|]. split.
    + intros H. rewrite jsmap_has_delete, H.
      destruct (String.eqb_spec s0 s); [contradiction | reflexivity].
    + intros c Hin. rewrite members_of_remove. apply jsset_In_delete. auto.
  - destruct (is_connected st s0); auto.
    destruct (phase_of st s0) as [[]|]; auto.
    rewrite get_socket_after_handle_other, users_handle by exact Hne.
    split; [reflexivity|]. split; [auto|].
    intros c Hin. apply members_of_after_handle_other; auto.
  - destruct (phase_of st s0) as [[]|]; auto; rewrite send_dm_state; auto.
  - destruct (is_connected st s0); auto.
    assert (Hclose :
      JsMap.get (sockets (transport_close st s0)) s = JsMap.get (sockets st) s
      /\ users (transport_close st s0) = users st
      /\ rooms (transport_close st s0) = rooms st).
    { unfold transport_close.
      rewrite get_update_socket_other, users_update_socket,
        rooms_update_socket by exact Hne. auto. }
    destruct Hclose as [Hg [Hu Hr]].
    destruct (phase_of st s0) as [[]|]; simpl; rewrite ?Hg, ?Hu, ?Hr; auto.
    unfold disconnect_begin.
    destruct (JsMap.get (users (transport_close st s0)) s0);
      rewrite get_update_socket_other, users_update_socket,
        rooms_update_socket, Hg, Hu, Hr by exact Hne; auto.
Qed.

(** ** What stays behind *)

Lemma step_keeps_closed_member st ev s c :
  phase_of st s = Some Closed /\ In s (members_of (rooms st) c) ->
  phase_of (fst (step st ev)) s = Some Closed
  /\ In s (members_of (rooms (fst (step st ev))) c).
Proof.
  intros [Hp Hin].
  destruct (String.eqb_spec (socket_of ev) s) as [E|Hne].
  - destruct ev as [s0 uid|s0 r|s0 ok|s0 m|s0 receiverId text db|s0];
      simpl in E; subst s0; simpl.
    + rewrite (phase_of_has st s Closed Hp). auto.
    + rewrite Hp. auto.
    + rewrite Hp. auto.
    + rewrite Hp. destruct (is_connected st s); auto.
    + rewrite Hp, send_dm_state. auto.
    + rewrite Hp. destruct (is_connected st s); [|auto]. simpl.
      unfold transport_close. rewrite rooms_update_socket.
      rewrite phase_of_keep by reflexivity. auto.
  - destruct (step_of_other_socket st ev s Hne) as [Hg [_ Hm]].
    split; [|apply Hm; exact Hin].
    unfold phase_of in *. rewrite Hg. exact Hp.
Qed.

(** X6.  A socket whose disconnect handler has finished is never taken out
    of a room again: if it still is in a member set then, which it is when
    it was not registered at the time it closed, it stays a member of that
    room in every later state, whatever happens. *)
Theorem closed_member_is_never_removed (st : State) (s : SocketId)
  (c : string) (evs : list Event) :
  phase_of st s = Some Closed -> In s (members_of (rooms st) c) ->
  phase_of (fst (run st evs)) s = Some Closed
  /\ In s (members_of (rooms (fst (run st evs))) c).
Proof.
  intros Hp Hin.
  apply (run_keeps
           (fun st => phase_of st s = Some Closed
                      /\ In s (members_of (rooms st) c))
           (fun _ => true)).
  - intros st0 ev _. apply step_keeps_closed_member.
  - apply forallb_forall. reflexivity.
  - split; assumption.
Qed.

Lemma closed_member_is_never_removed_witness :
  In "s1"
     (members_of
        (rooms (fst (run (after [ EvConnection "s1" 1%Z;
                                  EvFindById "s1" Rejected;
                                  EvClient "s1" (JoinVoiceChannel "lobby" 1%Z);
                                  EvDisconnect "s1" ])
                         (online "a1" alice ++
                          [ EvClient "a1" (JoinVoiceChannel "lobby" 1%Z);
                            EvClient "a1" (LeaveVoiceChannel "lobby");
                            EvDisconnect "a1"; EvUpdateStatus "a1" true ]))))
        "lobby").
Proof.
  apply (closed_member_is_never_removed
           (after [ EvConnection "s1" 1%Z;
                    EvFindById "s1" Rejected;
                    EvClient "s1" (JoinVoiceChannel "lobby" 1%Z);
                    EvDisconnect "s1" ])
           "s1" "lobby").
  - reflexivity.
  - left. reflexivity.
Defined.

Lemma step_keeps_closed_registered st ev s :
  is_connected st s = false
  /\ (phase_of st s = Some AwaitOnline \/ phase_of st s = Some Listening)
  /\ JsMap.has (users st) s = true ->
  is_connected (fst (step st ev)) s = false
  /\ (phase_of (fst (step st ev)) s = Some AwaitOnline
      \/ phase_of (fst (step st ev)) s = Some Listening)
  /\ JsMap.has (users (fst (step st ev))) s = true.
Proof.
  intros [Hc [Hp Hu]].
  destruct (String.eqb_spec (socket_of ev) s) as [E|Hne].
  - assert (Hhas : JsMap.has (sockets st) s = true).
    { destruct Hp as [Hp|Hp]; eapply phase_of_has; exact Hp. }
    destruct ev as [s0 uid|s0 r|s0 ok|s0 m|s0 receiverId text db|s0];
      simpl in E; subst s0; simpl.
    + rewrite Hhas. auto.
    + destruct Hp as [Hp|Hp]; rewrite Hp; auto.
    + destruct Hp as [Hp|Hp]; rewrite Hp; [|auto]. simpl.
      rewrite users_update_socket, phase_of_set_phase, String.eqb_refl, Hp.
      rewrite is_connected_keep by reflexivity. auto.
    + rewrite Hc. auto.
    + destruct Hp as [Hp|Hp]; rewrite Hp; [|rewrite send_dm_state]; auto.
    + rewrite Hc. auto.
  - destruct (step_of_other_socket st ev s Hne) as [Hg [Hu' _]].
    unfold is_connected, phase_of in *. rewrite Hg. auto.
Qed.

(** X7.  A connection whose transport closes before its disconnect handler
    is installed is never unregistered: once it is registered and closed
    while its callback still awaits the status update or has only just
    installed the handlers, it has its entry in [users], and so its place
    in every user list that is broadcast, in every later state. *)
Theorem closed_early_stays_registered (st : State) (s : SocketId)
  (evs : list Event) :
  is_connected st s = false ->
  phase_of st s = Some AwaitOnline \/ phase_of st s = Some Listening ->
  JsMap.has (users st) s = true ->
  JsMap.has (users (fst (run st evs))) s = true
  /\ is_connected (fst (run st evs)) s = false.
Proof.
  intros Hc Hp Hu.
  assert (H : is_connected (fst (run st evs)) s = false
              /\ (phase_of (fst (run st evs)) s = Some AwaitOnline
                  \/ phase_of (fst (run st evs)) s = Some Listening)
              /\ JsMap.has (users (fst (run st evs))) s = true).
  { apply (run_keeps
             (fun st => is_connected st s = false
                        /\ (phase_of st s = Some AwaitOnline
                            \/ phase_of st s = Some Listening)
                        /\ JsMap.has (users st) s = true)
             (fun _ => true)).
    - intros st0 ev _. apply step_keeps_closed_registered.
    - apply forallb_forall. reflexivity.
    - auto. }
  tauto.
Qed.

Lemma closed_early_stays_registered_witness :
  JsMap.has
    (users (fst (run (after [ EvConnection "s1" 1%Z; EvDisconnect "s1";
                              EvFindById "s1" (Resolved (Some alice)) ])
                     [ EvUpdateStatus "s1" true; EvDisconnect "s1";
                       EvUpdateStatus "s1" true;
                       EvClient "s1" (LeaveVoiceChannel "lobby") ])))
    "s1" = true.
Proof.
  apply (closed_early_stays_registered
           (after [ EvConnection "s1" 1%Z; EvDisconnect "s1";
                    EvFindById "s1" (Resolved (Some alice)) ])
           "s1").
  - reflexivity.
  - left. reflexivity.
  - reflexivity.
Defined.

(** ** No duplicates *)

Lemma jsset_add_nodup (m : JsSet.t) x : NoDup m -> NoDup (JsSet.add m x).
Proof.
  intros H. unfold JsSet.add. destruct (JsSet.has m x) eqn:E; [exact H|].
  apply jsset_has_false in E.
  apply NoDup_app; [exact H | repeat constructor; intros [] |].
  intros a Ha [<-|[]]. contradiction.
Qed.

Lemma jsset_delete_nodup (m : JsSet.t) x : NoDup m -> NoDup (JsSet.delete m x).
Proof. apply NoDup_filter. Qed.

Lemma jsmap_keys_set_nodup {V : Type} (m : JsMap.t V) k v :
  NoDup (JsMap.keys m) -> NoDup (JsMap.keys (JsMap.set m k v)).
Proof.
  intros H. destruct (JsMap.has m k) eqn:E.
  - rewrite jsmap_keys_set_present by exact E. exact H.
  - rewrite jsmap_keys_set_absent by exact E.
    apply NoDup_app; [exact H | repeat constructor; intros [] |].
    intros a Ha [<-|[]]. apply jsmap_has_In_keys in Ha. congruence.
Qed.

Lemma jsmap_keys_delete_nodup {V : Type} (m : JsMap.t V) k :
  NoDup (JsMap.keys m) -> NoDup (JsMap.keys (JsMap.delete m k)).
Proof.
  unfold JsMap.keys, JsMap.delete.
  induction m as [|[k0 v0] m IH]; simpl; intros H; [constructor|].
  inversion H as [|? ? Hnotin Hnd]; subst.
  destruct (negb (String.eqb k0 k)); simpl; [|auto].
  constructor; [|auto].
  intros Hin. apply Hnotin. apply in_map_iff in Hin.
  destruct Hin as [[k1 v1] [E Hin]]. apply filter_In in Hin.
  apply in_map_iff. exists (k1, v1). tauto.
Qed.

Lemma members_of_nodup (r : JsMap.t JsSet.t) c :
  (forall c' m, In (c', m) r -> NoDup m) -> NoDup (members_of r c).
Proof.
  intros H. unfold members_of.
  destruct (@JsMap.get JsSet.t r c) as [m|] eqn:E; [|apply NoDup_nil].
  apply (H c m). apply jsmap_get_In. exact E.
Qed.

Lemma handle_keeps_rooms_nodup st s m :
  NoDup (JsMap.keys (rooms st))
  /\ (forall c' m', In (c', m') (rooms st) -> NoDup m') ->
  NoDup (JsMap.keys (rooms (fst (handle st s m))))
  /\ (forall c' m',
        In (c', m') (rooms (fst (handle st s m))) -> NoDup m').
Proof.
  intros [Hk Hm]. destruct m; cbn [handle]; try (split; assumption).
  - rewrite join_voice_channel_state. simpl.
    set (r1 := if JsMap.has (rooms st) channelName then rooms st
               else JsMap.set (rooms st) channelName []).
    assert (Hk1 : NoDup (JsMap.keys r1)).
    { subst r1. destruct (JsMap.has (rooms st) channelName); [exact Hk|].
      apply jsmap_keys_set_nodup. exact Hk. }
    assert (Hm1 : forall c' m', In (c', m') r1 -> NoDup m').
    { subst r1. destruct (JsMap.has (rooms st) channelName); [exact Hm|].
      intros c' m' Hin. apply jsmap_In_set in Hin.
      destruct Hin as [[_ ->]|Hin]; [constructor | eapply Hm; exact Hin]. }
    split; [apply jsmap_keys_set_nodup; exact Hk1|].
    intros c' m' Hin. apply jsmap_In_set in Hin.
    destruct Hin as [[_ ->]|Hin]; [|eapply Hm1; exact Hin].
    apply jsset_add_nodup. apply members_of_nodup. exact Hm.
  - rewrite leave_voice_channel_rooms.
    destruct (JsMap.has (rooms st) channelName); [|split; assumption].
    split; [apply jsmap_keys_set_nodup; exact Hk|].
    intros c' m' Hin. apply jsmap_In_set in Hin.
    destruct Hin as [[_ ->]|Hin]; [|eapply Hm; exact Hin].
    apply jsset_delete_nodup. apply members_of_nodup. exact Hm.
  - unfold initiate_call.
    destruct (find (id_is to) (JsMap.values (users st))); split; assumption.
  - unfold end_call. destruct (truthy to); split; assumption.
Qed.

Lemma step_keeps_rooms_nodup st ev :
  NoDup (JsMap.keys (rooms st))
  /\ (forall c' m', In (c', m') (rooms st) -> NoDup m') ->
  NoDup (JsMap.keys (rooms (fst (step st ev))))
  /\ (forall c' m', In (c', m') (rooms (fst (step st ev))) -> NoDup m').
Proof.
  intros H.
  assert (Hsame : forall st', rooms st' = rooms st ->
    NoDup (JsMap.keys (rooms st'))
    /\ (forall c' m', In (c', m') (rooms st') -> NoDup m')).
  { intros st' ->. exact H. }
  destruct ev as [s uid|s r|s ok|s m|s receiverId text db|s]; simpl.
  - destruct (JsMap.has (sockets st) s); apply Hsame; reflexivity.
  - destruct (phase_of st s) as [[]|]; try (apply Hsame; reflexivity).
    destruct r; simpl; apply Hsame; rewrite rooms_update_socket; reflexivity.
  - destruct (phase_of st s) as [[]|]; try (apply Hsame; reflexivity); simpl.
    + apply Hsame. apply rooms_update_socket.
    + rewrite rooms_update_socket. simpl. destruct H as [Hk Hm]. split.
      * rewrite keys_remove_from_rooms. exact Hk.
      * intros c' m' Hin. apply In_remove_from_rooms in Hin.
        destruct Hin as [m0 [Hin ->]]. apply jsset_delete_nodup.
        eapply Hm. exact Hin.
  - destruct (is_connected st s); [|apply Hsame; reflexivity].
    destruct (phase_of st s) as [[]|]; try (apply Hsame; reflexivity).
    apply handle_keeps_rooms_nodup. exact H.
  - destruct (phase_of st s) as [[]|]; try (apply Hsame; reflexivity);
      rewrite send_dm_state; apply Hsame; reflexivity.
  - destruct (is_connected st s); [|apply Hsame; reflexivity].
    destruct (phase_of st s) as [[]|]; simpl; apply Hsame;
      unfold disconnect_begin, transport_close;
      try (destruct (JsMap.get (users (update_socket st s _)) s));
      rewrite ?rooms_update_socket; reflexivity.
Qed.

Lemma step_keeps_users_nodup st ev :
  NoDup (JsMap.keys (users st)) ->
  NoDup (JsMap.keys (users (fst (step st ev)))).
Proof.
  intros H. destruct (step_users st ev) as [E|[[s [row E]]|[s E]]]; rewrite E.
  - exact H.
  - apply jsmap_keys_set_nodup. exact H.
  - apply jsmap_keys_delete_nodup. exact H.
Qed.

(** X8.  In every reachable state no handle is registered twice, no room is
    listed twice, and no handle occurs twice in the member set of a room; so
    the user list that is broadcast never names a connection twice, and the
    list of existing users sent on a join has one item for each member. *)
Theorem tables_have_no_duplicates (evs : list Event) :
  let st := after evs in
  NoDup (JsMap.keys (users st))
  /\ NoDup (JsMap.keys (rooms st))
  /\ (forall c, NoDup (members_of (rooms st) c))
  /\ NoDup (map socketId (JsMap.values (users st))).
Proof.
  intros st.
  assert (Hu : NoDup (JsMap.keys (users st))).
  { subst st. unfold after.
    apply (run_keeps (fun st => NoDup (JsMap.keys (users st))) (fun _ => true)).
    - intros st0 ev _. apply step_keeps_users_nodup.
    - apply forallb_forall. reflexivity.
    - constructor. }
  assert (Hr : NoDup (JsMap.keys (rooms st))
               /\ (forall c' m', In (c', m') (rooms st) -> NoDup m')).
  { subst st. unfold after.
    apply (run_keeps
             (fun st => NoDup (JsMap.keys (rooms st))
                        /\ (forall c' m', In (c', m') (rooms st) -> NoDup m'))
             (fun _ => true)).
    - intros st0 ev _. apply step_keeps_rooms_nodup.
    - apply forallb_forall. reflexivity.
    - split; [constructor | intros c' m' []]. }
  split; [exact Hu|]. split; [exact (proj1 Hr)|]. split.
  - intros c. apply members_of_nodup. exact (proj2 Hr).
  - replace (map socketId (JsMap.values (users st)))
      with (JsMap.keys (users st)); [exact Hu|].
    unfold JsMap.keys, JsMap.values. rewrite map_map.
    apply map_ext_in. intros [k u] Hin. simpl. symmetry.
    apply (reachable_keyed evs k u Hin).
Qed.

(** * Further properties of the client's peer connections *)

Lemma client_get_create pcs r i other :
  JsMap.get (Client.createPeerConnection pcs r i) other
  = if JsMap.has pcs r then JsMap.get pcs other
    else if String.eqb r other
         then Some {| Client.isInitiator := i;
                      Client.calls := if i then [Client.CreateOffer] else [] |}
         else JsMap.get pcs other.
Proof.
  unfold Client.createPeerConnection.
  destruct (JsMap.has pcs r); [reflexivity | apply jsmap_get_set].
Qed.

Lemma client_get_create_present pcs r i other pc :
  JsMap.get pcs other = Some pc ->
  JsMap.get (Client.createPeerConnection pcs r i) other = Some pc.
Proof.
  intros H. rewrite client_get_create.
  destruct (JsMap.has pcs r) eqn:E; [exact H|].
  destruct (String.eqb_spec r other) as [->|_]; [|exact H].
  unfold JsMap.has in E. rewrite H in E. discriminate.
Qed.

Lemma client_get_left pcs r other :
  JsMap.get (Client.user_left_voice pcs r) other
  = if String.eqb r other then None else JsMap.get pcs other.
Proof.
  unfold Client.user_left_voice. destruct (JsMap.has pcs r) eqn:E.
  - apply jsmap_get_delete.
  - destruct (String.eqb_spec r other) as [<-|_]; [|reflexivity].
    unfold JsMap.has in E. destruct (JsMap.get pcs r); [discriminate|reflexivity].
Qed.

Lemma client_get_existing pcs users other pc :
  JsMap.get pcs other = Some pc ->
  JsMap.get (Client.existing_voice_users pcs users) other = Some pc.
Proof.
  revert pcs. induction users as [|[id|] users IH]; intros pcs H; simpl.
  - exact H.
  - apply IH. apply client_get_create_present. exact H.
  - exact H.
Qed.

Lemma client_handle_keeps_link pcs m r pc :
  JsMap.get pcs r = Some pc -> forgets r m = false ->
  exists more,
    JsMap.get (Client.handle pcs m) r
    = Some {| Client.isInitiator := Client.isInitiator pc;
              Client.calls := Client.calls pc ++ more |}.
Proof.
  intros Hget Hm.
  assert (Hsame : forall pcs', JsMap.get pcs' r = Some pc ->
    exists more, JsMap.get pcs' r
      = Some {| Client.isInitiator := Client.isInitiator pc;
                Client.calls := Client.calls pc ++ more |}).
  { intros pcs' H. exists []. rewrite app_nil_r, H. destruct pc. reflexivity. }
  assert (Hcall : forall pcs' x c, JsMap.get pcs' r = Some pc ->
    exists more, JsMap.get (Client.call pcs' x c) r
      = Some {| Client.isInitiator := Client.isInitiator pc;
                Client.calls := Client.calls pc ++ more |}).
  { intros pcs' x c H. rewrite client_get_call.
    destruct (String.eqb_spec x r) as [->|_]; [|apply Hsame; exact H].
    rewrite H. simpl. exists [c]. reflexivity. }
  destruct m as [x|ids|x|from o|from a|from cand|x|from]; simpl in *.
  - apply Hsame. apply client_get_create_present. exact Hget.
  - apply Hsame. apply client_get_existing. exact Hget.
  - apply Hsame. rewrite client_get_left.
    destruct (String.eqb_spec x r); [discriminate | exact Hget].
  - unfold Client.offer. apply Hcall.
    apply client_get_create_present. exact Hget.
  - unfold Client.answer. apply Hcall. exact Hget.
  - unfold Client.ice_candidate.
    destruct (JsMap.get pcs from) as [pc0|]; [|apply Hsame; exact Hget].
    destruct cand as [c|]; [|apply Hsame; exact Hget].
    apply Hcall. exact Hget.
  - apply Hsame. apply client_get_create_present. exact Hget.
  - apply Hsame. rewrite client_get_left.
    destruct (String.eqb_spec from r); [discriminate | exact Hget].
Qed.

(** X9.  A peer connection is created once for a peer and keeps its role:
    whatever messages arrive, as long as none of them is a user-left-voice
    or a call-ended for that peer, the connection that exists for the peer
    stays, with the role (initiator or responder) it was created with, and
    the calls issued on it so far are followed only by further calls.  In
    particular a second creation for the same peer, with either role,
    changes nothing. *)
Theorem link_keeps_its_role (pcs : Client.PeerConnections)
  (ms : list Client.Msg) (r : SocketId) (pc : Client.PeerConnection) :
  JsMap.get pcs r = Some pc ->
  forallb (fun m => negb (forgets r m)) ms = true ->
  (exists more,
     JsMap.get (Client.run pcs ms) r
     = Some {| Client.isInitiator := Client.isInitiator pc;
               Client.calls := Client.calls pc ++ more |})
  /\ (forall i, Client.createPeerConnection pcs r i = pcs).
Proof.
  intros Hget Hms. split.
  - revert pcs pc Hget. induction ms as [|m ms IH]; intros pcs pc Hget.
    + exists []. simpl. rewrite app_nil_r, Hget. destruct pc. reflexivity.
    + simpl in Hms. apply andb_true_iff in Hms. destruct Hms as [Hm Hms].
      apply negb_true_iff in Hm.
      destruct (client_handle_keeps_link pcs m r pc Hget Hm) as [m1 E1].
      destruct (IH Hms _ _ E1) as [m2 E2]. simpl in E2.
      exists (m1 ++ m2). unfold Client.run in *. simpl.
      rewrite E2, app_assoc. reflexivity.
  - intros i. unfold Client.createPeerConnection, JsMap.has.
    rewrite Hget. reflexivity.
Qed.

Lemma link_keeps_its_role_witness :
  exists more,
    JsMap.get
      (Client.run (Client.run [] [Client.UserJoinedVoice "b1"])
         [ Client.Offer "b1" "sdp"; Client.ExistingVoiceUsers [Some "b1"; Some "c1"];
           Client.UserLeftVoice "c1"; Client.IceCandidate "b1" (Some "cand") ])
      "b1"
    = Some {| Client.isInitiator := true;
              Client.calls := [Client.CreateOffer] ++ more |}.
Proof.
  apply (proj1 (link_keeps_its_role
                  (Client.run [] [Client.UserJoinedVoice "b1"])
                  [ Client.Offer "b1" "sdp";
                    Client.ExistingVoiceUsers [Some "b1"; Some "c1"];
                    Client.UserLeftVoice "c1";
                    Client.IceCandidate "b1" (Some "cand") ]
                  "b1"
                  {| Client.isInitiator := true;
                     Client.calls := [Client.CreateOffer] |}
                  eq_refl eq_refl)).
Defined.

(** X10.  An offer always leaves a peer connection for its sender with the
    remote description set by the last call on it: the connection is the
    existing one, or a new responder when there was none.  A candidate that
    arrives from the same peer after the offer is therefore never
    discarded: it is added after the description.  An answer from a peer
    for which there is no connection is ignored. *)
Theorem offer_opens_the_link (pcs : Client.PeerConnections) (r : SocketId)
  (o : Payload) :
  (exists pc before,
     JsMap.get (Client.offer pcs r o) r = Some pc
     /\ Client.calls pc = before ++ [Client.SetRemoteDescription o]
     /\ Client.described pc = true
     /\ (JsMap.get pcs r = None ->
         before = [] /\ Client.isInitiator pc = false)
     /\ forall c,
          JsMap.get
            (Client.run pcs [Client.Offer r o; Client.IceCandidate r (Some c)])
            r
          = Some {| Client.isInitiator := Client.isInitiator pc;
                    Client.calls := Client.calls pc
                                    ++ [Client.AddIceCandidate c] |})
  /\ (forall a, JsMap.get pcs r = None -> Client.answer pcs r a = pcs).
Proof.
  split.
  - assert (H : exists pc0,
              JsMap.get (Client.createPeerConnection pcs r false) r = Some pc0
              /\ (JsMap.get pcs r = None ->
                  pc0 = {| Client.isInitiator := false; Client.calls := [] |})).
    { rewrite client_get_create. unfold JsMap.has.
      destruct (JsMap.get pcs r) as [pc0|] eqn:E.
      - exists pc0. split; [reflexivity | discriminate].
      - rewrite String.eqb_refl. eexists. split; [reflexivity | auto]. }
    destruct H as [pc0 [Hpc0 Hnew]].
    exists {| Client.isInitiator := Client.isInitiator pc0;
              Client.calls := Client.calls pc0
                              ++ [Client.SetRemoteDescription o] |},
           (Client.calls pc0).
    assert (Hoffer : JsMap.get (Client.offer pcs r o) r
              = Some {| Client.isInitiator := Client.isInitiator pc0;
                        Client.calls := Client.calls pc0
                                        ++ [Client.SetRemoteDescription o] |}).
    { unfold Client.offer. rewrite client_get_call, String.eqb_refl, Hpc0.
      reflexivity. }
    split; [exact Hoffer|]. split; [reflexivity|]. split.
    { unfold Client.described. simpl. rewrite existsb_app. simpl.
      apply orb_true_r. }
    split.
    { intros Hnone. rewrite (Hnew Hnone). auto. }
    intros c. unfold Client.run. simpl. unfold Client.ice_candidate.
    rewrite Hoffer, client_get_call, String.eqb_refl, Hoffer. reflexivity.
  - intros a Hnone. unfold Client.answer, Client.call. rewrite Hnone.
    reflexivity.
Qed.

Lemma offer_opens_the_link_witness :
  Client.answer [] "p1" "an answer" = []
  /\ exists pc,
       JsMap.get (Client.offer [] "p1" "an offer") "p1" = Some pc
       /\ Client.isInitiator pc = false.
Proof.
  destruct (offer_opens_the_link [] "p1" "an offer")
    as [[pc [before [Hget [_ [_ [Hnew _]]]]]] Hanswer].
  split.
  - exact (Hanswer "an answer" eq_refl).
  - exists pc. split; [exact Hget | exact (proj2 (Hnew eq_refl))].
Defined.

(** X11.  After a user-left-voice or a call-ended for a peer the client has
    no connection for that peer and the connections for all other peers are
    as they were; a candidate or an answer that still arrives from the peer
    is discarded; and an offer that arrives from the peer later starts a new
    responder connection that knows nothing of the old one. *)
Theorem left_peer_is_forgotten (pcs : Client.PeerConnections) (r : SocketId) :
  let gone := Client.handle pcs (Client.UserLeftVoice r) in
  Client.handle pcs (Client.CallEnded r) = gone
  /\ JsMap.get gone r = None
  /\ (forall other, other <> r -> JsMap.get gone other = JsMap.get pcs other)
  /\ (forall c a,
        Client.run gone [Client.IceCandidate r c; Client.Answer r a] = gone)
  /\ (forall o,
        JsMap.get (Client.handle gone (Client.Offer r o)) r
        = Some {| Client.isInitiator := false;
                  Client.calls := [Client.SetRemoteDescription o] |}).
Proof.
  intros gone. subst gone. simpl.
  assert (Hnone : JsMap.get (Client.user_left_voice pcs r) r = None).
  { rewrite client_get_left, String.eqb_refl. reflexivity. }
  split; [reflexivity|]. split; [exact Hnone|]. split; [|split].
  - intros other Hne. rewrite client_get_left.
    destruct (String.eqb_spec r other); [congruence | reflexivity].
  - intros c a. unfold Client.run. simpl.
    unfold Client.ice_candidate. rewrite Hnone.
    unfold Client.answer, Client.call. rewrite Hnone. reflexivity.
  - intros o. unfold Client.offer.
    rewrite client_get_call, String.eqb_refl, client_get_create.
    unfold JsMap.has. rewrite Hnone, String.eqb_refl. reflexivity.
Qed.

Lemma left_peer_is_forgotten_witness :
  let pcs :=
    [ ("p1", {| Client.isInitiator := true;
                Client.calls := [Client.CreateOffer] |});
      ("p2", {| Client.isInitiator := false; Client.calls := [] |}) ] in
  JsMap.get (Client.handle pcs (Client.UserLeftVoice "p1")) "p2"
  = Some {| Client.isInitiator := false; Client.calls := [] |}.
Proof.
  intros pcs.
  destruct (left_peer_is_forgotten pcs "p1") as [_ [_ [Hother _]]].
  rewrite (Hother "p2"); [reflexivity | discriminate].
Defined.

(** X12.  The list of existing users makes the client the responder
    towards the peers listed before the first [null].  The server sends
    [null] for a member it has no registry entry for; the handler throws
    at such an item and stops.  Afterwards there is a connection for every
    peer listed before the first [null]; a peer that had a connection keeps
    it unchanged; a peer listed there that had none gets a responder
    connection on which no offer is created; no connection is made or
    changed for any other peer, so a peer listed after a [null] gets
    none.  A list without [null] is handled to its end. *)
Theorem existing_users_get_responders (pcs : Client.PeerConnections)
  (users : list (option SocketId)) :
  let pcs' := Client.handle pcs (Client.ExistingVoiceUsers users) in
  (forall r, In r (before_null users) -> JsMap.has pcs' r = true)
  /\ (forall r pc, JsMap.get pcs r = Some pc -> JsMap.get pcs' r = Some pc)
  /\ (forall r, JsMap.get pcs r = None -> In r (before_null users) ->
                JsMap.get pcs' r
                = Some {| Client.isInitiator := false; Client.calls := [] |})
  /\ (forall r, ~ In r (before_null users) ->
                JsMap.get pcs' r = JsMap.get pcs r)
  /\ (forall ids, before_null (map Some ids) = ids)
  /\ (forall ids rest,
        before_null (map Some ids ++ None :: rest) = ids).
Proof.
  simpl.
  assert (Hfold : forall items pcs,
            Client.existing_voice_users pcs items
            = fold_left
                (fun acc id => Client.createPeerConnection acc id false)
                (before_null items) pcs).
  { clear. induction items as [|[id|] items IH]; intros pcs; simpl;
      [reflexivity | apply IH | reflexivity]. }
  rewrite Hfold. generalize (before_null users) as ids. intros ids.
  assert (Hkeep : forall ids pcs r pc,
            JsMap.get pcs r = Some pc ->
            JsMap.get
              (fold_left
                 (fun acc id => Client.createPeerConnection acc id false)
                 ids pcs) r
            = Some pc).
  { clear. induction ids as [|id ids IH]; intros pcs r pc H; simpl.
    - exact H.
    - apply IH. apply client_get_create_present. exact H. }
  assert (Hnew : forall ids pcs r, JsMap.get pcs r = None -> In r ids ->
            JsMap.get
              (fold_left (fun acc id => Client.createPeerConnection acc id false)
                         ids pcs) r
            = Some {| Client.isInitiator := false; Client.calls := [] |}).
  { clear - Hkeep. induction ids as [|id ids IH]; intros pcs r Hnone Hin; simpl.
    - contradiction.
    - destruct (String.eqb_spec id r) as [->|Hne].
      + apply Hkeep. rewrite client_get_create.
        unfold JsMap.has. rewrite Hnone, String.eqb_refl. reflexivity.
      + apply IH; [|destruct Hin; [contradiction | assumption]].
        rewrite client_get_create.
        destruct (JsMap.has pcs id); [exact Hnone|].
        destruct (String.eqb_spec id r); [contradiction | exact Hnone]. }
  split; [|split; [|split; [|split; [|split]]]].
  - intros r Hin. unfold JsMap.has.
    destruct (JsMap.get pcs r) as [pc|] eqn:E.
    + rewrite (Hkeep ids pcs r pc E). reflexivity.
    + rewrite (Hnew ids pcs r E Hin). reflexivity.
  - intros r pc. apply Hkeep.
  - intros r. apply Hnew.
  - clear Hnew Hkeep. revert pcs. induction ids as [|id ids IH];
      intros pcs r Hnot.
    + reflexivity.
    + simpl. rewrite IH by (intros H; apply Hnot; right; exact H).
      rewrite client_get_create.
      destruct (JsMap.has pcs id); [reflexivity|].
      destruct (String.eqb_spec id r) as [->|_]; [|reflexivity].
      exfalso. apply Hnot. left. reflexivity.
  - clear. induction ids as [|id ids IH]; simpl; [|rewrite IH]; reflexivity.
  - clear. induction ids as [|id ids IH]; intros rest; simpl;
      [|rewrite IH]; reflexivity.
Qed.

(** The server's list for a room in which a connection whose lookup was
    rejected sits before b1: the client of the joiner stops at the [null]
    and makes no connection for b1. *)
Lemma existing_users_get_responders_witness :
  let st := after ([ EvConnection "s1" 3%Z; EvFindById "s1" Rejected;
                     EvClient "s1" (JoinVoiceChannel "lobby" 3%Z) ]
                   ++ online "b1" bob ++ online "a1" alice
                   ++ [ EvClient "b1" (JoinVoiceChannel "lobby" 2%Z) ]) in
  snd (join_voice_channel st "a1" "lobby" 1%Z)
  = [ (InRoomExcept "voice-lobby" "a1", UserJoinedVoice 1%Z "a1");
      (Direct "a1",
       ExistingVoiceUsers
         [ None; Some {| entry_row := Some bob; socketId := "b1" |} ]) ]
  /\ JsMap.get
       (Client.handle []
          (Client.ExistingVoiceUsers
             (as_read
                [ None; Some {| entry_row := Some bob; socketId := "b1" |} ])))
       "b1"
     = None
  /\ JsMap.get
       (Client.handle []
          (Client.ExistingVoiceUsers
             (as_read
                [ Some {| entry_row := Some bob; socketId := "b1" |} ])))
       "b1"
     = Some {| Client.isInitiator := false; Client.calls := [] |}.
Proof.
  intros st. split; [reflexivity|]. split.
  - rewrite (proj1 (proj2 (proj2 (proj2
               (existing_users_get_responders []
                  (as_read [ None;
                             Some {| entry_row := Some bob;
                                     socketId := "b1" |} ])))))
               "b1"); [reflexivity | intros []].
  - apply (proj1 (proj2 (proj2
             (existing_users_get_responders []
                (as_read [ Some {| entry_row := Some bob;
                                   socketId := "b1" |} ]))))).
    + reflexivity.
    + left. reflexivity.
Defined.

(** * The client's call controls *)

Lemma ui_run_cons ui a acts :
  Ui.run ui (a :: acts)
  = (fst (Ui.run (fst (Ui.act ui a)) acts),
     snd (Ui.act ui a) ++ snd (Ui.run (fst (Ui.act ui a)) acts)).
Proof.
  simpl. destruct (Ui.act ui a) as [ui1 out1]. simpl.
  destruct (Ui.run ui1 acts) as [ui2 out2]. reflexivity.
Qed.

Lemma forall_false_map (l : list bool) : Forall (eq false) (map (fun _ => false) l).
Proof. induction l; simpl; constructor; auto. Qed.

Lemma forall_false_repeat n : Forall (eq false) (repeat false n).
Proof. induction n; simpl; constructor; auto. Qed.

Lemma mic_off_none ui : Ui.localAudio ui = None -> Ui.mic_off ui.
Proof. intros H tracks E. rewrite H in E. discriminate. Qed.

Lemma mic_off_set_false ui audio :
  Ui.localAudio ui = Ui.set_audio false audio -> Ui.mic_off ui.
Proof.
  intros H tracks E. rewrite H in E. destruct audio as [l|]; [|discriminate].
  simpl in E. injection E as <-. apply forall_false_map.
Qed.

Lemma leave_keeps_muted_off ui force :
  (Ui.isMuted ui = true -> Ui.mic_off ui) ->
  Ui.isMuted (fst (Ui.leaveVoiceChannel ui force)) = true ->
  Ui.mic_off (fst (Ui.leaveVoiceChannel ui force)).
Proof.
  unfold Ui.leaveVoiceChannel.
  destruct (Ui.inCall ui); simpl; [|auto].
  destruct force; simpl.
  - intros _ _. apply mic_off_none. reflexivity.
  - intros H Hm tracks E. simpl in E. apply (H Hm tracks E).
Qed.

Lemma act_keeps_muted_off ui a :
  Ui.takes_call_media a = false ->
  (Ui.isMuted ui = true -> Ui.mic_off ui) ->
  Ui.isMuted (fst (Ui.act ui a)) = true -> Ui.mic_off (fst (Ui.act ui a)).
Proof.
  intros Ha Inv.
  destruct a as [| | |ch| |ch uid media|force| |from| |? ? ? ?|? ? ? ?];
    [| | | | | | | | | |discriminate Ha|discriminate Ha]; simpl.
  - intros Hm. apply (mic_off_set_false _ (Ui.localAudio ui)). simpl.
    rewrite Hm. reflexivity.
  - intros Hm. apply (mic_off_set_false _ (Ui.localAudio ui)). simpl.
    simpl in Hm. rewrite Hm. reflexivity.
  - unfold Ui.toggleAudio. destruct (Ui.localAudio ui) as [l|] eqn:E.
    + simpl. intros Hm. apply (mic_off_set_false _ (Some l)). simpl.
      apply negb_true_iff in Hm. rewrite Hm. reflexivity.
    + exact Inv.
  - intros Hm tracks E. apply (Inv Hm tracks E).
  - intros Hm tracks E. apply (Inv Hm tracks E).
  - destruct media as [n|]; simpl.
    + intros Hm tracks E. simpl in E. rewrite Hm in E. simpl in E.
      injection E as <-. apply forall_false_repeat.
    + apply leave_keeps_muted_off. exact Inv.
  - apply leave_keeps_muted_off. exact Inv.
  - unfold Ui.closeCall.
    pose proof (leave_keeps_muted_off ui true Inv) as H.
    destruct (Ui.leaveVoiceChannel ui true) as [ui' left]. exact H.
  - unfold Ui.call_ended.
    set (ui1 := {| Ui.inCall := Ui.inCall ui;
                   Ui.localAudio := Ui.localAudio ui;
                   Ui.screenStream := Ui.screenStream ui;
                   Ui.links := Client.user_left_voice (Ui.links ui) from;
                   Ui.currentChannel := Ui.currentChannel ui;
                   Ui.online := Ui.online ui; Ui.hidden := Ui.hidden ui;
                   Ui.callDetails := Ui.callDetails ui;
                   Ui.isVideoEnabled := Ui.isVideoEnabled ui;
                   Ui.isAudioEnabled := Ui.isAudioEnabled ui;
                   Ui.isMuted := Ui.isMuted ui;
                   Ui.isDeafened := Ui.isDeafened ui |}).
    assert (Inv1 : Ui.isMuted ui1 = true -> Ui.mic_off ui1).
    { intros Hm tracks E. apply (Inv Hm tracks E). }
    destruct (Ui.links ui1); [apply leave_keeps_muted_off; exact Inv1|].
    exact Inv1.
  - intros _. apply mic_off_none. reflexivity.
Qed.

(** X13.  While the user is muted the microphone is off, as long as the
    media are taken for a voice channel: along any sequence of clicks on
    the mute and deafen buttons, audio toggles, channel switches, voice
    joins (with other actions coming while the browser asks for the
    microphone), leaves, closed calls and ended or rejected calls, every
    audio track of the local stream is disabled whenever [isMuted] is set.
    The media of a direct call are taken differently: [initiateCall] and
    [acceptCall] leave [isMuted] as it is and start with every audio track
    enabled, so a user who was muted before the call is heard. *)
Theorem muted_microphone_is_off (ui : Ui.t) (acts : list Ui.Action) :
  (Ui.isMuted ui = true -> Ui.mic_off ui) ->
  (forallb (fun a => negb (Ui.takes_call_media a)) acts = true ->
   Ui.isMuted (fst (Ui.run ui acts)) = true ->
   Ui.mic_off (fst (Ui.run ui acts)))
  /\ (forall friendId caller type user n,
        let called := fst (Ui.initiateCall_resume ui friendId type user n) in
        let accepted := fst (Ui.acceptCall_resume ui caller type user n) in
        Ui.isMuted called = Ui.isMuted ui
        /\ Ui.localAudio called = Some (repeat true n)
        /\ Ui.isMuted accepted = Ui.isMuted ui
        /\ Ui.localAudio accepted = Some (repeat true n)).
Proof.
  intros Inv. split.
  - revert ui Inv. induction acts as [|a acts IH]; intros ui Inv Hall.
    + exact Inv.
    + simpl in Hall. apply andb_true_iff in Hall. destruct Hall as [Ha Hall].
      apply negb_true_iff in Ha. rewrite ui_run_cons. cbn [fst].
      apply IH; [|exact Hall].
      apply act_keeps_muted_off; assumption.
  - intros. repeat split.
Qed.

Lemma muted_microphone_is_off_witness :
  Ui.mic_off
    (fst (Ui.run (Ui.initial true)
            [ Ui.DeafenClick; Ui.VoiceClick; Ui.MuteClick; Ui.MuteClick;
              Ui.VoiceMedia "voice-chat" 1%Z (Some 1); Ui.DeafenClick ])).
Proof.
  apply (proj1 (muted_microphone_is_off (Ui.initial true)
                  [ Ui.DeafenClick; Ui.VoiceClick; Ui.MuteClick; Ui.MuteClick;
                    Ui.VoiceMedia "voice-chat" 1%Z (Some 1); Ui.DeafenClick ]
                  (fun H => False_ind _ (Bool.diff_false_true H)))).
  - reflexivity.
  - reflexivity.
Defined.

(** ** Leaving a voice channel *)

Lemma step_client_listening st s m :
  is_connected st s = true -> phase_of st s = Some Listening ->
  step st (EvClient s m) = handle st s m.
Proof. intros Hc Hp. simpl. rewrite Hc, Hp. reflexivity. Qed.

Lemma run_two_client_messages st s m1 m2 :
  is_connected st s = true -> phase_of st s = Some Listening ->
  fst (run st [EvClient s m1; EvClient s m2])
  = fst (handle (fst (handle st s m1)) s m2).
Proof.
  intros Hc Hp.
  rewrite run_cons, run_one. cbn [fst].
  rewrite (step_client_listening st s m1 Hc Hp).
  rewrite step_client_listening; [reflexivity| |].
  - rewrite is_connected_handle. exact Hc.
  - rewrite phase_of_handle. exact Hp.
Qed.

(** X14.  The client leaves under the name of the text channel.  A client
    that is not in a call and joins voice channel [V] sends
    ['join-voice-channel'] for [V]; when it then leaves, what it sends is
    ['leave-voice-channel'] for [currentChannel], the text channel shown,
    which a click on a voice channel does not change.  Served in this
    order by the server, the two messages leave the socket a member of [V]
    and in the Socket.IO room of [V] whenever the two names differ, while
    the client holds itself out of the call; only when they are the same
    is the membership removed. *)
Theorem leave_names_the_text_channel (st : State) (s : SocketId)
  (ui : Ui.t) (V : string) (uid : UserId) (n : nat) :
  is_connected st s = true ->
  phase_of st s = Some Listening ->
  Ui.inCall ui = false ->
  Ui.online ui = true ->
  let joining := Ui.joinVoice ui V uid (Some n) in
  let leaving := Ui.leaveVoiceChannel (fst joining) true in
  let st' := fst (run st (map (EvClient s) (snd joining ++ snd leaving))) in
  snd joining = [ JoinVoiceChannel V uid ]
  /\ snd leaving = [ LeaveVoiceChannel (Ui.currentChannel ui) ]
  /\ Ui.inCall (fst leaving) = false
  /\ (Ui.currentChannel ui <> V ->
      In s (members_of (rooms st') V)
      /\ exists sk, JsMap.get (sockets st') s = Some sk
                    /\ In (voice_room V) (joined sk))
  /\ (Ui.currentChannel ui = V -> ~ In s (members_of (rooms st') V)).
Proof.
  intros Hc Hp Hin Hon joining leaving st'.
  assert (Ej : snd joining = [ JoinVoiceChannel V uid ]).
  { subst joining. unfold Ui.joinVoice, Ui.joinVoiceChannel. rewrite Hin.
    simpl. rewrite Hon. reflexivity. }
  assert (El : snd leaving = [ LeaveVoiceChannel (Ui.currentChannel ui) ]).
  { subst leaving joining. unfold Ui.joinVoice, Ui.joinVoiceChannel.
    rewrite Hin. simpl. rewrite Hon. reflexivity. }
  assert (Ei : Ui.inCall (fst leaving) = false).
  { subst leaving joining. unfold Ui.joinVoice, Ui.joinVoiceChannel.
    rewrite Hin. reflexivity. }
  assert (Est : st' = fst (leave_voice_channel
                             (fst (join_voice_channel st s V uid)) s
                             (Ui.currentChannel ui))).
  { subst st'. rewrite Ej, El. simpl map.
    exact (run_two_client_messages st s (JoinVoiceChannel V uid)
             (LeaveVoiceChannel (Ui.currentChannel ui)) Hc Hp). }
  split; [exact Ej|]. split; [exact El|]. split; [exact Ei|].
  rewrite Est, members_of_after_leave.
  split.
  - intros Hne. apply String.eqb_neq in Hne. rewrite Hne. split.
    + rewrite members_of_after_join, String.eqb_refl.
      apply jsset_In_add. right. reflexivity.
    + destruct (is_connected_get st s Hc) as [sk [Hsk _]].
      rewrite get_socket_after_leave, get_socket_after_join, Hsk. simpl.
      eexists. split; [reflexivity|]. simpl.
      apply jsset_In_delete. split.
      * apply jsset_In_add. right. reflexivity.
      * intros E. apply voice_room_inj in E. apply String.eqb_neq in Hne.
        congruence.
  - intros ->. rewrite String.eqb_refl.
    rewrite jsset_In_delete. tauto.
Qed.

Lemma leave_names_the_text_channel_witness :
  let st := after (online "a1" alice) in
  let joining := Ui.joinVoice (Ui.initial true) "lobby" 1%Z (Some 1) in
  let leaving := Ui.leaveVoiceChannel (fst joining) true in
  snd leaving = [ LeaveVoiceChannel "general" ]
  /\ In "a1"
       (members_of
          (rooms (fst (run st (map (EvClient "a1")
                                 (snd joining ++ snd leaving)))))
          "lobby").
Proof.
  intros st joining leaving.
  destruct (leave_names_the_text_channel st "a1" (Ui.initial true) "lobby"
              1%Z 1 eq_refl eq_refl eq_refl eq_refl)
    as [_ [El [_ [Hne _]]]].
  split; [exact El|].
  apply Hne. discriminate.
Defined.



Lemma user_left_voice_nil (pcs : Client.PeerConnections) from :
  (forall k, JsMap.has pcs k = true -> k = from) ->
  Client.user_left_voice pcs from = [].
Proof.
  intros Honly. unfold Client.user_left_voice.
  destruct (JsMap.has pcs from) eqn:E.
  - destruct (JsMap.delete pcs from) as [|[k v] rest] eqn:D; [reflexivity|].
    assert (Hin : In (k, v) (JsMap.delete pcs from)).
    { rewrite D. left. reflexivity. }
    apply jsmap_In_delete in Hin. destruct Hin as [Hin Hne].
    apply jsmap_In_has in Hin. apply Honly in Hin. contradiction.
  - destruct pcs as [|[k v] rest]; [reflexivity|].
    assert (Hk : JsMap.has ((k, v) :: rest) k = true).
    { apply (jsmap_In_has _ k v). left. reflexivity. }
    pose proof (Honly k Hk) as Hkf. subst k. congruence.
Qed.

Lemma user_left_voice_has (pcs : Client.PeerConnections) from k :
  JsMap.has (Client.user_left_voice pcs from) k
  = (negb (String.eqb from k) && JsMap.has pcs k)%bool.
Proof.
  unfold Client.user_left_voice.
  destruct (JsMap.has pcs from) eqn:E.
  - apply jsmap_has_delete.
  - destruct (String.eqb_spec from k) as [<-|]; [exact E | reflexivity].
Qed.

(** X16.  A ['call-ended'] from the last peer ends the whole call.  The
    handler forgets the connection for the sender; when no connection to
    another peer is held, and also when none was held at all, a client in
    a call leaves it as by a forced [leaveVoiceChannel]: the stream is
    dropped, the call window hidden and ['leave-voice-channel'] sent.
    When a connection to another peer is held, only the sender's is
    forgotten.  The handler does not look at who the sender is. *)
Theorem call_ended_by_last_peer_leaves (ui : Ui.t) (from : SocketId) :
  let r := Ui.call_ended ui from in
  ((forall k, JsMap.has (Ui.links ui) k = true -> k = from) ->
   Ui.inCall ui = true ->
   Ui.inCall (fst r) = false
   /\ Ui.localAudio (fst r) = None
   /\ Ui.links (fst r) = []
   /\ Ui.hidden (fst r) = true
   /\ snd r = (if Ui.online ui
               then [ LeaveVoiceChannel (Ui.currentChannel ui) ] else []))
  /\ (forall k, k <> from -> JsMap.has (Ui.links ui) k = true ->
      Ui.inCall (fst r) = Ui.inCall ui
      /\ Ui.localAudio (fst r) = Ui.localAudio ui
      /\ snd r = []
      /\ (forall k', JsMap.has (Ui.links (fst r)) k'
                     = (negb (String.eqb from k')
                        && JsMap.has (Ui.links ui) k')%bool)).
Proof.
  intros r. split.
  - intros Honly Hin. subst r. unfold Ui.call_ended. cbn [Ui.links].
    rewrite (user_left_voice_nil _ _ Honly).
    unfold Ui.leaveVoiceChannel. simpl. rewrite Hin. simpl.
    repeat split.
  - intros k Hne Hk. subst r. unfold Ui.call_ended. cbn [Ui.links].
    destruct (Client.user_left_voice (Ui.links ui) from) as [|kv rest] eqn:E.
    + exfalso.
      assert (H : JsMap.has (Client.user_left_voice (Ui.links ui) from) k
                  = true).
      { rewrite user_left_voice_has, Hk.
        apply not_eq_sym in Hne. apply String.eqb_neq in Hne.
        rewrite Hne. reflexivity. }
      rewrite E in H. discriminate.
    + simpl. repeat split. intros k'. rewrite <- E.
      apply user_left_voice_has.
Qed.

Lemma call_ended_by_last_peer_leaves_witness :
  let ui := fst (Ui.joinVoice (Ui.initial true) "lobby" 1%Z (Some 1)) in
  snd (Ui.call_ended ui "stranger") = [ LeaveVoiceChannel "general" ].
Proof.
  intros ui.
  destruct (proj1 (call_ended_by_last_peer_leaves ui "stranger"))
    as [_ [_ [_ [_ H]]]].
  - intros k Hk. discriminate Hk.
  - reflexivity.
  - exact H.
Defined.

(** * Chat messages *)

(** X17.  A channel message is filed under [general] or [random].  A
    client in the server view sends a non-empty text with the id of its
    current channel, which is 1 for [general] and 2 for every other name;
    the server broadcasts it with this id to everyone, with the author and
    the avatar (or the capital initial) of the sender; a client that
    receives it appends it to the list of [general] for id 1 and of
    [random] for every other id, leaves the other lists alone, and puts it
    on the screen when it is in the server view and this is its current
    channel.  So names and ids go back and forth for [general] and
    [random] only, and a message sent from a channel of another name is
    filed under [random] and is not put on the sender's screen. *)
Theorem message_is_filed_under_general_or_random (st : State)
  (s : SocketId) (c text : string) (dm : option UserId) (user : UserRow)
  (savedId : Z) (cl : Chat.Client) :
  text <> EmptyString ->
  let id := Chat.getChannelIdByName c in
  let name := if String.eqb c "general" then "general" else "random" in
  let message :=
    {| dm_id := savedId; dm_author := row_username user;
       dm_avatar := avatar_or_initial user; dm_text := text |} in
  let cl' := Chat.new_message cl id message in
  Chat.sendMessage text true Chat.Server dm c = [ Chat.SendMessage id text ]
  /\ Chat.send_message st s id text (Resolved (user, savedId))
     = (st, [ (Broadcast, Chat.NewMessage id message) ])
  /\ Chat.getChannelNameById id = name
  /\ (name = c <-> c = "general" \/ c = "random")
  /\ JsMap.get (Chat.channels cl') name
     = Some (match JsMap.get (Chat.channels cl) name with
             | Some l => l
             | None => []
             end ++ [message])
  /\ (forall other, other <> name ->
        JsMap.get (Chat.channels cl') other
        = JsMap.get (Chat.channels cl) other)
  /\ Chat.shown cl'
     = (if (String.eqb name (Chat.currentChannel cl)
            && Chat.is_server (Chat.currentView cl))%bool
        then Chat.shown cl ++ [message] else Chat.shown cl)
  /\ (c <> "general" -> c <> "random" -> Chat.currentChannel cl = c ->
      Chat.shown cl' = Chat.shown cl).
Proof.
  intros Htext id name message cl'.
  assert (Hname : Chat.getChannelNameById id = name).
  { subst id name. unfold Chat.getChannelNameById, Chat.getChannelIdByName.
    destruct (String.eqb c "general"); reflexivity. }
  assert (Hshown : Chat.shown cl'
     = (if (String.eqb name (Chat.currentChannel cl)
            && Chat.is_server (Chat.currentView cl))%bool
        then Chat.shown cl ++ [message] else Chat.shown cl)).
  { subst cl'. unfold Chat.new_message. cbn [Chat.shown].
    rewrite Hname. reflexivity. }
  split; [|split; [|split; [|split; [|split; [|split; [|split]]]]]].
  - destruct text; [contradiction|reflexivity].
  - reflexivity.
  - exact Hname.
  - subst name. destruct (String.eqb_spec c "general") as [->|Hg].
    + split; auto.
    + split.
      * intros <-. right. reflexivity.
      * intros [->| ->]; [contradiction|reflexivity].
  - subst cl'. unfold Chat.new_message. cbn [Chat.channels].
    rewrite Hname, jsmap_get_set_same.
    unfold JsMap.has.
    destruct (JsMap.get (Chat.channels cl) name) as [l|] eqn:E.
    + rewrite E. reflexivity.
    + rewrite jsmap_get_set_same. reflexivity.
  - intros other Hother. subst cl'. unfold Chat.new_message.
    cbn [Chat.channels]. rewrite Hname.
    rewrite jsmap_get_set_other by (apply not_eq_sym; exact Hother).
    destruct (JsMap.has (Chat.channels cl) name); [reflexivity|].
    apply jsmap_get_set_other. apply not_eq_sym. exact Hother.
  - exact Hshown.
  - intros Hg Hr Hc. rewrite Hshown, Hc. subst name.
    destruct (String.eqb_spec c "general") as [->|_]; [contradiction|].
    destruct (String.eqb_spec "random" c) as [<-|_]; [contradiction|].
    reflexivity.
Qed.

Lemma message_is_filed_under_general_or_random_witness :
  let cl := {| Chat.channels := [("general", []); ("random", [])];
               Chat.currentChannel := "memes";
               Chat.currentView := Chat.Server; Chat.shown := [] |} in
  let message :=
    {| dm_id := 7%Z; dm_author := "alice";
       dm_avatar := InitialOf "alice"; dm_text := "hello" |} in
  Chat.sendMessage "hello" true Chat.Server None "memes"
  = [ Chat.SendMessage 2%Z "hello" ]
  /\ JsMap.get (Chat.channels (Chat.new_message cl 2%Z message)) "random"
     = Some [message]
  /\ Chat.shown (Chat.new_message cl 2%Z message) = [].
Proof.
  intros cl message.
  destruct (message_is_filed_under_general_or_random init "a1" "memes"
              "hello" None
              {| row_id := 1%Z; row_username := "alice"; row_avatar := None |}
              7%Z cl)
    as [Hs [_ [_ [_ [Hf [_ [_ Hn]]]]]]].
  - discriminate.
  - split; [exact Hs|]. split; [exact Hf|].
    apply Hn; [discriminate | discriminate | reflexivity].
Defined.

(** * The HTTP side *)

Lemma split_space_field (a b : string) :
  no_space a = true ->
  Http.split_space (String.append a (String " " b)) = a :: Http.split_space b.
Proof.
  induction a as [|c a IH]; simpl; intros Ha.
  - reflexivity.
  - apply andb_true_iff in Ha. destruct Ha as [Hc Ha].
    apply negb_true_iff in Hc. rewrite Hc, (IH Ha). reflexivity.
Qed.

Lemma split_space_one (a : string) :
  no_space a = true -> Http.split_space a = [a].
Proof.
  induction a as [|c a IH]; simpl; intros Ha.
  - reflexivity.
  - apply andb_true_iff in Ha. destruct Ha as [Hc Ha].
    apply negb_true_iff in Hc. rewrite Hc, (IH Ha). reflexivity.
Qed.

Lemma authenticateToken_fields {U : Type} (verify : string -> option U) h :
  Http.authenticateToken verify (Some h)
  = match nth_error (Http.split_space h) 1 with
    | Some (String c t) =>
        match verify (String c t) with
        | Some user => Http.Authenticated user
        | None => Http.Forbidden
        end
    | _ => Http.Unauthorized
    end.
Proof. destruct h; reflexivity. Qed.

(** X18.  The token is the second field of the authorization header.
    [authenticateToken] answers 401 when the header is missing or has no
    space in it.  For a header of two or more fields separated by single
    spaces, the outcome is decided by the second field alone: 401 when it
    is empty, else what [jwt.verify] says of it (403 on an error, the
    decoded user otherwise).  The first field is not looked at, so any
    scheme word is taken as well as [Bearer], and whatever follows a
    second space is dropped. *)
Theorem token_is_second_field {U : Type} (verify : string -> option U) :
  Http.authenticateToken verify None = Http.Unauthorized
  /\ (forall h, no_space h = true ->
        Http.authenticateToken verify (Some h) = Http.Unauthorized)
  /\ (forall scheme tok,
        no_space scheme = true -> no_space tok = true ->
        let decided :=
          match tok with
          | EmptyString => Http.Unauthorized
          | _ => match verify tok with
                 | Some user => Http.Authenticated user
                 | None => Http.Forbidden
                 end
          end in
        Http.authenticateToken verify
          (Some (String.append scheme (String " " tok))) = decided
        /\ forall rest,
             Http.authenticateToken verify
               (Some (String.append scheme
                        (String " " (String.append tok (String " " rest)))))
             = decided).
Proof.
  split; [reflexivity|]. split.
  - intros h Hh. rewrite authenticateToken_fields, (split_space_one h Hh).
    reflexivity.
  - intros scheme tok Hs Ht decided. split.
    + rewrite authenticateToken_fields, (split_space_field _ _ Hs),
        (split_space_one tok Ht).
      subst decided. destruct tok; reflexivity.
    + intros rest.
      rewrite authenticateToken_fields, (split_space_field _ _ Hs),
        (split_space_field _ _ Ht).
      subst decided. destruct tok; reflexivity.
Qed.

Lemma token_is_second_field_witness :
  let verify := fun t => if String.eqb t "abc" then Some 1%Z else None in
  Http.authenticateToken verify (Some "Basic abc") = Http.Authenticated 1%Z
  /\ Http.authenticateToken verify (Some "Bearer abc and more")
     = Http.Authenticated 1%Z
  /\ Http.authenticateToken verify (Some "abc") = Http.Unauthorized.
Proof.
  intros verify.
  destruct (token_is_second_field verify) as [_ [Hone Htwo]].
  split; [|split].
  - exact (proj1 (Htwo "Basic" "abc" eq_refl eq_refl)).
  - exact (proj2 (Htwo "Bearer" "abc" eq_refl eq_refl) "and more").
  - exact (Hone "abc" eq_refl).
Defined.

(** X19.  The statement of a profile update fits its parameters.  For a
    body that is a JSON object: when [username] is given as a value that
    counts as true and is not a string, the route answers 500, whatever the
    status.  Otherwise the update is refused (status 400) exactly when
    neither a user name of at least two characters after trimming nor one
    of the four statuses is given as a string.  Otherwise the statement run
    is one of three fixed texts, it has as many [?] as there are
    parameters, the last parameter is the id of the authenticated user, and
    the parameters before it are the trimmed user name and the status, in
    this order, each present exactly when it is valid: nothing of the
    request is put into the text of the statement. *)
Theorem profile_update_fits_its_parameters
  (username status : Http.JsonValue) (userId : UserId) :
  let throws :=
    match username with
    | Http.JText _ => false
    | v => Http.truthy_value v
    end in
  let name_ok :=
    match username with
    | Http.JText u => Nat.leb 2 (String.length (Http.trim u))
    | _ => false
    end in
  let status_ok :=
    match status with
    | Http.JText t => existsb (String.eqb t) Http.statuses
    | _ => false
    end in
  let name_param :=
    match username with
    | Http.JText u => if name_ok then [Http.PText (Http.trim u)] else []
    | _ => []
    end in
  let status_param :=
    match status with
    | Http.JText t => if status_ok then [Http.PText t] else []
    | _ => []
    end in
  (throws = true ->
   Http.update_profile username status userId = Http.ServerError)
  /\ (throws = false -> name_ok = false -> status_ok = false ->
      Http.update_profile username status userId = Http.NothingToUpdate)
  /\ (throws = false -> (name_ok || status_ok)%bool = true ->
      exists sql,
        Http.update_profile username status userId
        = Http.RunSql sql (name_param ++ status_param ++ [Http.PInt userId])
        /\ Http.placeholders sql
           = length (name_param ++ status_param ++ [Http.PInt userId])
        /\ In sql
             [ "UPDATE users SET username = ? WHERE id = ?";
               "UPDATE users SET status = ? WHERE id = ?";
               "UPDATE users SET username = ?, status = ? WHERE id = ?" ]).
Proof.
  intros throws name_ok status_ok name_param status_param.
  unfold name_param, status_param, name_ok, status_ok, throws.
  clear name_param status_param name_ok status_ok throws.
  unfold Http.update_profile.
  destruct username as [| |[|]|n|[|c u]| |];
    destruct status as [| |[|]|m|[|d t]| |];
    cbn [Http.truthy_value];
    try (remember (Nat.leb 2 (String.length (Http.trim (String c u))))
           as long eqn:Elong; clear Elong; destruct long);
    try (remember (existsb (String.eqb (String d t)) Http.statuses)
           as known eqn:Eknown; clear Eknown; destruct known);
    try destruct (Z.eqb n 0); try destruct (Z.eqb m 0);
    simpl;
    (split; [|split];
     [ intros H; first [ discriminate H | reflexivity ]
     | intros H0 H1 H2;
       first [ discriminate H0 | discriminate H1 | discriminate H2
             | reflexivity ]
     | intros H0 Hok;
       first [ discriminate H0 | discriminate Hok
             | eexists; split; [reflexivity|]; split; [reflexivity|];
               simpl; auto ] ]).
Qed.

Lemma profile_update_fits_its_parameters_witness :
  (exists sql,
     Http.update_profile (Http.JText "  bob  ") (Http.JText "Idle") 7%Z
     = Http.RunSql sql
         [ Http.PText "bob"; Http.PText "Idle"; Http.PInt 7%Z ]
     /\ Http.placeholders sql = 3)
  /\ Http.update_profile (Http.JText " b ") (Http.JText "Away") 7%Z
     = Http.NothingToUpdate
  /\ Http.update_profile (Http.JNumber 5) (Http.JText "Idle") 7%Z
     = Http.ServerError.
Proof.
  split; [|split].
  - destruct (proj2 (proj2 (profile_update_fits_its_parameters
                       (Http.JText "  bob  ") (Http.JText "Idle") 7%Z))
                eq_refl eq_refl)
      as [sql [E [P _]]].
    exists sql. split; [exact E | exact P].
  - exact (proj1 (proj2 (profile_update_fits_its_parameters
                    (Http.JText " b ") (Http.JText "Away") 7%Z))
             eq_refl eq_refl eq_refl).
  - exact (proj1 (profile_update_fits_its_parameters
                    (Http.JNumber 5) (Http.JText "Idle") 7%Z) eq_refl).
Defined.

(** X20.  A friend request is announced to the first connection of the
    receiver.  In every reachable state, when [sendRequest] has changed a
    row and some entry of [users] has the receiver's id, the only message
    emitted is a new-friend-request addressed to the handle of the first
    such entry, which the socket of this entry receives while its
    transport is open and no other socket does (a socket id that is also
    the name of a voice room apart); when no row was changed, or no entry
    has the id, nothing is emitted.  The answer is 200 in all these cases,
    and 500 with nothing emitted when [sendRequest] has failed. *)
Theorem friend_request_goes_to_first_connection (evs : list Event)
  (friendId : UserId) (changes : Z) :
  let st := after evs in
  (forall before callee rest,
     JsMap.values (users st) = before ++ callee :: rest ->
     forallb (fun u => negb (id_is friendId u)) before = true ->
     id_is friendId callee = true ->
     Http.friend_request st friendId (Resolved changes)
     = (200%Z,
        if Z.ltb 0 changes
        then [ (InRoom (socketId callee), Http.NewFriendRequest) ] else [])
     /\ (names_voice_room (socketId callee) = false ->
         forall k,
           In k (recipients st (InRoom (socketId callee)))
           <-> k = socketId callee
               /\ is_connected st (socketId callee) = true))
  /\ ((forall u, In u (JsMap.values (users st)) -> id_is friendId u = false) ->
      Http.friend_request st friendId (Resolved changes) = (200%Z, []))
  /\ Http.friend_request st friendId Rejected = (500%Z, []).
Proof.
  intros st. split; [|split].
  - intros before callee rest Hvals Hbefore Hcallee. split.
    + unfold Http.friend_request.
      rewrite Hvals, (find_first _ _ _ _ Hbefore Hcallee). reflexivity.
    + intros Hplain k.
      apply recipients_of_socket_room;
        [apply reachable_wired | apply reachable_joined_ok | exact Hplain].
  - intros Hnone. unfold Http.friend_request.
    rewrite (proj2 (find_none_iff _ _) Hnone).
    destruct (Z.ltb 0 changes); reflexivity.
  - reflexivity.
Qed.

Lemma friend_request_goes_to_first_connection_witness :
  let st := after (online "a1" alice ++ online "b1" bob ++ online "b2" bob) in
  Http.friend_request st 2%Z (Resolved 1%Z)
  = (200%Z, [ (InRoom "b1", Http.NewFriendRequest) ])
  /\ recipients st (InRoom "b1") = ["b1"].
Proof.
  intros st.
  destruct (proj1 (friend_request_goes_to_first_connection
                     (online "a1" alice ++ online "b1" bob ++ online "b2" bob)
                     2%Z 1%Z)
              [ {| entry_row := Some alice; socketId := "a1" |} ]
              {| entry_row := Some bob; socketId := "b1" |}
              [ {| entry_row := Some bob; socketId := "b2" |} ]
              eq_refl eq_refl eq_refl) as [E _].
  split; [exact E | reflexivity].
Defined.

(** ** Direct calls, end to end *)

(** X21.  Accepting a call makes one initiator and one responder.  When
    neither side holds a connection for the other, the accepting client
    makes a responder connection for the caller, on which it issues no
    call, and sends ['accept-call']; the server forwards it to the room
    named by [to], putting the accepter's own socket id into [from]
    whatever the client has written there; and the caller's client, on
    ['call-accepted'], makes an initiator connection for that socket id and
    calls [createOffer] on it once.  A side that holds a connection for
    the other already keeps it as it is. *)
Theorem accepted_call_has_one_initiator (st : State) (accepter : SocketId)
  (caller : SocketId) (ui : Ui.t) (pcs : Client.PeerConnections)
  (type : string) (user : Caller) (n : nat) :
  Ui.online ui = true ->
  let accepted := Ui.acceptCall_resume ui caller type user n in
  let served := handle st accepter (AcceptCall caller user) in
  let at_caller := Client.handle pcs (Client.CallAccepted accepter) in
  snd accepted = [ AcceptCall caller user ]
  /\ served
     = (st, [ (InRoom caller,
               CallAccepted {| ai_id := from_id user;
                               ai_username := from_username user;
                               ai_socketId := accepter |}) ])
  /\ (JsMap.get (Ui.links ui) caller = None ->
      JsMap.get (Ui.links (fst accepted)) caller
      = Some {| Client.isInitiator := false; Client.calls := [] |})
  /\ (JsMap.get pcs accepter = None ->
      JsMap.get at_caller accepter
      = Some {| Client.isInitiator := true;
                Client.calls := [Client.CreateOffer] |})
  /\ (forall pc, JsMap.get (Ui.links ui) caller = Some pc ->
                 Ui.links (fst accepted) = Ui.links ui)
  /\ (forall pc, JsMap.get pcs accepter = Some pc -> at_caller = pcs).
Proof.
  intros Hon accepted served at_caller.
  subst accepted served at_caller. simpl. rewrite Hon.
  split; [reflexivity|]. split; [reflexivity|].
  split; [|split; [|split]].
  - intros Hnone. rewrite client_get_create. unfold JsMap.has.
    rewrite Hnone, String.eqb_refl. reflexivity.
  - intros Hnone. rewrite client_get_create. unfold JsMap.has.
    rewrite Hnone, String.eqb_refl. reflexivity.
  - intros pc Hpc. unfold Client.createPeerConnection, JsMap.has.
    rewrite Hpc. reflexivity.
  - intros pc Hpc. unfold Client.createPeerConnection, JsMap.has.
    rewrite Hpc. reflexivity.
Qed.

Lemma accepted_call_has_one_initiator_witness :
  JsMap.get
    (Ui.links (fst (Ui.acceptCall_resume (Ui.initial true) "a1" "audio"
                      (as_caller bob) 1)))
    "a1"
  = Some {| Client.isInitiator := false; Client.calls := [] |}
  /\ JsMap.get (Client.handle [] (Client.CallAccepted "b1")) "b1"
     = Some {| Client.isInitiator := true;
               Client.calls := [Client.CreateOffer] |}.
Proof.
  destruct (accepted_call_has_one_initiator init "b1" "a1" (Ui.initial true)
              [] "audio" (as_caller bob) 1 eq_refl)
    as [_ [_ [Hr [Hi _]]]].
  split; [exact (Hr eq_refl) | exact (Hi eq_refl)].
Defined.

Lemma act_keeps_callDetails ui a :
  Ui.callDetails ui = true -> Ui.callDetails (fst (Ui.act ui a)) = true.
Proof.
  intros H.
  assert (Hleave : forall u force,
            Ui.callDetails u = true ->
            Ui.callDetails (fst (Ui.leaveVoiceChannel u force)) = true).
  { intros u force Hu. unfold Ui.leaveVoiceChannel.
    destruct (Ui.inCall u); simpl; [|exact Hu].
    destruct force; exact Hu. }
  destruct a as [| | |ch| |ch uid media|force| |from| |? ? ? ?|? ? ? ?];
    simpl; try exact H; try reflexivity.
  - unfold Ui.toggleAudio. destruct (Ui.localAudio ui); exact H.
  - destruct media; [exact H | apply Hleave; exact H].
  - apply Hleave. exact H.
  - unfold Ui.closeCall.
    pose proof (Hleave ui true H) as H'.
    destruct (Ui.leaveVoiceChannel ui true). exact H'.
  - unfold Ui.call_ended. cbn [Ui.links].
    destruct (Client.user_left_voice (Ui.links ui) from);
      [apply Hleave; exact H | exact H].
Qed.

Lemma In_insert_index x y l :
  In y (Client.insert_index x l) <-> y = x \/ In y l.
Proof.
  induction l as [|z l IH]; simpl.
  - intuition.
  - destruct (Z.leb (fst x) (fst z)); simpl; [intuition|].
    rewrite IH. intuition.
Qed.

Lemma In_object_keys {V : Type} (o : JsMap.t V) k :
  In k (Client.object_keys o) <-> In k (JsMap.keys o).
Proof.
  unfold Client.object_keys. generalize (JsMap.keys o) as ks. intros ks.
  rewrite in_app_iff, filter_In, in_map_iff.
  assert (Hsorted : forall nk l,
            In nk (fold_right Client.insert_index [] l) <-> In nk l).
  { intros nk l. induction l as [|z l IH]; simpl; [tauto|].
    rewrite In_insert_index, IH. intuition. }
  split.
  - intros [[[n k'] [E Hin]]|[Hin _]]; [|exact Hin].
    simpl in E. subst k'. apply (proj1 (Hsorted _ _)) in Hin.
    apply in_flat_map in Hin. destruct Hin as [k' [Hk' Hin]].
    destruct (Client.array_index k') as [n'|]; [|contradiction].
    destruct Hin as [E|[]]. inversion E; subst. exact Hk'.
  - intros Hin. destruct (Client.array_index k) as [n|] eqn:E.
    + left. exists (n, k). split; [reflexivity|].
      apply (proj2 (Hsorted _ _)). apply in_flat_map. exists k.
      split; [exact Hin|].
      rewrite E. left. reflexivity.
    + right. split; [exact Hin | reflexivity].
Qed.

Lemma object_keys_plain {V : Type} (o : JsMap.t V) :
  (forall k, In k (JsMap.keys o) -> Client.array_index k = None) ->
  Client.object_keys o = JsMap.keys o.
Proof.
  unfold Client.object_keys. generalize (JsMap.keys o) as ks.
  intros ks Hplain.
  assert (Hnone : flat_map (fun k => match Client.array_index k with
                                     | Some n => [(n, k)]
                                     | None => []
                                     end) ks = []).
  { induction ks as [|k ks IH]; [reflexivity|]. simpl.
    rewrite (Hplain k) by (left; reflexivity).
    apply IH. intros k' Hk'. apply Hplain. right. exact Hk'. }
  assert (Hall : filter (fun k => match Client.array_index k with
                                  | Some _ => false
                                  | None => true
                                  end) ks = ks).
  { induction ks as [|k ks IH]; [reflexivity|]. simpl.
    rewrite (Hplain k) by (left; reflexivity). f_equal.
    apply IH.
    - intros k' Hk'. apply Hplain. right. exact Hk'.
    - simpl in Hnone. rewrite (Hplain k) in Hnone by (left; reflexivity).
      exact Hnone. }
  rewrite Hnone, Hall. reflexivity.
Qed.

(** Keys that are array indices come first, in numeric order. *)
Example object_keys_puts_indices_first :
  Client.object_keys [ ("b", 1); ("2", 2); ("10", 3); ("a", 4); ("07", 5) ]
  = [ "2"; "10"; "b"; "a"; "07" ].
Proof. reflexivity. Qed.

(** X22.  Closing the call window after a direct call.  The details of a
    direct call, once set by [initiateCall] or [acceptCall], are never
    cleared: they stay set along every sequence of actions.  With them set,
    the close button of a connected client in a call sends one ['end-call']
    for every key of [peerConnections], in the order of [Object.keys], and
    then ['leave-voice-channel']; afterwards the client holds no
    connection, no stream and is out of the call.  So the peers of a voice
    channel joined after a direct call are sent ['end-call'] too.  The
    keys listed are those of the peers a connection is held for; when none
    of them is an array index, which no socket id the server issues is,
    they are listed in the order the connections were made. *)
Theorem close_ends_every_link (ui : Ui.t) :
  Ui.callDetails ui = true ->
  (forall acts, Ui.callDetails (fst (Ui.run ui acts)) = true)
  /\ (Ui.online ui = true -> Ui.inCall ui = true ->
      snd (Ui.closeCall ui)
      = map (fun k => EndCall (Some k)) (Client.object_keys (Ui.links ui))
        ++ [ LeaveVoiceChannel (Ui.currentChannel ui) ]
      /\ Ui.links (fst (Ui.closeCall ui)) = []
      /\ Ui.localAudio (fst (Ui.closeCall ui)) = None
      /\ Ui.inCall (fst (Ui.closeCall ui)) = false)
  /\ (forall k, In k (Client.object_keys (Ui.links ui))
                <-> JsMap.has (Ui.links ui) k = true)
  /\ ((forall k, JsMap.has (Ui.links ui) k = true ->
                 Client.array_index k = None) ->
      Client.object_keys (Ui.links ui) = JsMap.keys (Ui.links ui)).
Proof.
  intros Hd. split; [|split; [|split]].
  - intros acts. revert ui Hd. induction acts as [|a acts IH]; intros ui Hd.
    + exact Hd.
    + rewrite ui_run_cons. cbn [fst]. apply IH.
      apply act_keeps_callDetails. exact Hd.
  - intros Hon Hin. unfold Ui.closeCall, Ui.leaveVoiceChannel.
    rewrite Hd, Hon, Hin. simpl. repeat split.
  - intros k. rewrite In_object_keys. symmetry. apply jsmap_has_In_keys.
  - intros Hplain. apply object_keys_plain. intros k Hk.
    apply Hplain. apply jsmap_has_In_keys. exact Hk.
Qed.

(** Bob accepts a call of a1, is sent an offer by "7" and by c1, and
    closes the call window. *)
Lemma close_ends_every_link_witness :
  let ui :=
    fst (Ui.acceptCall_resume (Ui.initial true) "a1" "audio"
           (as_caller bob) 1) in
  let linked :=
    {| Ui.inCall := Ui.inCall ui; Ui.localAudio := Ui.localAudio ui;
       Ui.screenStream := Ui.screenStream ui;
       Ui.links :=
         Client.run (Ui.links ui)
           [ Client.Offer "7" "sdp"; Client.Offer "c1" "sdp" ];
       Ui.currentChannel := Ui.currentChannel ui; Ui.online := Ui.online ui;
       Ui.hidden := Ui.hidden ui; Ui.callDetails := Ui.callDetails ui;
       Ui.isVideoEnabled := Ui.isVideoEnabled ui;
       Ui.isAudioEnabled := Ui.isAudioEnabled ui;
       Ui.isMuted := Ui.isMuted ui; Ui.isDeafened := Ui.isDeafened ui |} in
  snd (Ui.closeCall linked)
  = [ EndCall (Some "7"); EndCall (Some "a1"); EndCall (Some "c1");
      LeaveVoiceChannel "general" ]
  /\ Ui.links (fst (Ui.closeCall linked)) = [].
Proof.
  intros ui linked.
  destruct (proj1 (proj2 (close_ends_every_link linked eq_refl))
              eq_refl eq_refl) as [Hsent [Hlinks _]].
  split; [rewrite Hsent; reflexivity | exact Hlinks].
Defined.

(** X23.  Deafening mutes, and undoing it does not unmute.  A click on
    the deafen button of a user who is not deafened sets both flags and
    disables every audio track; a second click clears [isDeafened] only:
    the user stays muted with the microphone off, also when the user was
    not muted before.  A click on the mute button while deafened clears
    [isMuted] and enables the tracks with [isDeafened] still set.  Two
    clicks on the mute button give back the flags, with the tracks set
    after the flag. *)
Theorem undeafened_stays_muted (ui : Ui.t) :
  (Ui.isDeafened ui = false ->
   let deaf := Ui.deafenClick ui in
   let back := Ui.deafenClick deaf in
   Ui.isDeafened deaf = true /\ Ui.isMuted deaf = true /\ Ui.mic_off deaf
   /\ Ui.isDeafened back = false /\ Ui.isMuted back = true
   /\ Ui.mic_off back
   /\ Ui.isDeafened (Ui.muteClick deaf) = true
   /\ Ui.isMuted (Ui.muteClick deaf) = false
   /\ Ui.localAudio (Ui.muteClick deaf)
      = Ui.set_audio true (Ui.localAudio ui))
  /\ Ui.isMuted (Ui.muteClick (Ui.muteClick ui)) = Ui.isMuted ui
  /\ Ui.isDeafened (Ui.muteClick (Ui.muteClick ui)) = Ui.isDeafened ui
  /\ Ui.localAudio (Ui.muteClick (Ui.muteClick ui))
     = Ui.set_audio (negb (Ui.isMuted ui)) (Ui.localAudio ui).
Proof.
  assert (Hset : forall a b l,
            Ui.set_audio a (Ui.set_audio b l) = Ui.set_audio a l).
  { intros a b [l|]; simpl; [|reflexivity]. rewrite map_map. reflexivity. }
  split; [|split; [|split]].
  - intros Hd deaf back. subst back deaf. simpl. rewrite Hd. simpl.
    repeat split.
    + apply (mic_off_set_false _ (Ui.localAudio ui)). simpl. rewrite Hd.
      reflexivity.
    + apply (mic_off_set_false _ (Ui.localAudio ui)). simpl. rewrite Hd.
      simpl. apply Hset.
    + apply Hset.
  - simpl. apply negb_involutive.
  - reflexivity.
  - simpl. rewrite Hset, negb_involutive. reflexivity.
Qed.

Lemma undeafened_stays_muted_witness :
  let ui := fst (Ui.joinVoice (Ui.initial true) "lobby" 1%Z (Some 1)) in
  Ui.localAudio ui = Some [true]
  /\ Ui.isMuted (Ui.deafenClick (Ui.deafenClick ui)) = true
  /\ Ui.mic_off (Ui.deafenClick (Ui.deafenClick ui)).
Proof.
  intros ui.
  destruct (proj1 (undeafened_stays_muted ui) eq_refl)
    as [_ [_ [_ [_ [Hm [Hoff _]]]]]].
  split; [reflexivity|]. split; [exact Hm | exact Hoff].
Defined.
